(** * SpeakWithAI: the voice understanding pipeline

    A shallow embedding of the rate-limit controller, the regex based
    field extractors and the route handlers of [src/app/api/sanitize/route.ts],
    of the client side classification and the speech session callbacks of
    [src/app/components/VoiceInput.tsx], and of the form controller of the
    home page ([handleVoiceInput]).

    Modelling conventions.
    - A JavaScript string is a sequence of UTF-16 code units.  The
      development covers the texts whose code units are below 256 (ASCII
      and Latin-1): one [ascii] per code unit.
    - A JavaScript number that holds a time stamp or a counter is an
      integer ([Z], [N]); [backoffMs], the jitter and the confidences are
      exact rationals ([Q]), so rounding of binary floating point is not
      modelled.  What is proved of [backoffMs] is kept to bounds that
      rounding to nearest preserves: the floor of 1000, the cap of 30000
      and that a failure does not lower it.
    - [Date.now()], [Math.random()] and the outcome of a remote call are
      inputs of the function that uses them. *)

From Stdlib Require Import Ascii String.
From Stdlib Require Import List Bool Arith NArith ZArith QArith Qminmax Lia Lqa.
Import ListNotations.

Open Scope string_scope.
Open Scope Z_scope.
Open Scope nat_scope.
Open Scope list_scope.

(* ================================================================== *)
(** * JavaScript strings *)
(* ================================================================== *)

Module JS.

Definition jsstring : Type := list ascii.

Definition lit (s : string) : jsstring := list_ascii_of_string s.

Definition code (c : ascii) : N := N_of_ascii c.

Definition between (lo hi n : N) : bool := (N.leb lo n && N.leb n hi)%bool.

(** WhiteSpace and LineTerminator code units below 256: TAB, LF, VT, FF,
    CR, SP and NBSP.  [String.prototype.trim] and the class [\s] use the
    same set. *)
Definition isWhiteSpace (c : ascii) : bool :=
  (between 9 13 (code c) || N.eqb (code c) 32 || N.eqb (code c) 160)%bool.

Definition isDigit (c : ascii) : bool := between 48 57 (code c).

Definition isUpperAZ (c : ascii) : bool := between 65 90 (code c).

Definition isLowerAZ (c : ascii) : bool := between 97 122 (code c).

(** The class [\w]: [A-Za-z0-9_]. *)
Definition isWordChar (c : ascii) : bool :=
  (isUpperAZ c || isLowerAZ c || isDigit c || N.eqb (code c) 95)%bool.

(** [toLowerCase] on one code unit: A-Z and the Latin-1 capitals
    (0xC0-0xDE without the multiplication sign 0xD7). *)
Definition toLowerChar (c : ascii) : ascii :=
  if (isUpperAZ c || (between 192 222 (code c) && negb (N.eqb (code c) 215)))%bool
  then ascii_of_N (code c + 32) else c.

(** Canonicalize of a case-insensitive, non-unicode RegExp: the upper
    case of the code unit when that is again a single code unit of the
    same side of 128.  Below 256 this moves a-z and the Latin-1 small
    letters 0xE0-0xFE (without the division sign 0xF7).  The two code
    units whose upper case lies beyond 255 (0xB5 and 0xFF) have no other
    code unit below 256 with the same canonical form; they are kept, which
    gives the same comparisons. *)
Definition canonicalize (c : ascii) : ascii :=
  if (isLowerAZ c || (between 224 254 (code c) && negb (N.eqb (code c) 247)))%bool
  then ascii_of_N (code c - 32) else c.

Definition toLowerCase (s : jsstring) : jsstring := map toLowerChar s.

Fixpoint dropWhile (p : ascii -> bool) (s : jsstring) : jsstring :=
  match s with
  | [] => []
  | c :: s' => if p c then dropWhile p s' else s
  end.

Definition trimStart (s : jsstring) : jsstring := dropWhile isWhiteSpace s.

Definition trimEnd (s : jsstring) : jsstring := rev (trimStart (rev s)).

Definition trim (s : jsstring) : jsstring := trimEnd (trimStart s).

Fixpoint eqb (s t : jsstring) : bool :=
  match s, t with
  | [], [] => true
  | c :: s', d :: t' => (Ascii.eqb c d && eqb s' t')%bool
  | _, _ => false
  end.

(** Truthiness of a string: the empty string is falsy. *)
Definition truthy (s : jsstring) : bool :=
  match s with [] => false | _ :: _ => true end.

End JS.

Coercion JS.lit : string >-> JS.jsstring.

Abbreviation jsstring := JS.jsstring.

(* ================================================================== *)
(** * Regular expressions

    A backtracking matcher in continuation passing style, after the
    Matcher/Continuation semantics of ECMAScript: alternatives are tried
    left to right, quantifiers are greedy, an iteration of [*] that
    consumes nothing is rejected, and a search tries the start positions
    from left to right. *)
(* ================================================================== *)

Module RegExp.

Import JS.

Inductive class_item : Type :=
| CChar (c : ascii)            (* a single character *)
| CRange (lo hi : ascii)       (* lo-hi *)
| CWord                        (* \w *)
| CDigit                       (* \d *)
| CSpace.                      (* \s *)

Inductive regex : Type :=
| Empty
| Char (c : ascii)
| Class (negated : bool) (items : list class_item)
| Seq (r1 r2 : regex)
| Alt (r1 r2 : regex)
| Star (r : regex)
| Group (i : nat) (r : regex)  (* capturing group number i *)
| Bol                          (* ^ *)
| Eol                          (* $ *)
| WordBoundary.                (* \b *)

(** Derived forms. *)
Fixpoint Lit (s : jsstring) : regex :=
  match s with
  | [] => Empty
  | c :: s' => Seq (Char c) (Lit s')
  end.

Definition Str (s : string) : regex := Lit (lit s).

Fixpoint alts (rs : list regex) : regex :=
  match rs with
  | [] => Empty
  | [r] => r
  | r :: rs' => Alt r (alts rs')
  end.

Fixpoint seqs (rs : list regex) : regex :=
  match rs with
  | [] => Empty
  | [r] => r
  | r :: rs' => Seq r (seqs rs')
  end.

Definition Plus (r : regex) : regex := Seq r (Star r).          (* r+ *)
Definition Opt (r : regex) : regex := Alt r Empty.              (* r? *)
Fixpoint Times (n : nat) (r : regex) : regex :=                 (* r{n} *)
  match n with
  | O => Empty
  | S n' => Seq r (Times n' r)
  end.
Definition AtLeast (n : nat) (r : regex) : regex :=             (* r{n,} *)
  Seq (Times n r) (Star r).
Fixpoint UpTo (n : nat) (r : regex) : regex :=                  (* r{0,n} *)
  match n with
  | O => Empty
  | S n' => Opt (Seq r (UpTo n' r))
  end.
Definition FromTo (n k : nat) (r : regex) : regex :=            (* r{n,k} *)
  Seq (Times n r) (UpTo (k - n) r).

Definition item_has (it : class_item) (c : ascii) : bool :=
  match it with
  | CChar d => Ascii.eqb c d
  | CRange lo hi => between (code lo) (code hi) (code c)
  | CWord => isWordChar c
  | CDigit => isDigit c
  | CSpace => isWhiteSpace c
  end.

Definition set_has (items : list class_item) (c : ascii) : bool :=
  existsb (fun it => item_has it c) items.

(** With the flag [i] a character [c] is in a set when some member of
    the set has the same canonical form; a member with the canonical form
    of [c] is [c] itself or its other case. *)
Definition set_has_ci (items : list class_item) (c : ascii) : bool :=
  (set_has items c || set_has items (canonicalize c)
   || set_has items (toLowerChar c))%bool.

Definition char_matches (ic : bool) (p c : ascii) : bool :=
  if ic then Ascii.eqb (canonicalize p) (canonicalize c) else Ascii.eqb p c.

Definition class_matches (ic : bool) (negated : bool)
           (items : list class_item) (c : ascii) : bool :=
  xorb negated (if ic then set_has_ci items c else set_has items c).

(** The matcher state: the input already passed over (latest character
    first), the input still ahead, and the captures made so far. *)
Record mstate : Type := MState {
  consumed : list ascii;
  remaining : list ascii;
  captures : list (nat * jsstring)
}.

Definition cont : Type := mstate -> option mstate.

Definition advance (p : ascii -> bool) (k : cont) (st : mstate) : option mstate :=
  match remaining st with
  | c :: rest =>
      if p c then k (MState (c :: consumed st) rest (captures st)) else None
  | [] => None
  end.

Definition isWordAt (s : list ascii) : bool :=
  match s with
  | c :: _ => isWordChar c
  | [] => false
  end.

Definition at_word_boundary (st : mstate) : bool :=
  negb (Bool.eqb (isWordAt (consumed st)) (isWordAt (remaining st))).

(** The text passed over between two states of one match. *)
Definition span (from to : mstate) : jsstring :=
  rev (firstn (length (consumed to) - length (consumed from)) (consumed to)).

Definition orelse (a : option mstate) (b : unit -> option mstate) : option mstate :=
  match a with
  | Some x => Some x
  | None => b tt
  end.

Section Matcher.

Variable ic : bool.   (* the flag i *)

Fixpoint m (r : regex) (k : cont) (st : mstate) {struct r} : option mstate :=
  match r with
  | Empty => k st
  | Char p => advance (char_matches ic p) k st
  | Class neg items => advance (class_matches ic neg items) k st
  | Seq r1 r2 => m r1 (fun st' => m r2 k st') st
  | Alt r1 r2 => orelse (m r1 k st) (fun _ => m r2 k st)
  | Star r1 =>
      (fix loop (fuel : nat) (st0 : mstate) {struct fuel} : option mstate :=
         match fuel with
         | O => k st0
         | S fuel' =>
             orelse
               (m r1 (fun st' =>
                        if Nat.eqb (length (remaining st')) (length (remaining st0))
                        then None            (* empty iteration *)
                        else loop fuel' st') st0)
               (fun _ => k st0)
         end) (length (remaining st)) st
  | Group i r1 =>
      m r1 (fun st' =>
              k (MState (consumed st') (remaining st')
                        ((i, span st st') :: captures st'))) st
  | Bol => match consumed st with [] => k st | _ :: _ => None end
  | Eol => match remaining st with [] => k st | _ :: _ => None end
  | WordBoundary => if at_word_boundary st then k st else None
  end.

(** One attempt at a given start position. *)
Definition match_at (r : regex) (before : list ascii) (rest : list ascii)
  : option mstate :=
  m r (fun st => Some st) (MState before rest []).

(** The result of a successful search, as [RegExp.prototype.exec] gives
    it: the text before the match, the match ([result[0]]), the text
    after it and the captures. *)
Record match_result : Type := MatchResult {
  before_match : jsstring;
  matched : jsstring;
  after_match : jsstring;
  groups : list (nat * jsstring)
}.

Fixpoint search (r : regex) (before rest : list ascii) : option match_result :=
  match match_at r before rest with
  | Some fin =>
      Some (MatchResult (rev before)
                        (span (MState before rest []) fin)
                        (remaining fin) (captures fin))
  | None =>
      match rest with
      | [] => None
      | c :: rest' => search r (c :: before) rest'
      end
  end.

Definition exec (r : regex) (s : jsstring) : option match_result :=
  search r [] s.

Definition test (r : regex) (s : jsstring) : bool :=
  match exec r s with Some _ => true | None => false end.

(** [s.replace(r, repl)] for a regex without the flag g. *)
Definition replace (r : regex) (repl : jsstring) (s : jsstring) : jsstring :=
  match exec r s with
  | Some res => before_match res ++ repl ++ after_match res
  | None => s
  end.

(** [s.replace(r, repl)] for a regex with the flag g: every match, left
    to right; after an empty match the next character is copied. *)
Fixpoint replace_from (fuel : nat) (r : regex) (repl : jsstring)
         (before rest : list ascii) : jsstring :=
  match fuel with
  | O => rest
  | S fuel' =>
      let skip :=
        match rest with
        | [] => []
        | c :: rest' => c :: replace_from fuel' r repl (c :: before) rest'
        end in
      match match_at r before rest with
      | Some fin =>
          if Nat.eqb (length (remaining fin)) (length rest)
          then repl ++ skip
          else repl ++ replace_from fuel' r repl (consumed fin) (remaining fin)
      | None => skip
      end
  end.

Definition replaceAll (r : regex) (repl : jsstring) (s : jsstring) : jsstring :=
  replace_from (S (length s)) r repl [] s.

End Matcher.

(** The capture of group [i], [result[i]]. *)
Definition group (i : nat) (res : match_result) : option jsstring :=
  match find (fun p => Nat.eqb (fst p) i) (groups res) with
  | Some p => Some (snd p)
  | None => None
  end.

(** Character classes of the source. *)
Definition cls (items : list class_item) : regex := Class false items.
Definition ncls (items : list class_item) : regex := Class true items.
Definition chars (s : string) : list class_item := map CChar (lit s).
Definition ws : regex := cls [CSpace].          (* \s *)
Definition digit : regex := cls [CDigit].       (* \d *)
Definition word : regex := cls [CWord].         (* \w *)

End RegExp.

(* ================================================================== *)
(** * The sanitize route ([src/app/api/sanitize/route.ts]) *)
(* ================================================================== *)

Module Route.

Import JS RegExp.

(** ** Rate limiting state *)

Record RateLimitState : Type := {
  lastRequestTime : Z;
  consecutiveErrors : N;
  backoffMs : Q;
  inCooldown : bool
}.

Definition rateLimitState : RateLimitState := {|
  lastRequestTime := 0;
  consecutiveErrors := 0;
  backoffMs := 1000;
  inCooldown := false
|}.

(** [a > b] on numbers. *)
Definition Qgtb (a b : Q) : bool := negb (Qle_bool a b).

(** [isRateLimited()]: the answer and the state it leaves; [now] is the
    value of [Date.now()]. *)
Definition isRateLimited (now : Z) (s : RateLimitState)
  : bool * RateLimitState :=
  if inCooldown s then
    if Qgtb (inject_Z (now - lastRequestTime s)%Z) (backoffMs s) then
      (false, {| lastRequestTime := lastRequestTime s;
                 consecutiveErrors := consecutiveErrors s;
                 backoffMs := backoffMs s;
                 inCooldown := false |})
    else (true, s)
  else (false, s).

(** [handleRateLimit()]: [rnd] is the value of [Math.random()], [now]
    the value of [Date.now()]. *)
Definition handleRateLimit (rnd : Q) (now : Z) (s : RateLimitState)
  : RateLimitState :=
  let jitter := ((1 # 2) + rnd)%Q in
  {| lastRequestTime := now;
     consecutiveErrors := (consecutiveErrors s + 1)%N;
     backoffMs := Qmin 30000 (backoffMs s * 2 * jitter)%Q;
     inCooldown := true |}.

(** [handleSuccessfulRequest()]. *)
Definition handleSuccessfulRequest (now : Z) (s : RateLimitState)
  : RateLimitState :=
  if N.ltb 0 (consecutiveErrors s) then
    {| lastRequestTime := now;
       consecutiveErrors := 0;
       backoffMs := 1000;
       inCooldown := inCooldown s |}
  else
    {| lastRequestTime := now;
       consecutiveErrors := consecutiveErrors s;
       backoffMs := backoffMs s;
       inCooldown := inCooldown s |}.

(** ** Text cleaning without the backend *)

(** /^(?:my name is|i am|i'm|call me|name is|my name|i'm called)\s*/i *)
Definition namePrefixes : regex :=
  seqs [Bol;
        alts [Str "my name is"; Str "i am"; Str "i'm"; Str "call me";
              Str "name is"; Str "my name"; Str "i'm called"];
        Star ws].

(** /^(?:this is|it's|it is|just call me)\s*/i *)
Definition namePrefixes2 : regex :=
  seqs [Bol;
        alts [Str "this is"; Str "it's"; Str "it is"; Str "just call me"];
        Star ws].

(** /[\w.-]+@[\w.-]+\.\w+/ *)
Definition emailToken : regex :=
  seqs [Plus (cls (CWord :: chars ".-")); Char "@";
        Plus (cls (CWord :: chars ".-")); Char "."; Plus word].

(** /^(?:my email is|email is|my email|email address is|you can reach me at|contact me at)\s*/i *)
Definition emailPrefixes : regex :=
  seqs [Bol;
        alts [Str "my email is"; Str "email is"; Str "my email";
              Str "email address is"; Str "you can reach me at";
              Str "contact me at"];
        Star ws].

(** /^(?:send mail to|send it to|it's)\s*/i *)
Definition emailPrefixes2 : regex :=
  seqs [Bol; alts [Str "send mail to"; Str "send it to"; Str "it's"]; Star ws].

(** [-.\s] *)
Definition phoneSep : regex := cls (chars "-." ++ [CSpace]).

(** \d{3}[-.\s]?\d{3}[-.\s]?\d{4}|\(\d{3}\)\s*\d{3}[-.\s]?\d{4}|\d{10} *)
Definition phoneShapes : regex :=
  alts [seqs [Times 3 digit; Opt phoneSep; Times 3 digit; Opt phoneSep;
              Times 4 digit];
        seqs [Char "("; Times 3 digit; Char ")"; Star ws; Times 3 digit;
              Opt phoneSep; Times 4 digit];
        Times 10 digit].

(** The pattern in its capturing group, as [basicTextCleaning] has it. *)
Definition phonePatternDirect : regex := Group 1 phoneShapes.

(** /^(?:my phone is|phone is|my phone number is|phone number is|call me at|reach me at)\s*/i *)
Definition phonePrefixes : regex :=
  seqs [Bol;
        alts [Str "my phone is"; Str "phone is"; Str "my phone number is";
              Str "phone number is"; Str "call me at"; Str "reach me at"];
        Star ws].

(** /^(?:you can reach me at|contact me on|my number is|number is)\s*/i *)
Definition phonePrefixes2 : regex :=
  seqs [Bol;
        alts [Str "you can reach me at"; Str "contact me on";
              Str "my number is"; Str "number is"];
        Star ws].

(** /[^\d\s\-+().]/g *)
Definition notPhoneChar : regex := ncls ([CDigit; CSpace] ++ chars "-+().").

(** /^(?:my address is|i live at|address is|location is|residence is|my home is)\s*/i *)
Definition addressPrefixes : regex :=
  seqs [Bol;
        alts [Str "my address is"; Str "i live at"; Str "address is";
              Str "location is"; Str "residence is"; Str "my home is"];
        Star ws].

(** /^(?:i'm at|you can find me at|find me at|i stay at|i'm living at)\s*/i *)
Definition addressPrefixes2 : regex :=
  seqs [Bol;
        alts [Str "i'm at"; Str "you can find me at"; Str "find me at";
              Str "i stay at"; Str "i'm living at"];
        Star ws].

Definition basicTextCleaning (text : jsstring) (field : jsstring) : jsstring :=
  let text := trim text in
  if JS.eqb field "name" then
    trim (replace true namePrefixes2 "" (replace true namePrefixes "" text))
  else if JS.eqb field "email" then
    match exec false emailToken text with
    | Some emailMatch => matched emailMatch
    | None =>
        trim (replace true emailPrefixes2 ""
                (replace true emailPrefixes "" text))
    end
  else if JS.eqb field "phone" then
    match exec false phonePatternDirect text with
    | Some directMatch => matched directMatch
    | None =>
        let phone :=
          trim (replace true phonePrefixes2 ""
                  (replace true phonePrefixes "" text)) in
        replaceAll false notPhoneChar "" phone
    end
  else if JS.eqb field "address" then
    trim (replace true addressPrefixes2 ""
            (replace true addressPrefixes "" text))
  else text.

(** ** Responses *)

(** [{ value, confidence }] of one field; the confidence may be absent
    in what the backend writes. *)
Record FieldJson : Type := {
  value : jsstring;
  confidence : option Q
}.

(** [{ value, confidence }] of the submit entry. *)
Record SubmitJson : Type := {
  submitValue : bool;
  submitConfidence : option Q
}.

(** The analysis object: the entries that the route and its client read. *)
Record Analysis : Type := {
  submit : option SubmitJson;
  name : option FieldJson;
  email : option FieldJson;
  phone : option FieldJson;
  address : option FieldJson;
  fromAI : option bool
}.

Inductive Body : Type :=
| ErrorBody (error : string)
| SanitizeBody (sanitizedText : jsstring) (fromAI : bool)
| AnalysisBody (a : Analysis).

(** [NextResponse.json(body, { status })]. *)
Record Response : Type := {
  status : Z;
  body : Body
}.

Definition json (b : Body) : Response := {| status := 200; body := b |}.

(** ** The regex fallback of the analysis *)

Definition submitWords : regex :=
  alts [Str "submit"; Str "send"; Str "done"; Str "finish"; Str "complete"].

(** /\b(submit|send|done|finish|complete)\b/i *)
Definition submitPattern : regex :=
  seqs [WordBoundary; Group 1 submitWords; WordBoundary].

(** /\b(?:my name is|i am|i'm|call me|name is|the name is|name|this is)\s+([^,.?!]+)/i *)
Definition namePattern : regex :=
  seqs [WordBoundary;
        alts [Str "my name is"; Str "i am"; Str "i'm"; Str "call me";
              Str "name is"; Str "the name is"; Str "name"; Str "this is"];
        Plus ws;
        Group 1 (Plus (ncls (chars ",.?!")))].

Definition alnum : list class_item :=
  [CRange "a" "z"; CRange "A" "Z"; CRange "0" "9"].

(** /\b[a-zA-Z0-9._%+-]+@[a-zA-Z0-9.-]+\.[a-zA-Z]{2,}\b/i *)
Definition emailPattern : regex :=
  seqs [WordBoundary;
        Plus (cls (alnum ++ chars "._%+-")); Char "@";
        Plus (cls (alnum ++ chars ".-")); Char ".";
        AtLeast 2 (cls [CRange "a" "z"; CRange "A" "Z"]);
        WordBoundary].

(** The phone pattern between two \b, without the flag i. *)
Definition phonePattern : regex :=
  seqs [WordBoundary; Group 1 phoneShapes; WordBoundary].

(** /\b(?:my address is|address is|the address is|my address|address|i live at|i'm at|i am at|location is|my location is)\s+([^.?!]+)/i *)
Definition addressPattern : regex :=
  seqs [WordBoundary;
        alts [Str "my address is"; Str "address is"; Str "the address is";
              Str "my address"; Str "address"; Str "i live at"; Str "i'm at";
              Str "i am at"; Str "location is"; Str "my location is"];
        Plus ws;
        Group 1 (Plus (ncls (chars ".?!")))].

(** [m && m[1]], then [{ value: m[1].trim(), confidence }]. *)
Definition capturedField (conf : Q) (res : option match_result)
  : option FieldJson :=
  match res with
  | Some r =>
      match group 1 r with
      | Some g =>
          if truthy g then Some {| value := trim g; confidence := Some conf |}
          else None
      | None => None
      end
  | None => None
  end.

(** [m], then [{ value: m[0], confidence }]. *)
Definition matchedField (conf : Q) (res : option match_result)
  : option FieldJson :=
  match res with
  | Some r => Some {| value := matched r; confidence := Some conf |}
  | None => None
  end.

Definition extractedFields (text : jsstring) : Analysis := {|
  submit :=
    if test true submitPattern text
    then Some {| submitValue := true; submitConfidence := Some (9 # 10) |}
    else None;
  name := capturedField (8 # 10) (exec true namePattern text);
  email := matchedField (9 # 10) (exec true emailPattern text);
  phone := matchedField (9 # 10) (exec false phonePattern text);
  address := capturedField (7 # 10) (exec true addressPattern text);
  fromAI := Some false
|}.

Definition processWithRegex (text : jsstring) : Response :=
  json (AnalysisBody (extractedFields text)).

(** ** The handlers *)

(** The parsed request body: [text] and [field] are [None] when the
    entry is absent or is not a string. *)
Inductive Request : Type :=
| Unparsable                                   (* request.json() rejects *)
| Parsed (text : option jsstring) (field : option jsstring).

(** What the call of the generative-language backend came to. *)
Inductive RemoteBody : Type :=
| Unreadable                        (* response.json() rejects *)
| NoText                            (* no candidates[0].content.parts[0].text *)
| Text (t : jsstring).

Inductive RemoteOutcome : Type :=
| FetchRejected                     (* fetch rejects: transport error *)
| Replied (status : Z) (b : RemoteBody).

(** [response.ok]. *)
Definition ok (status : Z) : bool := ((200 <=? status) && (status <=? 299))%Z.

(** What a handler reads from its surroundings: the API key of the
    process, [Date.now()] inside [isRateLimited], [Date.now()] and
    [Math.random()] when the remote call has completed. *)
Record Env : Type := {
  apiKey : option jsstring;
  checkTime : Z;
  doneTime : Z;
  random : Q
}.

Definition configured (env : Env) : bool :=
  match apiKey env with Some k => truthy k | None => false end.

Definition validText (text : option jsstring) : option jsstring :=
  match text with
  | Some t => if truthy t then Some t else None
  | None => None
  end.

Definition fieldNames : list jsstring :=
  [lit "name"; lit "email"; lit "phone"; lit "address"].

Definition validField (field : option jsstring) : option jsstring :=
  match field with
  | Some f => if existsb (JS.eqb f) fieldNames then Some f else None
  | None => None
  end.

Definition errorResponse (st : Z) (msg : string) : Response :=
  {| status := st; body := ErrorBody msg |}.

Definition POST (env : Env) (remote : RemoteOutcome) (request : Request)
           (s : RateLimitState) : Response * RateLimitState :=
  match request with
  | Unparsable => (errorResponse 500 "Failed to process text", s)
  | Parsed text field =>
      match validText text with
      | None => (errorResponse 400 "Invalid text input", s)
      | Some text =>
          match validField field with
          | None => (errorResponse 400 "Invalid field type", s)
          | Some field =>
              let basicResult :=
                json (SanitizeBody (basicTextCleaning text field) false) in
              if configured env then
                let (limited, s1) := isRateLimited (checkTime env) s in
                if limited then (basicResult, s1)
                else
                  match remote with
                  | FetchRejected => (basicResult, s1)
                  | Replied st b =>
                      if negb (ok st) then
                        if (st =? 429)%Z
                        then (basicResult,
                              handleRateLimit (random env) (doneTime env) s1)
                        else (basicResult, s1)
                      else
                        let s2 := handleSuccessfulRequest (doneTime env) s1 in
                        match b with
                        | Unreadable => (basicResult, s2)
                        | NoText => (basicResult, s2)
                        | Text t =>
                            let sanitizedText :=
                              if truthy t then trim t else [] in
                            if truthy sanitizedText
                            then (json (SanitizeBody sanitizedText true), s2)
                            else (basicResult, s2)
                        end
                  end
              else (basicResult, s)
          end
      end
  end.

(** The code fences that the backend may put around its JSON:
    /```json\s*|\s*```/g *)
Definition codeFences : regex :=
  alts [seqs [Str "```json"; Star ws]; seqs [Star ws; Str "```"]].

Definition submitDetected : Analysis := {|
  submit := Some {| submitValue := true; submitConfidence := Some (95 # 100) |};
  name := None; email := None; phone := None; address := None;
  fromAI := Some false
|}.

(** [{ ...parsedResult, fromAI: true }]. *)
Definition markFromAI (a : Analysis) : Analysis := {|
  submit := submit a; name := name a; email := email a; phone := phone a;
  address := address a;
  fromAI := Some true
|}.

Section Analyze.

(** [JSON.parse], read at the entries of [Analysis]; [None] when it
    throws. *)
Variable JSON_parse : jsstring -> option Analysis.

Definition PATCH (env : Env) (remote : RemoteOutcome) (request : Request)
           (s : RateLimitState) : Response * RateLimitState :=
  match request with
  | Unparsable => (errorResponse 500 "Failed to analyze text", s)
  | Parsed text _ =>
      match validText text with
      | None => (errorResponse 400 "Invalid text input", s)
      | Some text =>
          if test true submitPattern text then
            (json (AnalysisBody submitDetected), s)
          else if configured env then
            let (limited, s1) := isRateLimited (checkTime env) s in
            if limited then (processWithRegex text, s1)
            else
              match remote with
              | FetchRejected => (processWithRegex text, s1)
              | Replied st b =>
                  if negb (ok st) then
                    if (st =? 429)%Z
                    then (processWithRegex text,
                          handleRateLimit (random env) (doneTime env) s1)
                    else (processWithRegex text, s1)
                  else
                    let s2 := handleSuccessfulRequest (doneTime env) s1 in
                    match b with
                    | Unreadable => (processWithRegex text, s2)
                    | NoText => (processWithRegex text, s2)
                    | Text t =>
                        if truthy t then
                          let analysisResult :=
                            replaceAll false codeFences "" (trim t) in
                          match JSON_parse analysisResult with
                          | Some parsedResult =>
                              (json (AnalysisBody (markFromAI parsedResult)), s2)
                          | None => (processWithRegex text, s2)
                          end
                        else (processWithRegex text, s2)
                    end
              end
          else (processWithRegex text, s)
      end
  end.

End Analyze.

End Route.

(* ================================================================== *)
(** * The voice input component ([src/app/components/VoiceInput.tsx]) *)
(* ================================================================== *)

Module VoiceInput.

Import JS RegExp.

Inductive FieldType : Type := Name | Email | Phone | Address.

Record DetectedField : Type := {
  field : FieldType;
  value : jsstring;
  confidence : Q
}.

Inductive IntentType : Type := provide_info | submit | clear | unknown.

Record VoiceUnderstanding : Type := {
  intent : IntentType;
  detectedFields : list DetectedField;
  originalText : jsstring
}.

Definition isUnknown (i : IntentType) : bool :=
  match i with unknown => true | _ => false end.

(** /\b(submit|send|done)\b/i *)
Definition submitPattern : regex :=
  seqs [WordBoundary; Group 1 (alts [Str "submit"; Str "send"; Str "done"]);
        WordBoundary].

(** /\b(clear|reset)\b/i *)
Definition clearPattern : regex :=
  seqs [WordBoundary; Group 1 (alts [Str "clear"; Str "reset"]); WordBoundary].

Definition analyzeVoiceInput (text : jsstring) : VoiceUnderstanding :=
  let normalizedText := trim (toLowerCase text) in
  if test true submitPattern normalizedText then
    {| intent := submit; detectedFields := []; originalText := text |}
  else if test true clearPattern normalizedText then
    {| intent := clear; detectedFields := []; originalText := text |}
  else
    {| intent := unknown; detectedFields := []; originalText := text |}.

(** The state of the component, with the [listening] flag that its
    parent owns and that [setListening] writes. *)
Record State : Type := {
  listening : bool;
  error : string;
  processing : bool;
  browserSupport : bool;
  interimResult : jsstring;
  rateLimitHit : bool
}.

Definition setProcessing (b : bool) (st : State) : State :=
  {| listening := listening st; error := error st; processing := b;
     browserSupport := browserSupport st; interimResult := interimResult st;
     rateLimitHit := rateLimitHit st |}.

Definition setRateLimitHit (b : bool) (st : State) : State :=
  {| listening := listening st; error := error st; processing := processing st;
     browserSupport := browserSupport st; interimResult := interimResult st;
     rateLimitHit := b |}.

Definition setError (e : string) (st : State) : State :=
  {| listening := listening st; error := e; processing := processing st;
     browserSupport := browserSupport st; interimResult := interimResult st;
     rateLimitHit := rateLimitHit st |}.

Definition setListening (b : bool) (st : State) : State :=
  {| listening := b; error := error st; processing := processing st;
     browserSupport := browserSupport st; interimResult := interimResult st;
     rateLimitHit := rateLimitHit st |}.

(** What [fetch('/api/sanitize', PATCH)] came to, as the component sees
    it: [NoResponse] when the promise rejected or the request was aborted
    after 5 seconds (the [catch] turns both into [null]); otherwise
    [response.ok] and the parsed body, [None] when [response.json()]
    rejects. *)
Inductive Fetched : Type :=
| NoResponse
| Answered (ok : bool) (data : option Route.Analysis).

(** [data.submit && data.submit.value === true] *)
Definition submitDetected (data : Route.Analysis) : bool :=
  match Route.submit data with
  | Some sj => Route.submitValue sj
  | None => false
  end.

Definition entry (data : Route.Analysis) (f : FieldType) : option Route.FieldJson :=
  match f with
  | Name => Route.name data
  | Email => Route.email data
  | Phone => Route.phone data
  | Address => Route.address data
  end.

Definition present {A : Type} (o : option A) : bool :=
  match o with Some _ => true | None => false end.

(** [c || 0.8] *)
Definition confidenceOr (c : option Q) (dflt : Q) : Q :=
  match c with
  | Some q => if Qeq_bool q 0 then dflt else q
  | None => dflt
  end.

(** The loop over ['name', 'email', 'phone', 'address']. *)
Definition collectFields (data : Route.Analysis) : list DetectedField :=
  flat_map
    (fun f =>
       match entry data f with
       | Some fj =>
           [{| field := f; value := Route.value fj;
               confidence := confidenceOr (Route.confidence fj) (8 # 10) |}]
       | None => []
       end)
    [Name; Email; Phone; Address].

(** [processVoiceInput]: the calls of [onVoiceInput], in order, and the
    state of the component when the function has finished. *)
Definition processVoiceInput (useAI : bool) (fetched : Fetched)
           (text : jsstring) (st : State)
  : list VoiceUnderstanding * State :=
  if negb (truthy (trim text)) then ([], st)
  else
    let st0 := setRateLimitHit false (setProcessing true st) in
    let basicIntent := analyzeVoiceInput text in
    let basicOnly := ([basicIntent], setProcessing false st0) in
    if useAI then
      match fetched with
      | Answered true (Some data) =>
          let st1 :=
            match Route.fromAI data with
            | Some false => setRateLimitHit true st0
            | _ => st0
            end in
          let fallthrough :=
            (* if (data) *)
            if negb (isUnknown (intent basicIntent))
            then ([basicIntent], setProcessing false st1)
            else ([{| intent := unknown; detectedFields := [];
                      originalText := text |}],
                  setProcessing false st1) in
          if submitDetected data then
            ([{| intent := submit; detectedFields := []; originalText := text |}],
             setProcessing false st1)
          else if (present (Route.name data) || present (Route.email data)
                   || present (Route.phone data) || present (Route.address data))%bool
          then
            let fields := collectFields data in
            if Nat.ltb 0 (length fields) then
              ([{| intent := provide_info; detectedFields := fields;
                   originalText := text |}],
               setProcessing false st1)
            else fallthrough
          else fallthrough
      | _ => basicOnly
      end
    else basicOnly.

(** [recognitionInstance.onerror] for [event.error = e]. *)
Definition onerror (e : string) (st : State) : State :=
  let st1 :=
    if String.eqb e "not-allowed" then
      setError "Microphone access denied. Please allow microphone access and try again." st
    else if String.eqb e "no-speech" then
      setError "No speech detected. Please try speaking again." st
    else if String.eqb e "network" then
      setError "Network error. Check your internet connection and try again." st
    else if String.eqb e "aborted" then st
    else setError ("Error: " ++ e ++ ". Please try again.") st in
  if negb (String.eqb e "aborted") then setListening false st1 else st1.

(** ** The handlers of the recognition device *)

Definition setInterimResult (t : jsstring) (st : State) : State :=
  {| listening := listening st; error := error st; processing := processing st;
     browserSupport := browserSupport st; interimResult := t;
     rateLimitHit := rateLimitHit st |}.

(** /\s+/g *)
Definition spaces : regex := Plus ws.

(** /^\s*hey\s+(siri|alexa|computer)\s*/i *)
Definition wakeWords : regex :=
  seqs [Bol; Star ws; Str "hey"; Plus ws;
        Group 1 (alts [Str "siri"; Str "alexa"; Str "computer"]); Star ws].

(** The cleaning of a final transcript in [onresult]. *)
Definition cleanTranscript (transcript : jsstring) : jsstring :=
  trim (replace true wakeWords ""
          (replaceAll false spaces " " (trim transcript))).

(** A [SpeechRecognitionResult]: the transcripts of its alternatives,
    in order, and [isFinal]. *)
Record SpeechRecognitionResult : Type := {
  alternatives : list jsstring;
  isFinal : bool
}.

(** [recognitionInstance.onresult] on [event.results]: the text that
    is handed to [processVoiceInput], if any, and the state. *)
Definition onresult (results : list SpeechRecognitionResult) (st : State)
  : option jsstring * State :=
  match rev results with
  | [] => (None, st)
  | currentResult :: _ =>
      match alternatives currentResult with
      | [] => (None, st)
      | transcript :: _ =>
          if negb (truthy transcript) then (None, st)
          else if isFinal currentResult then
            let cleanedTranscript := cleanTranscript transcript in
            if truthy cleanedTranscript
            then (Some cleanedTranscript, setInterimResult [] st)
            else (None, st)
          else (None, setInterimResult transcript st)
      end
  end.

(** [toggleListening], the click on the microphone button. *)
Definition toggleListening (st : State) : State :=
  if negb (browserSupport st) then st
  else if processing st then st
  else setListening (negb (listening st)) (setError "" st).

End VoiceInput.

(* ================================================================== *)
(** * The form controller of the home page ([Home]) *)
(* ================================================================== *)

Module Page.

Import JS RegExp.
Import VoiceInput.

Record FormData : Type := {
  name : jsstring;
  email : jsstring;
  phone : jsstring;
  address : jsstring
}.

(** [FormErrors]: one optional message per key of [FormData]. *)
Record FormErrors : Type := {
  nameError : option string;
  emailError : option string;
  phoneError : option string;
  addressError : option string
}.

Definition emptyForm : FormData :=
  {| name := []; email := []; phone := []; address := [] |}.

Definition noErrors : FormErrors :=
  {| nameError := None; emailError := None; phoneError := None;
     addressError := None |}.

(** [{ ...prev, [field]: value }] *)
Definition withField (f : FieldType) (v : jsstring) (d : FormData) : FormData :=
  match f with
  | Name => {| name := v; email := email d; phone := phone d; address := address d |}
  | Email => {| name := name d; email := v; phone := phone d; address := address d |}
  | Phone => {| name := name d; email := email d; phone := v; address := address d |}
  | Address => {| name := name d; email := email d; phone := phone d; address := v |}
  end.

Definition errorOf (f : FieldType) (e : FormErrors) : option string :=
  match f with
  | Name => nameError e
  | Email => emailError e
  | Phone => phoneError e
  | Address => addressError e
  end.

Definition withError (f : FieldType) (m : option string) (e : FormErrors)
  : FormErrors :=
  match f with
  | Name => {| nameError := m; emailError := emailError e;
               phoneError := phoneError e; addressError := addressError e |}
  | Email => {| nameError := nameError e; emailError := m;
                phoneError := phoneError e; addressError := addressError e |}
  | Phone => {| nameError := nameError e; emailError := emailError e;
                phoneError := m; addressError := addressError e |}
  | Address => {| nameError := nameError e; emailError := emailError e;
                  phoneError := phoneError e; addressError := m |}
  end.

(** The four input elements of the document: the [value] of the element
    with that id, [None] when there is no such element. *)
Record Inputs : Type := {
  nameInput : option jsstring;
  emailInput : option jsstring;
  phoneInput : option jsstring;
  addressInput : option jsstring
}.

(** A callback handed to [setTimeout], with its delay. *)
Inductive Timer : Type :=
| Navigate (delay : Z) (route : string)                   (* router.push *)
| FocusInput (delay : Z) (f : FieldType) (v : jsstring).  (* focus and fill *)

(** The state of the page and what the handlers reach beyond it.  An
    item of [localStorage] under the key [formData] holds the JSON text
    of a record; the record stands for its text.  [storageWritable] is
    false when [localStorage.setItem] throws. *)
Record World : Type := {
  formData : FormData;
  formErrors : FormErrors;
  activeField : option FieldType;
  error : string;
  lastSpeech : jsstring;
  inputs : Inputs;
  storageWritable : bool;
  localStorage : list (string * FormData);
  timers : list Timer
}.

Definition setFormData (d : FormData) (w : World) : World :=
  {| formData := d; formErrors := formErrors w; activeField := activeField w;
     error := error w; lastSpeech := lastSpeech w; inputs := inputs w;
     storageWritable := storageWritable w; localStorage := localStorage w;
     timers := timers w |}.

Definition setFormErrors (e : FormErrors) (w : World) : World :=
  {| formData := formData w; formErrors := e; activeField := activeField w;
     error := error w; lastSpeech := lastSpeech w; inputs := inputs w;
     storageWritable := storageWritable w; localStorage := localStorage w;
     timers := timers w |}.

Definition setActiveField (f : option FieldType) (w : World) : World :=
  {| formData := formData w; formErrors := formErrors w; activeField := f;
     error := error w; lastSpeech := lastSpeech w; inputs := inputs w;
     storageWritable := storageWritable w; localStorage := localStorage w;
     timers := timers w |}.

Definition setError (m : string) (w : World) : World :=
  {| formData := formData w; formErrors := formErrors w;
     activeField := activeField w;
     error := m; lastSpeech := lastSpeech w; inputs := inputs w;
     storageWritable := storageWritable w; localStorage := localStorage w;
     timers := timers w |}.

Definition setLastSpeech (t : jsstring) (w : World) : World :=
  {| formData := formData w; formErrors := formErrors w;
     activeField := activeField w;
     error := error w; lastSpeech := t; inputs := inputs w;
     storageWritable := storageWritable w; localStorage := localStorage w;
     timers := timers w |}.

(** [localStorage.setItem(key, JSON.stringify(d))] *)
Definition setItem (key : string) (d : FormData) (w : World) : World :=
  {| formData := formData w; formErrors := formErrors w;
     activeField := activeField w;
     error := error w; lastSpeech := lastSpeech w; inputs := inputs w;
     storageWritable := storageWritable w;
     localStorage :=
       (key, d) :: filter (fun kv => negb (String.eqb (fst kv) key))
                          (localStorage w);
     timers := timers w |}.

Definition setTimeout (t : Timer) (w : World) : World :=
  {| formData := formData w; formErrors := formErrors w;
     activeField := activeField w;
     error := error w; lastSpeech := lastSpeech w; inputs := inputs w;
     storageWritable := storageWritable w; localStorage := localStorage w;
     timers := timers w ++ [t] |}.

(** [x?.value || ''] *)
Definition valueOr (x : option jsstring) : jsstring :=
  match x with Some v => v | None => [] end.

(** /^[^\s@]+@[^\s@]+\.[^\s@]+$/ *)
Definition emailRegex : regex :=
  seqs [Bol; Plus (ncls [CSpace; CChar "@"]); Char "@";
        Plus (ncls [CSpace; CChar "@"]); Char ".";
        Plus (ncls [CSpace; CChar "@"]); Eol].

Definition isValidEmail (email : jsstring) : bool := test false emailRegex email.

(** /^[\d\s()+-.]{10,15}$/ : the class holds the range from + to . *)
Definition phoneRegex : regex :=
  seqs [Bol;
        FromTo 10 15 (cls [CDigit; CSpace; CChar "("; CChar ")"; CRange "+" "."]);
        Eol].

Definition isValidPhone (phone : jsstring) : bool := test false phoneRegex phone.

Definition dquote : string := String (ascii_of_nat 34) EmptyString.

Definition saySubmit : string :=
  "Say " ++ dquote ++ "submit" ++ dquote ++ " when you're ready to submit the form.".

Definition notUnderstood : string :=
  "I didn't understand that. Please try a phrase like " ++ dquote
  ++ "My name is..." ++ dquote ++ " or say " ++ dquote ++ "submit" ++ dquote
  ++ " when ready.".

(** [checkFormProgress] reads the [formData] of the render that made the
    handler. *)
Definition checkFormProgress (rendered : World) (w : World) : World :=
  if (truthy (name (formData rendered)) || truthy (email (formData rendered))
      || truthy (phone (formData rendered))
      || truthy (address (formData rendered)))%bool
  then setError saySubmit w else w.

(** [handleFieldUpdate]; [formErrors[field]] is read from the render
    that made the handler, the updater functions work on the latest
    state. *)
Definition handleFieldUpdate (rendered : World) (f : FieldType) (v : jsstring)
           (w : World) : World :=
  let w1 := setFormData (withField f v (formData w)) w in
  let w2 := setActiveField (Some f) w1 in
  let w3 :=
    if present (errorOf f (formErrors rendered))
    then setFormErrors (withError f None (formErrors w2)) w2 else w2 in
  let w4 :=
    match f with
    | Email =>
        if (truthy v && negb (isValidEmail v))%bool
        then setFormErrors
               (withError Email (Some "Please enter a valid email address")
                          (formErrors w3)) w3
        else w3
    | Phone =>
        if (truthy v && negb (isValidPhone v))%bool
        then setFormErrors
               (withError Phone (Some "Please enter a valid phone number")
                          (formErrors w3)) w3
        else w3
    | _ => w3
    end in
  let w5 := setTimeout (FocusInput 100 f v) w4 in
  checkFormProgress rendered w5.

Definition handleClearForm (w : World) : World :=
  setError "Form has been cleared. You can start over."
    (setActiveField None (setFormErrors noErrors (setFormData emptyForm w))).

(** [[...fields].sort((a, b) => b.confidence - a.confidence)]: a stable
    sort, highest confidence first. *)
Fixpoint insertByConfidence (x : DetectedField) (l : list DetectedField)
  : list DetectedField :=
  match l with
  | [] => [x]
  | y :: l' =>
      if Route.Qgtb (confidence y) (confidence x)
      then y :: insertByConfidence x l'
      else x :: l
  end.

Definition sortByConfidence (l : list DetectedField) : list DetectedField :=
  fold_right insertByConfidence [] l.

Definition handleVoiceInput (understanding : VoiceUnderstanding) (w : World)
  : World :=
  let w0 := setError "" (setLastSpeech (originalText understanding) w) in
  match intent understanding with
  | submit =>
      let submissionData := {|
        name := trim (valueOr (nameInput (inputs w0)));
        email := trim (valueOr (emailInput (inputs w0)));
        phone := trim (valueOr (phoneInput (inputs w0)));
        address := trim (valueOr (addressInput (inputs w0)))
      |} in
      let hasAnyData :=
        existsb truthy [name submissionData; email submissionData;
                        phone submissionData; address submissionData] in
      if negb hasAnyData then
        setError "Please provide some information before submitting." w0
      else if storageWritable w0 then
        setTimeout (Navigate 500 "/confirmation")
                   (setItem "formData" submissionData w0)
      else setError "Failed to submit the form. Please try again." w0
  | clear => handleClearForm w0
  | provide_info =>
      if Nat.ltb 0 (length (detectedFields understanding)) then
        let w1 :=
          fold_left
            (fun acc fld =>
               if truthy (value fld)
               then handleFieldUpdate w (field fld) (value fld) acc
               else acc)
            (detectedFields understanding) w0 in
        match sortByConfidence (detectedFields understanding) with
        | highestConfidenceField :: _ =>
            setActiveField (Some (field highestConfidenceField)) w1
        | [] => w1
        end
      else
        setError "No specific fields were detected in your speech. Please try again with clearer details." w0
  | unknown => setError notUnderstood w0
  end.

(** ** The other handlers of the page *)

(** [localStorage.getItem(key)] *)
Definition getItem (key : string) (w : World) : option FormData :=
  match find (fun kv => String.eqb (fst kv) key) (localStorage w) with
  | Some kv => Some (snd kv)
  | None => None
  end.

(** [handleSubmit], the submit button of the form: the tracked form
    data, trimmed. *)
Definition handleSubmit (w : World) : World :=
  let submissionData := {|
    name := trim (name (formData w));
    email := trim (email (formData w));
    phone := trim (phone (formData w));
    address := trim (address (formData w))
  |} in
  if storageWritable w then
    setTimeout (Navigate 500 "/confirmation")
               (setItem "formData" submissionData w)
  else setError "Failed to submit the form. Please try again." w.

(** [handleInputChange] for the input named [f]. *)
Definition handleInputChange (f : FieldType) (v : jsstring) (w : World) : World :=
  let w1 := setFormData (withField f v (formData w)) w in
  if present (errorOf f (formErrors w))
  then setFormErrors (withError f None (formErrors w)) w1
  else w1.

(** ** The availability of the backend *)

Inductive ApiStatus : Type := checking | available | unavailable | rate_limited.

(** What the probe [fetch('/api/sanitize', POST)] came to: no usable
    response (the promise rejected, the 3 seconds ran out, or the body
    could not be read), or [response.ok] and [data.fromAI]. *)
Inductive Probe : Type :=
| ProbeFailed
| ProbeAnswered (ok : bool) (fromAI : option bool).

(** The status that [checkApiStatus] ends with. *)
Definition checkApiStatus (p : Probe) : ApiStatus :=
  match p with
  | ProbeAnswered true (Some false) => rate_limited
  | ProbeAnswered true _ => available
  | _ => unavailable
  end.

(** The text and the field of the probe. *)
Definition probeRequest : Route.Request :=
  Route.Parsed (Some (lit "test")) (Some (lit "name")).

Definition probeOf (r : Route.Response) : Probe :=
  ProbeAnswered (Route.ok (Route.status r))
    (match Route.body r with
     | Route.SanitizeBody _ ai => Some ai
     | Route.AnalysisBody a => Route.fromAI a
     | Route.ErrorBody _ => None
     end).

(** The AI switch of the page and the item [wasApiUnavailable] of
    [localStorage]. *)
Record AiSwitch : Type := {
  useAI : bool;
  wasApiUnavailable : option string
}.

(** The effect that runs when [apiStatus] changes. *)
Definition onApiStatus (apiStatus : ApiStatus) (a : AiSwitch) : AiSwitch :=
  match apiStatus with
  | unavailable => {| useAI := false; wasApiUnavailable := Some "true" |}
  | available =>
      match wasApiUnavailable a with
      | Some flag =>
          if String.eqb flag "true"
          then {| useAI := true; wasApiUnavailable := None |}
          else a
      | None => a
      end
  | _ => a
  end.

(** The [onChange] of the AI checkbox. *)
Definition toggleUseAI (apiStatus : ApiStatus) (a : AiSwitch) : AiSwitch :=
  {| useAI := match apiStatus with
              | unavailable => false
              | _ => negb (useAI a)
              end;
     wasApiUnavailable := wasApiUnavailable a |}.

End Page.

(* ================================================================== *)
(** * The confirmation page ([src/app/confirmation/page.tsx]) *)
(* ================================================================== *)

Module Confirmation.

Import JS.

Record State : Type := {
  formData : option Page.FormData;
  loading : bool;
  error : option string
}.

Definition initial : State :=
  {| formData := None; loading := true; error := None |}.

(** Some value is a string that is not blank. *)
Definition hasData (d : Page.FormData) : bool :=
  existsb (fun v => truthy (trim v))
          [Page.name d; Page.email d; Page.phone d; Page.address d].

(** [retrieveFormData] on the item [formData] of [localStorage]; the
    item holds a record, so the branches for a text that does not parse
    or is not an object have no input here. *)
Definition retrieveFormData (savedData : option Page.FormData) (st : State)
  : State :=
  match savedData with
  | None =>
      {| formData := formData st; loading := false;
         error := Some "No submission data found" |}
  | Some parsedData =>
      if hasData parsedData then
        {| formData := Some parsedData; loading := false; error := error st |}
      else
        {| formData := formData st; loading := false;
           error := Some "No information was provided in the submission" |}
  end.

(** What the page shows. *)
Inductive View : Type :=
| Skeleton
| ErrorBox (message : string)
| NoInformation
| Received (shown : list (string * jsstring)).

Definition row (label : string) (v : jsstring) : list (string * jsstring) :=
  if truthy v then [(label, v)] else [].

Definition render (st : State) : View :=
  if loading st then Skeleton
  else
    match error st with
    | Some (String c e) => ErrorBox (String c e)
    | _ =>
        match formData st with
        | None => NoInformation
        | Some d =>
            if forallb (fun v => negb (truthy v))
                       [Page.name d; Page.email d; Page.phone d; Page.address d]
            then NoInformation
            else Received (row "Name" (Page.name d) ++ row "Email" (Page.email d)
                           ++ row "Phone" (Page.phone d)
                           ++ row "Address" (Page.address d))
        end
    end.

(** The page after its first effect, on the storage that the home page
    left. *)
Definition open (w : Page.World) : View :=
  render (retrieveFormData (Page.getItem "formData" w) initial).

End Confirmation.

(* ================================================================== *)
(** * The pipeline: the component in front of the route *)
(* ================================================================== *)

Module Pipeline.

Import JS RegExp.
Import VoiceInput.

(** What becomes of the request that the component sends to the route:
    it never arrives; it arrives and the route runs, but the answer is
    lost or comes after the 5 seconds of the component; or the answer
    arrives. *)
Inductive Delivery : Type := Lost | TimedOut | Delivered.

Definition noEntries (ai : option bool) : Route.Analysis := {|
  Route.submit := None; Route.name := None; Route.email := None;
  Route.phone := None; Route.address := None; Route.fromAI := ai
|}.

(** The body of a response, read at the entries of an analysis. *)
Definition analysisOf (b : Route.Body) : Route.Analysis :=
  match b with
  | Route.AnalysisBody a => a
  | Route.ErrorBody _ => noEntries None
  | Route.SanitizeBody _ ai => noEntries (Some ai)
  end.

Definition asFetched (r : Route.Response) : Fetched :=
  Answered (Route.ok (Route.status r)) (Some (analysisOf (Route.body r))).

(** One final utterance: the calls of [onVoiceInput], the state of the
    component and the rate limiting state of the route afterwards. *)
Definition run (JSON_parse : jsstring -> option Route.Analysis)
           (useAI : bool) (delivery : Delivery)
           (env : Route.Env) (remote : Route.RemoteOutcome)
           (text : jsstring) (st : State) (srv : Route.RateLimitState)
  : list VoiceUnderstanding * State * Route.RateLimitState :=
  if (useAI && truthy (trim text))%bool then
    match delivery with
    | Lost => (processVoiceInput true NoResponse text st, srv)
    | TimedOut =>
        let (_, srv') :=
          Route.PATCH JSON_parse env remote (Route.Parsed (Some text) None) srv in
        (processVoiceInput true NoResponse text st, srv')
    | Delivered =>
        let (response, srv') :=
          Route.PATCH JSON_parse env remote (Route.Parsed (Some text) None) srv in
        (processVoiceInput true (asFetched response) text st, srv')
    end
  else (processVoiceInput useAI NoResponse text st, srv).

Definition understandings
           (r : list VoiceUnderstanding * State * Route.RateLimitState)
  : list VoiceUnderstanding := fst (fst r).

End Pipeline.

(* ================================================================== *)
(** * Notions of the specification *)
(* ================================================================== *)

Module Spec.

Import JS Route.

(** A call of the rate limit controller. *)
Inductive Call : Type :=
| IsRateLimited (now : Z)
| RecordFailure (rnd : Q) (now : Z)
| RecordSuccess (now : Z).

Definition call (c : Call) (s : Route.RateLimitState) : Route.RateLimitState :=
  match c with
  | IsRateLimited now => snd (Route.isRateLimited now s)
  | RecordFailure rnd now => Route.handleRateLimit rnd now s
  | RecordSuccess now => Route.handleSuccessfulRequest now s
  end.

Definition calls (cs : list Call) (s : Route.RateLimitState)
  : Route.RateLimitState :=
  fold_left (fun acc c => call c acc) cs s.

(** [Math.random()] is in [0, 1), so the jitter is in [0.5, 1.5). *)
Definition validCall (c : Call) : Prop :=
  match c with
  | RecordFailure rnd _ => (0 <= rnd)%Q /\ (rnd < 1)%Q
  | _ => True
  end.

(** The invariant of the controller. *)
Definition backoffInRange (s : Route.RateLimitState) : Prop :=
  (1000 <= Route.backoffMs s)%Q /\ (Route.backoffMs s <= 30000)%Q.

Definition sampleCalls : list Call :=
  [RecordFailure (9 # 10) 5; RecordFailure (99 # 100) 10; IsRateLimited 20;
   RecordFailure (1 # 2) 30; RecordFailure (3 # 4) 40; RecordFailure 0 50;
   RecordFailure (9 # 10) 60; RecordSuccess 70; RecordFailure (1 # 3) 80].

(** The state after a list of [isRateLimited()] calls. *)
Definition checks (times : list Z) (s : RateLimitState) : RateLimitState :=
  calls (map IsRateLimited times) s.

(** A failure of the remote call that is not a rate limit: the fetch
    rejects (transport error), or the status is neither a success nor
    429. *)
Definition transient (remote : Route.RemoteOutcome) : Prop :=
  match remote with
  | Route.FetchRejected => True
  | Route.Replied st _ => Route.ok st = false /\ st <> 429%Z
  end.

(** A configured route at some moment, for the examples. *)
Definition sampleEnv : Route.Env := {|
  Route.apiKey := Some (lit "key");
  Route.checkTime := 5000;
  Route.doneTime := 5100;
  Route.random := 1 # 2
|}.

Definition neverParses (t : jsstring) : option Route.Analysis := None.

Definition replied429 (remote : Route.RemoteOutcome) : Prop :=
  exists b, remote = Route.Replied 429 b.

(** The text ends, respectively starts, with a character of a word. *)
Definition endsInWord (s : jsstring) : bool :=
  match rev s with c :: _ => isWordChar c | [] => false end.

Definition startsInWord (s : jsstring) : bool :=
  match s with c :: _ => isWordChar c | [] => false end.

(** [text] contains the word [w] (given in lower case) as a whole word,
    in any mix of cases. *)
Definition containsWord (w : jsstring) (text : jsstring) : Prop :=
  exists pre mid post,
    text = pre ++ mid ++ post /\ toLowerCase mid = w /\
    endsInWord pre = false /\ startsInWord post = false.

Definition submitWordList : list jsstring :=
  [lit "submit"; lit "send"; lit "done"; lit "finish"; lit "complete"].

Definition containsSubmitWord (text : jsstring) : Prop :=
  exists w, In w submitWordList /\ containsWord w text.

(** A run of the matcher that finds a match. *)
Definition succeeds (o : option RegExp.mstate) : Prop := o <> None.

(** The pattern /\b(w1|...|wn)\b/ of a list of words. *)
Definition wordPattern (ws : list jsstring) : RegExp.regex :=
  RegExp.seqs [RegExp.WordBoundary;
               RegExp.Group 1 (RegExp.alts (map RegExp.Lit ws));
               RegExp.WordBoundary].

(** The word starts and ends with a character of a word. *)
Definition properWord (w : jsstring) : Prop :=
  RegExp.isWordAt w = true /\ RegExp.isWordAt (rev w) = true.

Definition coolingState : RateLimitState :=
  handleRateLimit (1 # 2) 5000 rateLimitState.

(** The statuses of the route. *)
Definition refused (r : Response) : Prop :=
  (status r = 400%Z \/ status r = 500%Z) /\ exists msg, body r = ErrorBody msg.

(** The answer says that it comes from the AI. *)
Definition saysFromAI (r : Response) : Prop :=
  match body r with
  | SanitizeBody _ ai => ai = true
  | AnalysisBody a => fromAI a = Some true
  | ErrorBody _ => False
  end.


(** While no error is counted the backoff is at its floor. *)
Definition floorWhenNoErrors (s : RateLimitState) : Prop :=
  consecutiveErrors s = 0%N -> backoffMs s = 1000%Q.

(** A request that the route lets through to the backend. *)
Definition issued (env : Env) (text : jsstring) (s : RateLimitState) : Prop :=
  configured env = true /\ truthy text = true /\
  RegExp.test true submitPattern text = false /\
  fst (isRateLimited (checkTime env) s) = false.

(** A route asked half a second after [sampleEnv] has finished. *)
Definition laterEnv : Env := {|
  apiKey := Some (lit "key");
  checkTime := 5600;
  doneTime := 5700;
  random := 1 # 4
|}.

(** What [PATCH] answers without the backend: the short cut for a text
    with a submit word, the patterns of [processWithRegex] otherwise. *)
Definition localAnalysis (text : jsstring) : Response :=
  if RegExp.test true submitPattern text
  then json (AnalysisBody submitDetected)
  else processWithRegex text.

(** A route asked four seconds after the failure of [coolingState],
    when its cool-down of two seconds has run out. *)
Definition afterCooldownEnv : Env := {|
  apiKey := Some (lit "key");
  checkTime := 9000;
  doneTime := 9100;
  random := 3 # 4
|}.

(** A character of an email token: [\w], a dot, a hyphen or the at
    sign. *)
Definition emailChar (c : ascii) : bool :=
  (isWordChar c || existsb (Ascii.eqb c) (lit ".-@"))%bool.

(** The text has no white space at its start and none at its end. *)
Definition trimmed (s : jsstring) : Prop := trim s = s.

(** The three fields whose extractor cuts a piece out of the text. *)
Definition cutField (field : jsstring) : Prop :=
  field = lit "name" \/ field = lit "email" \/ field = lit "address".

(** An answer that tells nothing: no response, a response that is not
    ok, a body that cannot be read, or a body with no submit and none of
    the four fields. *)
Definition tellsNothing (fetched : VoiceInput.Fetched) : Prop :=
  match fetched with
  | VoiceInput.Answered true (Some data) =>
      VoiceInput.submitDetected data = false /\
      name data = None /\ email data = None /\
      phone data = None /\ address data = None
  | _ => True
  end.

(** The route answered, and without the AI. *)
Definition answeredWithoutAI (fetched : VoiceInput.Fetched) : Prop :=
  exists data,
    fetched = VoiceInput.Answered true (Some data) /\ fromAI data = Some false.

(** The shape of an understanding: at most one detected field of each
    kind, no confidence of zero, and detected fields exactly with the
    intent [provide_info]. *)
Definition wellShaped (u : VoiceInput.VoiceUnderstanding) : Prop :=
  NoDup (map VoiceInput.field (VoiceInput.detectedFields u)) /\
  Forall (fun d => ~ (VoiceInput.confidence d == 0)%Q)
         (VoiceInput.detectedFields u) /\
  (VoiceInput.detectedFields u <> [] <->
   VoiceInput.intent u = VoiceInput.provide_info).

(** The record that a voice submit stores: the values of the four
    inputs of the document, trimmed. *)
Definition submissionOf (i : Page.Inputs) : Page.FormData := {|
  Page.name := trim (Page.valueOr (Page.nameInput i));
  Page.email := trim (Page.valueOr (Page.emailInput i));
  Page.phone := trim (Page.valueOr (Page.phoneInput i));
  Page.address := trim (Page.valueOr (Page.addressInput i))
|}.

(** The four values of a record. *)
Definition valuesOf (d : Page.FormData) : list jsstring :=
  [Page.name d; Page.email d; Page.phone d; Page.address d].

(** The values of the four inputs of the document. *)
Definition inputValues (i : Page.Inputs) : list jsstring :=
  [Page.valueOr (Page.nameInput i); Page.valueOr (Page.emailInput i);
   Page.valueOr (Page.phoneInput i); Page.valueOr (Page.addressInput i)].

(** The rows that the confirmation page shows for a record. *)
Definition rowsOf (d : Page.FormData) : list (string * jsstring) :=
  Confirmation.row "Name" (Page.name d)
  ++ Confirmation.row "Email" (Page.email d)
  ++ Confirmation.row "Phone" (Page.phone d)
  ++ Confirmation.row "Address" (Page.address d).

(** A record with its values trimmed. *)
Definition trimmedForm (d : Page.FormData) : Page.FormData := {|
  Page.name := trim (Page.name d);
  Page.email := trim (Page.email d);
  Page.phone := trim (Page.phone d);
  Page.address := trim (Page.address d)
|}.

(** The value of one field of a record. *)
Definition fieldValue (f : VoiceInput.FieldType) (d : Page.FormData) : jsstring :=
  match f with
  | VoiceInput.Name => Page.name d
  | VoiceInput.Email => Page.email d
  | VoiceInput.Phone => Page.phone d
  | VoiceInput.Address => Page.address d
  end.

(** A character that the phone validation lets pass: a digit, white
    space, a parenthesis, or one of + , - . (the range from + to .). *)
Definition phoneInputChar (c : ascii) : bool :=
  (isDigit c || isWhiteSpace c || existsb (Ascii.eqb c) (lit "()+,-."))%bool.

(** The backend was reached and answered with a success status and a
    text that is not blank. *)
Definition gaveText (env : Env) (s : RateLimitState) (remote : RemoteOutcome)
  : Prop :=
  configured env = true /\
  fst (isRateLimited (checkTime env) s) = false /\
  exists st t, remote = Replied st (Text t) /\ ok st = true /\
               truthy (trim t) = true.

(** Two pages for the examples. *)
Definition filledWorld : Page.World := {|
  Page.formData := Page.emptyForm; Page.formErrors := Page.noErrors; Page.activeField := None;
  Page.error := "old"; Page.lastSpeech := [];
  Page.inputs := {| Page.nameInput := Some (lit "Bob  "); Page.emailInput := Some [];
               Page.phoneInput := None; Page.addressInput := Some (lit "  ") |};
  Page.storageWritable := true; Page.localStorage := []; Page.timers := []
|}.

Definition blankWorld : Page.World := {|
  Page.formData := Page.withField VoiceInput.Address (lit "  ") Page.emptyForm;
  Page.formErrors := Page.noErrors; Page.activeField := None;
  Page.error := ""; Page.lastSpeech := [];
  Page.inputs := {| Page.nameInput := None; Page.emailInput := None;
               Page.phoneInput := None; Page.addressInput := None |};
  Page.storageWritable := true; Page.localStorage := []; Page.timers := []
|}.

(** One step of the loop over the detected fields, on the form data
    alone. *)
Definition fillField (d : Page.FormData) (x : VoiceInput.DetectedField)
  : Page.FormData :=
  if truthy (VoiceInput.value x)
  then Page.withField (VoiceInput.field x) (VoiceInput.value x) d
  else d.

(** One step of the loop over the detected fields. *)
Definition fillStep (rendered : Page.World) (acc : Page.World)
           (x : VoiceInput.DetectedField) : Page.World :=
  if truthy (VoiceInput.value x)
  then Page.handleFieldUpdate rendered (VoiceInput.field x) (VoiceInput.value x) acc
  else acc.

(** The class of the phone validation, [\d\s()+-.]. *)
Definition phoneInputClass : RegExp.regex :=
  RegExp.cls [RegExp.CDigit; RegExp.CSpace; RegExp.CChar "("; RegExp.CChar ")";
              RegExp.CRange "+" "."].

(** The end of a validation pattern: $ and success. *)
Definition atEnd (st : RegExp.mstate) : option RegExp.mstate :=
  RegExp.m false RegExp.Eol (fun st' => Some st') st.

(** A character of a part of an email address: neither white space
    nor the at sign. *)
Definition emailPartChar (c : ascii) : bool :=
  negb (isWhiteSpace c || Ascii.eqb c "@")%bool.

(** A part of an email address: not empty, of such characters. *)
Definition emailPart (s : jsstring) : Prop :=
  s <> [] /\ Forall (fun c => emailPartChar c = true) s.

(** The shape local@domain.tld. *)
Definition emailShape (s : jsstring) : Prop :=
  exists a b c,
    s = a ++ lit "@" ++ b ++ lit "." ++ c /\
    emailPart a /\ emailPart b /\ emailPart c.

(** Every character that the regex can pass over satisfies [P]. *)
Fixpoint acceptsOnly (ic : bool) (P : ascii -> bool) (r : RegExp.regex) : Prop :=
  match r with
  | RegExp.Char p => forall c, RegExp.char_matches ic p c = true -> P c = true
  | RegExp.Class neg items =>
      forall c, RegExp.class_matches ic neg items c = true -> P c = true
  | RegExp.Seq a b => acceptsOnly ic P a /\ acceptsOnly ic P b
  | RegExp.Alt a b => acceptsOnly ic P a /\ acceptsOnly ic P b
  | RegExp.Star a => acceptsOnly ic P a
  | RegExp.Group _ a => acceptsOnly ic P a
  | _ => True
  end.

(** The matcher has moved from [st] to [st'] over characters that
    satisfy [P]. *)
Definition reaches (P : ascii -> bool) (st st' : RegExp.mstate) : Prop :=
  exists added,
    Forall (fun c => P c = true) added /\
    RegExp.consumed st' = rev added ++ RegExp.consumed st /\
    RegExp.remaining st = added ++ RegExp.remaining st'.

Definition anyChar (c : ascii) : bool := true.

(** [part] is a contiguous part of [text]. *)
Definition partOf (part text : jsstring) : Prop :=
  exists pre post, text = pre ++ part ++ post.

(** The words that the component itself takes for a submit. *)
Definition localSubmitWords : list jsstring :=
  [lit "submit"; lit "send"; lit "done"].

(** The understanding of a submit. *)
Definition submitOf (text : jsstring) : VoiceInput.VoiceUnderstanding := {|
  VoiceInput.intent := VoiceInput.submit;
  VoiceInput.detectedFields := [];
  VoiceInput.originalText := text
|}.

Definition unknownOf (text : jsstring) : VoiceInput.VoiceUnderstanding := {|
  VoiceInput.intent := VoiceInput.unknown;
  VoiceInput.detectedFields := [];
  VoiceInput.originalText := text
|}.

(** The words that the component takes for a clear. *)
Definition clearWords : list jsstring := [lit "clear"; lit "reset"].

(** The text contains one of the words as a whole word. *)
Definition containsOneOf (ws : list jsstring) (text : jsstring) : Prop :=
  exists w, In w ws /\ containsWord w text.

Definition clearOf (text : jsstring) : VoiceInput.VoiceUnderstanding := {|
  VoiceInput.intent := VoiceInput.clear;
  VoiceInput.detectedFields := [];
  VoiceInput.originalText := text
|}.

(** Words in lower case that start and end with a character of a word. *)
Definition goodWords (ws : list jsstring) : Prop :=
  Forall (fun w => toLowerCase w = w /\ properWord w) ws.

(** A component that listens, for the examples. *)
Definition sampleState : VoiceInput.State := {|
  VoiceInput.listening := true;
  VoiceInput.error := "";
  VoiceInput.processing := false;
  VoiceInput.browserSupport := true;
  VoiceInput.interimResult := [];
  VoiceInput.rateLimitHit := false
|}.

(** The utterance of the first end-to-end scenario. *)
Definition bobText : jsstring :=
  lit "my name is Bob and my email is bob@x.com".

(** An understanding with a name and an email, for the examples. *)
Definition bobAndEmail : VoiceInput.VoiceUnderstanding := {|
  VoiceInput.intent := VoiceInput.provide_info;
  VoiceInput.detectedFields :=
    [{| VoiceInput.field := VoiceInput.Name; VoiceInput.value := lit "Bob";
        VoiceInput.confidence := 8 # 10 |};
     {| VoiceInput.field := VoiceInput.Email;
        VoiceInput.value := lit "bob@x.com";
        VoiceInput.confidence := 9 # 10 |}];
  VoiceInput.originalText := bobText
|}.

(** The text does not start with a character that [p] holds of. *)
Definition headKept (p : ascii -> bool) (s : jsstring) : Prop :=
  match s with
  | c :: _ => p c = false
  | [] => True
  end.

(** Every character of the text is white space. *)
Definition blank (s : jsstring) : Prop := Forall (fun c => isWhiteSpace c = true) s.

(** A character that a phone number keeps: a digit, white space, or one
    of - + ( ) . *)
Definition phoneChar (c : ascii) : bool :=
  (isDigit c || isWhiteSpace c
   || existsb (Ascii.eqb c) (lit "-+()."))%bool.

End Spec.

(* ================================================================== *)
(** * The rate limit controller *)
(* ================================================================== *)

Module RateLimitProofs.

Import Route Spec.

Lemma Qgtb_true (a b : Q) : Qgtb a b = true <-> (b < a)%Q.
Proof.
  unfold Qgtb. rewrite negb_true_iff.
  destruct (Qle_bool a b) eqn:E.
  - apply Qle_bool_iff in E. split; [discriminate | intro H; lra].
  - split; [intros _ | reflexivity].
    apply Qnot_le_lt. intro H. apply Qle_bool_iff in H. congruence.
Qed.

Lemma Qgtb_false (a b : Q) : Qgtb a b = false <-> (a <= b)%Q.
Proof.
  unfold Qgtb. rewrite negb_false_iff. apply Qle_bool_iff.
Qed.

Lemma initial_in_range : backoffInRange rateLimitState.
Proof. unfold backoffInRange; simpl; split; lra. Qed.

Lemma isRateLimited_backoff (now : Z) (s : RateLimitState) :
  backoffMs (snd (isRateLimited now s)) = backoffMs s.
Proof.
  unfold isRateLimited.
  destruct (inCooldown s); [destruct (Qgtb _ _) |]; reflexivity.
Qed.

Lemma isRateLimited_errors (now : Z) (s : RateLimitState) :
  consecutiveErrors (snd (isRateLimited now s)) = consecutiveErrors s.
Proof.
  unfold isRateLimited.
  destruct (inCooldown s); [destruct (Qgtb _ _) |]; reflexivity.
Qed.

Lemma isRateLimited_time (now : Z) (s : RateLimitState) :
  lastRequestTime (snd (isRateLimited now s)) = lastRequestTime s.
Proof.
  unfold isRateLimited.
  destruct (inCooldown s); [destruct (Qgtb _ _) |]; reflexivity.
Qed.

(** A call that is let through leaves no cool-down behind. *)
Lemma isRateLimited_false_cooldown (now : Z) (s : RateLimitState) :
  fst (isRateLimited now s) = false ->
  inCooldown (snd (isRateLimited now s)) = false.
Proof.
  unfold isRateLimited.
  destruct (inCooldown s) eqn:C; [destruct (Qgtb _ _) |]; simpl;
    congruence.
Qed.

Lemma handleRateLimit_in_range (rnd : Q) (now : Z) (s : RateLimitState) :
  (0 <= rnd)%Q -> backoffInRange s -> backoffInRange (handleRateLimit rnd now s).
Proof.
  intros Hr [Hlo Hhi]. unfold backoffInRange, handleRateLimit; simpl. split.
  - apply Q.min_glb; [lra | nra].
  - apply Q.le_min_l.
Qed.

Lemma handleSuccessfulRequest_in_range (now : Z) (s : RateLimitState) :
  backoffInRange s -> backoffInRange (handleSuccessfulRequest now s).
Proof.
  intros H. unfold handleSuccessfulRequest.
  destruct (N.ltb 0 (consecutiveErrors s)); [| exact H].
  unfold backoffInRange; simpl; split; lra.
Qed.

Lemma call_in_range (c : Call) (s : RateLimitState) :
  validCall c -> backoffInRange s -> backoffInRange (call c s).
Proof.
  destruct c as [now | rnd now | now]; simpl; intros V H.
  - unfold backoffInRange. rewrite isRateLimited_backoff. exact H.
  - apply handleRateLimit_in_range; tauto.
  - apply handleSuccessfulRequest_in_range; exact H.
Qed.

Lemma calls_in_range (cs : list Call) :
  forall s, Forall validCall cs -> backoffInRange s ->
            backoffInRange (calls cs s).
Proof.
  induction cs as [| c cs IH]; intros s V H; simpl.
  - exact H.
  - inversion V; subst. apply IH; [assumption |].
    apply call_in_range; assumption.
Qed.

(** C3. From the initial state ([backoffMs = 1000], no cool-down),
    after every sequence of calls of [isRateLimited], [handleRateLimit]
    (recordFailure) and [handleSuccessfulRequest] (recordSuccess), with
    every jitter in [0.5, 1.5), [backoffMs] is in [1000, 30000]. *)
Theorem backoff_always_in_range (cs : list Call) :
  Forall validCall cs ->
  (1000 <= backoffMs (calls cs rateLimitState))%Q /\
  (backoffMs (calls cs rateLimitState) <= 30000)%Q.
Proof.
  intros V. apply (calls_in_range cs _ V initial_in_range).
Qed.

Lemma sampleCalls_valid : Forall validCall sampleCalls.
Proof.
  unfold sampleCalls.
  repeat (constructor; [simpl; try exact I; split; lra |]). constructor.
Defined.

Lemma backoff_always_in_range_witness :
  (1000 <= backoffMs (calls sampleCalls rateLimitState))%Q /\
  (backoffMs (calls sampleCalls rateLimitState) <= 30000)%Q.
Proof.
  apply (backoff_always_in_range sampleCalls sampleCalls_valid).
Defined.

(** C4. In a state reached from the initial one, [isRateLimited()]
    asked at the time of a [handleRateLimit()] (recordFailure) answers
    true; and in any state, once [now - lastRequestTime > backoffMs], it
    answers false and leaves [inCooldown] cleared. *)
Theorem isRateLimited_after_failure_and_after_cooldown
        (cs : list Call) (rnd : Q) (t : Z) :
  Forall validCall cs -> (0 <= rnd)%Q /\ (rnd < 1)%Q ->
  fst (isRateLimited t (handleRateLimit rnd t (calls cs rateLimitState))) = true
  /\
  forall (s : RateLimitState) (now : Z),
    (backoffMs s < inject_Z (now - lastRequestTime s))%Q ->
    fst (isRateLimited now s) = false /\
    inCooldown (snd (isRateLimited now s)) = false.
Proof.
  intros V [Hr0 Hr1]. split.
  - pose proof (calls_in_range cs _ V initial_in_range) as R.
    pose proof (handleRateLimit_in_range rnd t _ Hr0 R) as [Hlo _].
    unfold isRateLimited.
    change (inCooldown (handleRateLimit rnd t (calls cs rateLimitState)))
      with true.
    change (lastRequestTime (handleRateLimit rnd t (calls cs rateLimitState)))
      with t.
    cbv iota.
    assert (E : Qgtb (inject_Z (t - t))
                     (backoffMs (handleRateLimit rnd t (calls cs rateLimitState)))
                = false).
    { apply Qgtb_false. rewrite Z.sub_diag. change (inject_Z 0) with 0%Q. lra. }
    rewrite E. reflexivity.
  - intros s now Hgt. apply Qgtb_true in Hgt.
    unfold isRateLimited. destruct (inCooldown s) eqn:C.
    + rewrite Hgt. simpl. split; reflexivity.
    + simpl. split; [reflexivity | exact C].
Qed.

Lemma isRateLimited_after_failure_and_after_cooldown_witness :
  fst (isRateLimited 100
         (handleRateLimit (1 # 4) 100 (calls sampleCalls rateLimitState))) = true
  /\
  forall (s : RateLimitState) (now : Z),
    (backoffMs s < inject_Z (now - lastRequestTime s))%Q ->
    fst (isRateLimited now s) = false /\
    inCooldown (snd (isRateLimited now s)) = false.
Proof.
  apply (@isRateLimited_after_failure_and_after_cooldown
           sampleCalls (1 # 4) 100 sampleCalls_valid).
  split; lra.
Defined.

Lemma checks_errors (times : list Z) :
  forall s, consecutiveErrors (checks times s) = consecutiveErrors s.
Proof.
  unfold checks. induction times as [| t ts IH]; intros s; simpl.
  - reflexivity.
  - rewrite IH. apply isRateLimited_errors.
Qed.

(** C5. After [handleRateLimit()] (recordFailure) followed by
    [handleSuccessfulRequest()] (recordSuccess), with any number of
    [isRateLimited()] calls in between, [consecutiveErrors] is 0,
    [backoffMs] is 1000 and [lastRequestTime] is the time of the
    success. *)
Theorem success_after_failure_resets
        (s : RateLimitState) (rnd : Q) (t1 : Z) (between : list Z) (t2 : Z) :
  let s' := handleSuccessfulRequest t2
              (checks between (handleRateLimit rnd t1 s)) in
  consecutiveErrors s' = 0%N /\ backoffMs s' = 1000%Q /\
  lastRequestTime s' = t2.
Proof.
  cbv zeta. unfold handleSuccessfulRequest.
  rewrite checks_errors.
  change (consecutiveErrors (handleRateLimit rnd t1 s))
    with (consecutiveErrors s + 1)%N.
  assert (E : N.ltb 0 (consecutiveErrors s + 1) = true)
    by (apply N.ltb_lt; lia).
  rewrite E. simpl. repeat split.
Qed.

End RateLimitProofs.

(* ================================================================== *)
(** * The handlers of the route and the rate limit state *)
(* ================================================================== *)

Module RouteProofs.

Import JS RegExp Route Spec.
Import RateLimitProofs.

Section Handlers.

Variable JSON_parse : jsstring -> option Analysis.
Variable env : Env.
Variable text : jsstring.
Variable s : RateLimitState.

Hypothesis key_configured : configured env = true.
Hypothesis text_given : truthy text = true.
Hypothesis let_through : fst (isRateLimited (checkTime env) s) = false.

(** The state in which the remote call is issued. *)
Let s1 : RateLimitState := snd (isRateLimited (checkTime env) s).

Lemma gate_eq : isRateLimited (checkTime env) s = (false, s1).
Proof.
  unfold s1. rewrite <- let_through.
  destruct (isRateLimited (checkTime env) s); reflexivity.
Qed.

Lemma handleRateLimit_differs (rnd : Q) (now : Z) (s' : RateLimitState) :
  inCooldown s' = false -> s' <> handleRateLimit rnd now s1.
Proof.
  intros C E. rewrite E in C. discriminate C.
Qed.

Lemma s1_cooldown : inCooldown s1 = false.
Proof. apply isRateLimited_false_cooldown, let_through. Qed.

Lemma success_cooldown (now : Z) :
  inCooldown (handleSuccessfulRequest now s1) = false.
Proof.
  unfold handleSuccessfulRequest.
  destruct (N.ltb 0 (consecutiveErrors s1)); simpl; apply s1_cooldown.
Qed.

Lemma PATCH_transient (remote : RemoteOutcome) (field : option jsstring) :
  test true submitPattern text = false -> transient remote ->
  PATCH JSON_parse env remote (Parsed (Some text) field) s
  = (processWithRegex text, s1).
Proof.
  intros Hsub Htr. unfold PATCH, validText.
  rewrite text_given, Hsub, key_configured, gate_eq.
  destruct remote as [| st b]; [reflexivity |].
  destruct Htr as [Hok H429]. rewrite Hok. simpl.
  destruct (Z.eqb_spec st 429); [contradiction | reflexivity].
Qed.

Lemma POST_transient (remote : RemoteOutcome) (field : jsstring) :
  validField (Some field) = Some field -> transient remote ->
  POST env remote (Parsed (Some text) (Some field)) s
  = (json (SanitizeBody (basicTextCleaning text field) false), s1).
Proof.
  intros Hf Htr. unfold POST, validText.
  rewrite text_given, Hf, key_configured, gate_eq.
  destruct remote as [| st b]; [reflexivity |].
  destruct Htr as [Hok H429]. rewrite Hok. simpl.
  destruct (Z.eqb_spec st 429); [contradiction | reflexivity].
Qed.

Lemma PATCH_failure_iff (remote : RemoteOutcome) (field : option jsstring) :
  test true submitPattern text = false ->
  snd (PATCH JSON_parse env remote (Parsed (Some text) field) s)
  = handleRateLimit (random env) (doneTime env) s1
  <-> replied429 remote.
Proof.
  intros Hsub. unfold PATCH, validText.
  rewrite text_given, Hsub, key_configured, gate_eq.
  split.
  - destruct remote as [| st b].
    + simpl. intros E. exfalso.
      exact (handleRateLimit_differs _ _ _ s1_cooldown E).
    + destruct (ok st) eqn:Hok; simpl.
      * intros E. exfalso.
        refine (handleRateLimit_differs (random env) (doneTime env) _
                  (success_cooldown (doneTime env)) _).
        destruct b as [| | t]; simpl in E; try exact E.
        destruct (truthy t); [| exact E].
        destruct (JSON_parse _); exact E.
      * destruct (Z.eqb_spec st 429) as [-> | Hne]; simpl.
        -- intros _. exists b. reflexivity.
        -- intros E. exfalso.
           exact (handleRateLimit_differs _ _ _ s1_cooldown E).
  - intros [b ->]. reflexivity.
Qed.

Lemma POST_failure_iff (remote : RemoteOutcome) (field : jsstring) :
  validField (Some field) = Some field ->
  snd (POST env remote (Parsed (Some text) (Some field)) s)
  = handleRateLimit (random env) (doneTime env) s1
  <-> replied429 remote.
Proof.
  intros Hf. unfold POST, validText.
  rewrite text_given, Hf, key_configured, gate_eq.
  split.
  - destruct remote as [| st b].
    + simpl. intros E. exfalso.
      exact (handleRateLimit_differs _ _ _ s1_cooldown E).
    + destruct (ok st) eqn:Hok; simpl.
      * intros E. exfalso.
        refine (handleRateLimit_differs (random env) (doneTime env) _
                  (success_cooldown (doneTime env)) _).
        destruct b as [| | t]; simpl in E; try exact E.
        destruct (truthy (if truthy t then trim t else [])); exact E.
      * destruct (Z.eqb_spec st 429) as [-> | Hne]; simpl.
        -- intros _. exists b. reflexivity.
        -- intros E. exfalso.
           exact (handleRateLimit_differs _ _ _ s1_cooldown E).
  - intros [b ->]. reflexivity.
Qed.

End Handlers.

(** C8. When the remote call is issued (a key is configured, the text
    is given, the check of [isRateLimited()] lets the request through)
    and fails with a transport error or with a status that is neither a
    success nor 429, [POST] and [PATCH] answer with the deterministic
    fallback and the failure itself leaves the rate limit state alone:
    the state after the request is the one in which the call was issued.
    That state has [lastRequestTime], [consecutiveErrors] and [backoffMs]
    as before the request; its [inCooldown] is false, so it is the state
    from before the request when no cool-down was recorded, and the
    check has cleared the flag when the recorded cool-down had run out.
    The state becomes that of [handleRateLimit()] (recordFailure) exactly
    when the backend replies 429.  [POST] issues the call for every
    text, [PATCH] for every text without a submit word (with one it
    answers before any call). *)
Theorem only_429_records_failure
        (JSON_parse : jsstring -> option Analysis) (env : Env)
        (text field : jsstring) (pfield : option jsstring)
        (s : RateLimitState) (remote : RemoteOutcome) :
  configured env = true ->
  truthy text = true ->
  fst (isRateLimited (checkTime env) s) = false ->
  validField (Some field) = Some field ->
  let atCall := snd (isRateLimited (checkTime env) s) in
  (lastRequestTime atCall = lastRequestTime s /\
   consecutiveErrors atCall = consecutiveErrors s /\
   backoffMs atCall = backoffMs s /\
   inCooldown atCall = false /\
   (inCooldown s = false -> atCall = s))
  /\
  (transient remote ->
   POST env remote (Parsed (Some text) (Some field)) s
   = (json (SanitizeBody (basicTextCleaning text field) false), atCall) /\
   (test true submitPattern text = false ->
    PATCH JSON_parse env remote (Parsed (Some text) pfield) s
    = (processWithRegex text, atCall)))
  /\
  (snd (POST env remote (Parsed (Some text) (Some field)) s)
   = handleRateLimit (random env) (doneTime env) atCall
   <-> replied429 remote)
  /\
  (test true submitPattern text = false ->
   (snd (PATCH JSON_parse env remote (Parsed (Some text) pfield) s)
    = handleRateLimit (random env) (doneTime env) atCall
    <-> replied429 remote)).
Proof.
  intros Hkey Htext Hgate Hfield. cbv zeta.
  split; [| split; [| split]].
  - split; [apply isRateLimited_time |].
    split; [apply isRateLimited_errors |].
    split; [apply isRateLimited_backoff |].
    split; [apply isRateLimited_false_cooldown; assumption |].
    intros C. unfold isRateLimited. rewrite C. reflexivity.
  - intros Htr. split.
    + apply POST_transient; assumption.
    + intros Hsub. apply PATCH_transient; assumption.
  - apply POST_failure_iff; assumption.
  - intros Hsub. apply PATCH_failure_iff; assumption.
Qed.

Lemma only_429_records_failure_witness :
  let cleared := snd (isRateLimited 9000 coolingState) in
  (inCooldown cleared = false /\
   POST afterCooldownEnv (Replied 500 NoText)
        (Parsed (Some (lit "send it to bob@x.com")) (Some (lit "email")))
        coolingState
   = (json (SanitizeBody (lit "bob@x.com") false), cleared))
  /\
  PATCH neverParses sampleEnv FetchRejected
        (Parsed (Some (lit "my name is Bob")) None) rateLimitState
  = (processWithRegex "my name is Bob", rateLimitState).
Proof.
  split.
  - destruct (@only_429_records_failure neverParses afterCooldownEnv
                "send it to bob@x.com" "email" None coolingState
                (Replied 500 NoText) eq_refl eq_refl eq_refl eq_refl)
      as [S [H _]].
    destruct S as (_ & _ & _ & C & _).
    destruct H as [HP _].
    + simpl. split; [reflexivity | discriminate].
    + split; [exact C | exact HP].
  - destruct (@only_429_records_failure neverParses sampleEnv
                "my name is Bob" "name" None rateLimitState FetchRejected
                eq_refl eq_refl eq_refl eq_refl)
      as [_ [H _]].
    destruct (H I) as [_ HQ].
    apply HQ. reflexivity.
Defined.

(** C8 as stated fails for [inCooldown]: a request that comes when the
    recorded cool-down has run out is let through by [isRateLimited()],
    which clears the flag; the backend then fails with a 500, and the
    state after the request is not the state from before it. *)
Lemma expired_cooldown_is_cleared :
  let request := Parsed (Some (lit "my name is Bob")) (Some (lit "name")) in
  let remote := Replied 500 NoText in
  let afterPATCH :=
    snd (PATCH neverParses afterCooldownEnv remote request coolingState) in
  let afterPOST := snd (POST afterCooldownEnv remote request coolingState) in
  transient remote /\
  inCooldown coolingState = true /\
  inCooldown afterPATCH = false /\ afterPATCH <> coolingState /\
  inCooldown afterPOST = false /\ afterPOST <> coolingState.
Proof.
  cbv zeta.
  split; [split; [reflexivity | discriminate] |].
  split; [reflexivity |].
  split; [reflexivity |].
  split; [intros E; apply (f_equal inCooldown) in E; discriminate E |].
  split; [reflexivity |].
  intros E; apply (f_equal inCooldown) in E; discriminate E.
Qed.

End RouteProofs.

(* ================================================================== *)
(** * The speech session and the form controller *)
(* ================================================================== *)

Module SessionProofs.

Import VoiceInput.

(** C9, as the code has it. On a device error [no-speech] or [network]
    the message for the user is set and the [listening] flag is set to
    false, whatever it was; only [aborted] leaves the session as it is. *)
Theorem no_speech_and_network_stop_listening (st : State) :
  (listening (onerror "no-speech" st) = false /\
   error (onerror "no-speech" st)
   = "No speech detected. Please try speaking again.")
  /\
  (listening (onerror "network" st) = false /\
   error (onerror "network" st)
   = "Network error. Check your internet connection and try again.")
  /\
  onerror "aborted" st = st.
Proof.
  repeat split.
Qed.

(** C9 as stated fails: a session that listens does not listen any
    more after a [no-speech] error. *)
Lemma listening_flag_not_kept :
  let st := {| listening := true; error := ""; processing := false;
               browserSupport := true; interimResult := [];
               rateLimitHit := false |} in
  listening (onerror "no-speech" st) <> listening st /\
  listening (onerror "network" st) <> listening st.
Proof.
  simpl. split; discriminate.
Qed.

End SessionProofs.

Module PageProofs.

Import JS VoiceInput Page Spec.

Lemma dropWhile_all (p : ascii -> bool) (s : jsstring) :
  Forall (fun c => p c = true) s -> dropWhile p s = [].
Proof.
  induction 1 as [| c s Hc _ IH]; simpl; [reflexivity |].
  rewrite Hc. exact IH.
Qed.

Lemma trim_blank (s : jsstring) : blank s -> trim s = [].
Proof.
  intros H. unfold trim, trimEnd, trimStart.
  rewrite (dropWhile_all _ _ H). reflexivity.
Qed.

Lemma blank_valueOr (x : option jsstring) :
  blank (valueOr x) -> trim (valueOr x) = [].
Proof. apply trim_blank. Qed.

(** C10. A submit intent handled while the four inputs of the document
    are empty or hold white space only: nothing is written to
    [localStorage], no navigation is scheduled, the form state
    ([formData], [formErrors], [activeField]) is unchanged, and the error
    asks for information before submitting. *)
Theorem empty_submit_is_refused (understanding : VoiceUnderstanding) (w : World) :
  intent understanding = submit ->
  blank (valueOr (nameInput (inputs w))) ->
  blank (valueOr (emailInput (inputs w))) ->
  blank (valueOr (phoneInput (inputs w))) ->
  blank (valueOr (addressInput (inputs w))) ->
  let w' := handleVoiceInput understanding w in
  localStorage w' = localStorage w /\
  timers w' = timers w /\
  formData w' = formData w /\
  formErrors w' = formErrors w /\
  activeField w' = activeField w /\
  error w' = "Please provide some information before submitting.".
Proof.
  intros Hi Hn He Hp Ha. cbv zeta.
  unfold handleVoiceInput. rewrite Hi. simpl.
  rewrite (blank_valueOr _ Hn), (blank_valueOr _ He),
    (blank_valueOr _ Hp), (blank_valueOr _ Ha).
  simpl. repeat split.
Qed.

Lemma empty_submit_is_refused_witness :
  let w := {| formData := withField Name "Bob" emptyForm;
              formErrors := noErrors; activeField := Some Name;
              error := ""; lastSpeech := [];
              inputs := {| nameInput := Some (lit "  ");
                           emailInput := Some [];
                           phoneInput := None;
                           addressInput := Some (lit " ") |};
              storageWritable := true;
              localStorage := []; timers := [] |} in
  let w' := handleVoiceInput
              {| intent := submit; detectedFields := [];
                 originalText := lit "submit" |} w in
  localStorage w' = [] /\ timers w' = [] /\
  formData w' = withField Name "Bob" emptyForm /\
  error w' = "Please provide some information before submitting.".
Proof.
  cbv zeta.
  match goal with
  | |- context [handleVoiceInput ?u ?w] =>
      destruct (@empty_submit_is_refused u w) as (H1 & H2 & H3 & _ & _ & H6)
  end.
  - reflexivity.
  - repeat constructor.
  - repeat constructor.
  - repeat constructor.
  - repeat constructor.
  - repeat split; assumption.
Defined.

End PageProofs.

(* ================================================================== *)
(** * The field extractors *)
(* ================================================================== *)

Module ExtractorProofs.

Import JS RegExp Route Spec.

(** ** Trimming *)

Lemma dropWhile_headKept (p : ascii -> bool) (s : jsstring) :
  headKept p (dropWhile p s).
Proof.
  induction s as [| c s IH]; simpl; [exact I |].
  destruct (p c) eqn:E; [exact IH | exact E].
Qed.

Lemma dropWhile_fixed (p : ascii -> bool) (s : jsstring) :
  headKept p s -> dropWhile p s = s.
Proof.
  destruct s as [| c s]; simpl; [reflexivity |].
  intros E. rewrite E. reflexivity.
Qed.

Lemma dropWhile_suffix (p : ascii -> bool) (s : jsstring) :
  exists d, s = d ++ dropWhile p s.
Proof.
  induction s as [| c s [d IH]]; simpl.
  - exists []. reflexivity.
  - destruct (p c).
    + exists (c :: d). simpl. f_equal. exact IH.
    + exists []. reflexivity.
Qed.

Lemma trimEnd_prefix (s : jsstring) : exists d, s = trimEnd s ++ d.
Proof.
  unfold trimEnd, trimStart.
  destruct (dropWhile_suffix isWhiteSpace (rev s)) as [d E].
  exists (rev d).
  rewrite <- rev_app_distr, <- E, rev_involutive. reflexivity.
Qed.

Lemma trimEnd_headKept (s : jsstring) :
  headKept isWhiteSpace s -> headKept isWhiteSpace (trimEnd s).
Proof.
  intros H. destruct (trimEnd_prefix s) as [d E].
  destruct (trimEnd s) as [| c r]; [exact I |].
  rewrite E in H. exact H.
Qed.

Lemma trimEnd_idempotent (s : jsstring) : trimEnd (trimEnd s) = trimEnd s.
Proof.
  unfold trimEnd, trimStart. rewrite rev_involutive.
  rewrite (dropWhile_fixed _ _ (dropWhile_headKept _ _)). reflexivity.
Qed.

Lemma trim_idempotent (s : jsstring) : trim (trim s) = trim s.
Proof.
  unfold trim.
  assert (H : trimStart (trimEnd (trimStart s)) = trimEnd (trimStart s)).
  { apply dropWhile_fixed, trimEnd_headKept, dropWhile_headKept. }
  rewrite H. apply trimEnd_idempotent.
Qed.

(** ** Replacing *)

Lemma replace_no_match (ic : bool) (r : regex) (repl s : jsstring) :
  test ic r s = false -> replace ic r repl s = s.
Proof.
  unfold test, replace. destruct (exec ic r s); [discriminate | reflexivity].
Qed.

Lemma exec_no_match (ic : bool) (r : regex) (s : jsstring) :
  test ic r s = false -> exec ic r s = None.
Proof.
  unfold test. destruct (exec ic r s); [discriminate | reflexivity].
Qed.

Lemma notPhoneChar_matches (c : ascii) :
  class_matches false true ([CDigit; CSpace] ++ chars "-+().") c
  = negb (phoneChar c).
Proof.
  unfold class_matches, phoneChar, set_has, chars. simpl.
  rewrite !orb_false_r, !orb_assoc. reflexivity.
Qed.

Lemma length_neq_tail (A : Type) (x : A) (l : list A) :
  Nat.eqb (length l) (length (x :: l)) = false.
Proof.
  apply Nat.eqb_neq. simpl. lia.
Qed.

Lemma replace_from_notPhoneChar (fuel : nat) :
  forall before rest,
    (length rest < fuel)%nat ->
    replace_from false fuel notPhoneChar [] before rest = filter phoneChar rest.
Proof.
  induction fuel as [| fuel IH]; intros before rest Hlen; [lia |].
  destruct rest as [| c rest].
  - reflexivity.
  - simpl in Hlen.
    assert (Hrec : forall b, replace_from false fuel notPhoneChar [] b rest
                             = filter phoneChar rest)
      by (intros b; apply IH; lia).
    cbn [replace_from]. unfold match_at, notPhoneChar, ncls.
    cbn [m]. unfold advance. cbn [remaining consumed captures].
    rewrite notPhoneChar_matches.
    cbn [filter]. destruct (phoneChar c); cbn [negb].
    + f_equal. apply Hrec.
    + cbn [remaining consumed]. rewrite length_neq_tail.
      cbn [app]. apply Hrec.
Qed.

Lemma replaceAll_notPhoneChar (s : jsstring) :
  replaceAll false notPhoneChar [] s = filter phoneChar s.
Proof.
  unfold replaceAll. apply replace_from_notPhoneChar. lia.
Qed.

(** ** The extractors on text that no pattern and no prefix touches *)

Lemma name_untouched (text : jsstring) :
  test true namePrefixes (trim text) = false ->
  test true namePrefixes2 (trim text) = false ->
  basicTextCleaning text "name" = trim text.
Proof.
  intros H1 H2. unfold basicTextCleaning.
  change (JS.eqb (lit "name") (lit "name")) with true. cbv iota.
  rewrite (@replace_no_match _ _ _ _ H1), (@replace_no_match _ _ _ _ H2).
  apply trim_idempotent.
Qed.

Lemma email_untouched (text : jsstring) :
  test false emailToken (trim text) = false ->
  test true emailPrefixes (trim text) = false ->
  test true emailPrefixes2 (trim text) = false ->
  basicTextCleaning text "email" = trim text.
Proof.
  intros H0 H1 H2. unfold basicTextCleaning.
  change (JS.eqb (lit "email") (lit "name")) with false.
  change (JS.eqb (lit "email") (lit "email")) with true. cbv iota.
  rewrite (@exec_no_match _ _ _ H0).
  rewrite (@replace_no_match _ _ _ _ H1), (@replace_no_match _ _ _ _ H2).
  apply trim_idempotent.
Qed.

Lemma address_untouched (text : jsstring) :
  test true addressPrefixes (trim text) = false ->
  test true addressPrefixes2 (trim text) = false ->
  basicTextCleaning text "address" = trim text.
Proof.
  intros H1 H2. unfold basicTextCleaning.
  change (JS.eqb (lit "address") (lit "name")) with false.
  change (JS.eqb (lit "address") (lit "email")) with false.
  change (JS.eqb (lit "address") (lit "phone")) with false.
  change (JS.eqb (lit "address") (lit "address")) with true. cbv iota.
  rewrite (@replace_no_match _ _ _ _ H1), (@replace_no_match _ _ _ _ H2).
  apply trim_idempotent.
Qed.

Lemma phone_untouched (text : jsstring) :
  test false phonePatternDirect (trim text) = false ->
  test true phonePrefixes (trim text) = false ->
  test true phonePrefixes2 (trim text) = false ->
  basicTextCleaning text "phone" = filter phoneChar (trim text).
Proof.
  intros H0 H1 H2. unfold basicTextCleaning.
  change (JS.eqb (lit "phone") (lit "name")) with false.
  change (JS.eqb (lit "phone") (lit "email")) with false.
  change (JS.eqb (lit "phone") (lit "phone")) with true. cbv iota.
  rewrite (@exec_no_match _ _ _ H0).
  rewrite (@replace_no_match _ _ _ _ H1), (@replace_no_match _ _ _ _ H2).
  rewrite trim_idempotent.
  apply (replaceAll_notPhoneChar (trim text)).
Qed.

(** C7, as the code has it. [basicTextCleaning] is a total function.
    On a text that no field pattern matches and where no prefix applies,
    the name, email and address extractors return the trimmed text
    unmodified; the phone extractor returns the trimmed text without the
    characters that are not a digit, white space or one of - + ( ) . *)
Theorem extractors_on_untouched_text (text : jsstring) :
  (test true namePrefixes (trim text) = false ->
   test true namePrefixes2 (trim text) = false ->
   basicTextCleaning text "name" = trim text)
  /\
  (test false emailToken (trim text) = false ->
   test true emailPrefixes (trim text) = false ->
   test true emailPrefixes2 (trim text) = false ->
   basicTextCleaning text "email" = trim text)
  /\
  (test true addressPrefixes (trim text) = false ->
   test true addressPrefixes2 (trim text) = false ->
   basicTextCleaning text "address" = trim text)
  /\
  (test false phonePatternDirect (trim text) = false ->
   test true phonePrefixes (trim text) = false ->
   test true phonePrefixes2 (trim text) = false ->
   basicTextCleaning text "phone" = filter phoneChar (trim text)).
Proof.
  split; [apply name_untouched |].
  split; [apply email_untouched |].
  split; [apply address_untouched | apply phone_untouched].
Qed.

Lemma extractors_on_untouched_text_witness :
  basicTextCleaning "  Jane Doe " "name" = lit "Jane Doe" /\
  basicTextCleaning " somewhere quiet " "email" = lit "somewhere quiet" /\
  basicTextCleaning "12 Main St  " "address" = lit "12 Main St" /\
  basicTextCleaning " ext 12 (b) " "phone" = lit " 12 ()".
Proof.
  split; [| split; [| split]].
  - destruct (extractors_on_untouched_text "  Jane Doe ") as (H & _).
    apply H; reflexivity.
  - destruct (extractors_on_untouched_text " somewhere quiet ")
      as (_ & H & _).
    apply H; reflexivity.
  - destruct (extractors_on_untouched_text "12 Main St  ") as (_ & _ & H & _).
    apply H; reflexivity.
  - destruct (extractors_on_untouched_text " ext 12 (b) ") as (_ & _ & _ & H).
    apply H; reflexivity.
Defined.

(** C7 as stated fails for the phone extractor: no phone pattern
    matches "hello" and no prefix applies to it, and the result is the
    empty text. *)
Lemma phone_extractor_modifies_untouched_text :
  test false phonePatternDirect (trim "hello") = false /\
  test true phonePrefixes (trim "hello") = false /\
  test true phonePrefixes2 (trim "hello") = false /\
  basicTextCleaning "hello" "phone" = [] /\
  basicTextCleaning "hello" "phone" <> trim "hello".
Proof.
  repeat split; try reflexivity. vm_compute. discriminate.
Qed.

(** C6, as the code has it: the prefixes are anchored at the start of
    the text, where this text has "hi, ", so nothing is stripped. *)
Theorem extractName_hi_called_unchanged :
  basicTextCleaning "hi, i'm called Jane Doe" "name"
  = lit "hi, i'm called Jane Doe".
Proof.
  vm_compute. reflexivity.
Qed.

(** C6 as stated fails. *)
Lemma extractName_hi_called_not_Jane_Doe :
  basicTextCleaning "hi, i'm called Jane Doe" "name" <> lit "Jane Doe".
Proof.
  vm_compute. discriminate.
Qed.

(** Without the greeting the alternative "i'm" wins over the later
    "i'm called", and "called" stays in the name. *)
Lemma extractName_called_shadowed :
  basicTextCleaning "i'm called Jane Doe" "name" = lit "called Jane Doe".
Proof.
  vm_compute. reflexivity.
Qed.

(** The other examples of the extractors. *)
Lemma extractEmail_example :
  basicTextCleaning "you can reach me at john@example.com" "email"
  = lit "john@example.com".
Proof.
  vm_compute. reflexivity.
Qed.

Lemma extractPhone_example :
  basicTextCleaning "my phone number is 555-123-4567" "phone"
  = lit "555-123-4567".
Proof.
  vm_compute. reflexivity.
Qed.

End ExtractorProofs.

(* ================================================================== *)
(** * Whole words and the patterns of the submit intent *)
(* ================================================================== *)

Module WordProofs.

Import JS RegExp Spec.

(** ** Facts on single characters, checked on all of them *)

Ltac all_chars c :=
  destruct c as [b0 b1 b2 b3 b4 b5 b6 b7];
  destruct b0, b1, b2, b3, b4, b5, b6, b7; try reflexivity; try discriminate.

Lemma canonicalize_toLowerChar (c : ascii) :
  canonicalize (toLowerChar c) = canonicalize c.
Proof. all_chars c. Qed.

Lemma isWordChar_toLowerChar (c : ascii) :
  isWordChar (toLowerChar c) = isWordChar c.
Proof. all_chars c. Qed.

Lemma toLowerChar_idempotent (c : ascii) :
  toLowerChar (toLowerChar c) = toLowerChar c.
Proof. all_chars c. Qed.

Lemma word_is_not_space (c : ascii) :
  isWordChar c = true -> isWhiteSpace c = false.
Proof. all_chars c. Qed.

Lemma char_matches_lower (c : ascii) :
  char_matches true (toLowerChar c) c = true.
Proof.
  unfold char_matches. rewrite canonicalize_toLowerChar. apply Ascii.eqb_refl.
Qed.

(** ** The matcher on literals and alternatives *)

Lemma orelse_left (a : option mstate) (b : unit -> option mstate) :
  succeeds a -> succeeds (orelse a b).
Proof.
  unfold succeeds, orelse. destruct a; [discriminate | congruence].
Qed.

Lemma orelse_right (a : option mstate) (b : unit -> option mstate) :
  succeeds (b tt) -> succeeds (orelse a b).
Proof.
  unfold succeeds, orelse. destruct a; [discriminate | tauto].
Qed.

Lemma m_Lit (w : jsstring) :
  forall (mid : jsstring) (k : cont) (before post : list ascii)
         (caps : list (nat * jsstring)),
    toLowerCase mid = w ->
    m true (Lit w) k (MState before (mid ++ post) caps)
    = k (MState (rev mid ++ before) post caps).
Proof.
  induction w as [| p w IH]; intros mid k before post caps E.
  - destruct mid; [reflexivity | discriminate].
  - destruct mid as [| c mid]; [discriminate |].
    injection E as Ec Ew. subst p.
    cbn [Lit m]. unfold advance. cbn [remaining consumed captures app].
    rewrite char_matches_lower.
    rewrite (IH mid k (c :: before) post caps Ew).
    cbn [rev]. rewrite <- app_assoc. reflexivity.
Qed.

Lemma m_alts_Lit (ws : list jsstring) :
  forall (w mid : jsstring) (k : cont) (before post : list ascii)
         (caps : list (nat * jsstring)),
    In w ws -> toLowerCase mid = w ->
    succeeds (k (MState (rev mid ++ before) post caps)) ->
    succeeds (m true (alts (map Lit ws)) k (MState before (mid ++ post) caps)).
Proof.
  induction ws as [| x ws IH]; intros w mid k before post caps Hin E Hk.
  - contradiction.
  - destruct ws as [| y ws].
    + destruct Hin as [-> | []].
      cbn [map alts]. rewrite (m_Lit _ _ _ _ _ _ E). exact Hk.
    + change (alts (map Lit (x :: y :: ws)))
        with (Alt (Lit x) (alts (map Lit (y :: ws)))).
      cbn [m]. destruct Hin as [-> | Hin].
      * apply orelse_left. rewrite (m_Lit _ _ _ _ _ _ E). exact Hk.
      * apply orelse_right. apply (IH w); assumption.
Qed.

(** ** The search *)

Lemma search_complete (ic : bool) (r : regex) (pre : list ascii) :
  forall before rest,
    succeeds (match_at ic r (rev pre ++ before) rest) ->
    search ic r before (pre ++ rest) <> None.
Proof.
  induction pre as [| c pre IH]; intros before rest H.
  - cbn [rev app] in *. destruct rest; cbn [search];
      destruct (match_at ic r before _); try discriminate;
      exfalso; apply H; reflexivity.
  - cbn [app search].
    destruct (match_at ic r before (c :: pre ++ rest)); [discriminate |].
    apply IH. cbn [rev] in H. rewrite <- app_assoc in H. exact H.
Qed.

Lemma test_of_match_at (ic : bool) (r : regex) (pre rest : list ascii) :
  succeeds (match_at ic r (rev pre) rest) ->
  test ic r (pre ++ rest) = true.
Proof.
  intros H. unfold test, exec.
  pose proof (search_complete ic r pre [] rest) as S.
  rewrite app_nil_r in S. specialize (S H).
  destruct (search ic r [] (pre ++ rest)); [reflexivity | congruence].
Qed.

(** ** A whole word is found by the pattern \b(w1|...|wn)\b *)

Lemma isWordAt_lower (s : jsstring) :
  isWordAt (toLowerCase s) = isWordAt s.
Proof.
  destruct s as [| c s]; [reflexivity | apply isWordChar_toLowerChar].
Qed.

Lemma isWordAt_app (s t : list ascii) :
  isWordAt s = true -> isWordAt (s ++ t) = true.
Proof.
  destruct s; [discriminate | exact (fun H => H)].
Qed.

Lemma rev_toLowerCase (s : jsstring) :
  rev (toLowerCase s) = toLowerCase (rev s).
Proof.
  unfold toLowerCase. symmetry. apply map_rev.
Qed.

Lemma properWord_mid (w mid : jsstring) :
  properWord w -> toLowerCase mid = w ->
  isWordAt mid = true /\ isWordAt (rev mid) = true.
Proof.
  intros [Hs He] E. subst w. split.
  - rewrite <- isWordAt_lower. exact Hs.
  - rewrite <- isWordAt_lower, <- rev_toLowerCase. exact He.
Qed.

Lemma containsWord_test (ws : list jsstring) (w text : jsstring) :
  In w ws -> properWord w -> containsWord w text ->
  test true (wordPattern ws) text = true.
Proof.
  intros Hin Hw (pre & mid & post & -> & E & Hpre & Hpost).
  destruct (properWord_mid w mid Hw E) as [Hs He].
  apply test_of_match_at.
  unfold match_at, wordPattern. cbn [seqs m].
  unfold at_word_boundary at 1. cbn [consumed remaining].
  change (isWordAt (rev pre)) with (endsInWord pre). rewrite Hpre.
  rewrite (isWordAt_app mid post Hs). cbn [Bool.eqb negb].
  apply (m_alts_Lit ws w); [assumption | assumption |].
  cbn [consumed remaining captures].
  unfold at_word_boundary. cbn [consumed remaining].
  rewrite (isWordAt_app (rev mid) (rev pre) He).
  change (isWordAt post) with (startsInWord post). rewrite Hpost.
  cbn [Bool.eqb negb]. discriminate.
Qed.

(** ** Whole words under [toLowerCase] and [trim] *)

Lemma isWordAt_app_nonempty (s t : list ascii) :
  s <> [] -> isWordAt (s ++ t) = isWordAt s.
Proof.
  destruct s; [congruence | reflexivity].
Qed.

Lemma word_headKept (s t : list ascii) :
  isWordAt s = true -> headKept isWhiteSpace (s ++ t).
Proof.
  destruct s as [| c s]; [discriminate |].
  simpl. apply word_is_not_space.
Qed.

Lemma dropWhile_app_stop (p : ascii -> bool) (pre rest : list ascii) :
  headKept p rest -> dropWhile p (pre ++ rest) = dropWhile p pre ++ rest.
Proof.
  intros H. induction pre as [| c pre IH]; simpl.
  - destruct rest as [| d rest]; [reflexivity |].
    simpl in H. simpl. rewrite H. reflexivity.
  - destruct (p c); [exact IH | reflexivity].
Qed.

Lemma trim_around (pre mid post : jsstring) :
  isWordAt mid = true -> isWordAt (rev mid) = true ->
  trim (pre ++ mid ++ post) = trimStart pre ++ mid ++ trimEnd post.
Proof.
  intros Hs He. unfold trim.
  assert (E1 : trimStart (pre ++ mid ++ post) = trimStart pre ++ mid ++ post).
  { apply dropWhile_app_stop, word_headKept, Hs. }
  rewrite E1. unfold trimEnd at 1.
  rewrite !rev_app_distr, <- !app_assoc.
  unfold trimStart at 1.
  rewrite dropWhile_app_stop by (apply word_headKept, He).
  rewrite !rev_app_distr, !rev_involutive, <- app_assoc.
  reflexivity.
Qed.

Lemma endsInWord_trimStart (pre : jsstring) :
  endsInWord pre = false -> endsInWord (trimStart pre) = false.
Proof.
  unfold endsInWord, trimStart.
  destruct (ExtractorProofs.dropWhile_suffix isWhiteSpace pre) as [d E].
  destruct (dropWhile isWhiteSpace pre) as [| c r] eqn:D; [reflexivity |].
  intros H. rewrite E, rev_app_distr in H.
  change (isWordAt (rev (c :: r) ++ rev d) = false) in H.
  rewrite isWordAt_app_nonempty in H; [exact H |].
  simpl. destruct (rev r); discriminate.
Qed.

Lemma startsInWord_trimEnd (post : jsstring) :
  startsInWord post = false -> startsInWord (trimEnd post) = false.
Proof.
  destruct (ExtractorProofs.trimEnd_prefix post) as [d E].
  destruct (trimEnd post) as [| c r]; [reflexivity |].
  intros H. rewrite E in H. exact H.
Qed.

Lemma containsWord_trim (w text : jsstring) :
  properWord w -> containsWord w text -> containsWord w (trim text).
Proof.
  intros Hw (pre & mid & post & -> & E & Hpre & Hpost).
  destruct (properWord_mid w mid Hw E) as [Hs He].
  exists (trimStart pre), mid, (trimEnd post). repeat split.
  - apply trim_around; assumption.
  - exact E.
  - apply endsInWord_trimStart, Hpre.
  - apply startsInWord_trimEnd, Hpost.
Qed.

Lemma containsWord_toLowerCase (w text : jsstring) :
  containsWord w text -> containsWord w (toLowerCase text).
Proof.
  intros (pre & mid & post & -> & E & Hpre & Hpost).
  exists (toLowerCase pre), (toLowerCase mid), (toLowerCase post).
  repeat split.
  - unfold toLowerCase. rewrite !map_app. reflexivity.
  - rewrite <- E. unfold toLowerCase. rewrite map_map.
    apply map_ext, toLowerChar_idempotent.
  - unfold endsInWord in *.
    change (isWordAt (rev (toLowerCase pre)) = false).
    rewrite rev_toLowerCase, isWordAt_lower. exact Hpre.
  - change (isWordAt (toLowerCase post) = false).
    rewrite isWordAt_lower. exact Hpost.
Qed.

Lemma containsWord_truthy (w text : jsstring) :
  properWord w -> containsWord w text -> truthy (trim text) = true.
Proof.
  intros Hw (pre & mid & post & -> & E & _).
  destruct (properWord_mid w mid Hw E) as [Hs He].
  rewrite (trim_around pre mid post Hs He).
  destruct mid as [| c mid]; [discriminate |].
  destruct (trimStart pre); reflexivity.
Qed.

Lemma truthy_of_trim (s : jsstring) : truthy (trim s) = true -> truthy s = true.
Proof.
  destruct s; [discriminate | reflexivity].
Qed.

Lemma submitWord_proper (w : jsstring) : In w submitWordList -> properWord w.
Proof.
  unfold submitWordList. simpl.
  intros [<- | [<- | [<- | [<- | [<- | []]]]]]; split; reflexivity.
Qed.

Lemma localSubmitWord_is_submitWord (w : jsstring) :
  In w localSubmitWords -> In w submitWordList.
Proof.
  unfold localSubmitWords, submitWordList. simpl. tauto.
Qed.

(** The route finds each of the five words. *)
Lemma route_finds_submit (w text : jsstring) :
  In w submitWordList -> containsWord w text ->
  test true Route.submitPattern text = true.
Proof.
  intros Hin Hc.
  change Route.submitPattern with (wordPattern submitWordList).
  apply (containsWord_test submitWordList w);
    [assumption | apply submitWord_proper; assumption | assumption].
Qed.

(** The component finds submit, send and done. *)
Lemma component_finds_submit (w text : jsstring) :
  In w localSubmitWords -> containsWord w text ->
  test true VoiceInput.submitPattern (trim (toLowerCase text)) = true.
Proof.
  intros Hin Hc.
  pose proof (submitWord_proper w (localSubmitWord_is_submitWord w Hin)) as Hw.
  change VoiceInput.submitPattern with (wordPattern localSubmitWords).
  apply (containsWord_test localSubmitWords w); [assumption | assumption |].
  apply containsWord_trim; [assumption |].
  apply containsWord_toLowerCase; assumption.
Qed.

End WordProofs.

(* ================================================================== *)
(** * The pipeline, end to end *)
(* ================================================================== *)

Module PipelineProofs.

Import JS RegExp Spec.
Import VoiceInput Pipeline.

Lemma processVoiceInput_basic (useAI : bool) (text : jsstring) (st : State) :
  truthy (trim text) = true ->
  fst (processVoiceInput useAI NoResponse text st) = [analyzeVoiceInput text].
Proof.
  intros H. unfold processVoiceInput. rewrite H. cbn [negb].
  destruct useAI; reflexivity.
Qed.

Lemma processVoiceInput_submit
      (data : Route.Analysis) (text : jsstring) (st : State) :
  truthy (trim text) = true -> submitDetected data = true ->
  fst (processVoiceInput true (Answered true (Some data)) text st)
  = [submitOf text].
Proof.
  intros H Hs. unfold processVoiceInput. rewrite H, Hs. reflexivity.
Qed.

Lemma analyzeVoiceInput_submit (text : jsstring) :
  test true submitPattern (trim (toLowerCase text)) = true ->
  analyzeVoiceInput text = submitOf text.
Proof.
  intros H. unfold analyzeVoiceInput. rewrite H. reflexivity.
Qed.

Lemma PATCH_submit (JSON_parse : jsstring -> option Route.Analysis)
      (env : Route.Env) (remote : Route.RemoteOutcome)
      (text : jsstring) (field : option jsstring) (srv : Route.RateLimitState) :
  truthy text = true -> test true Route.submitPattern text = true ->
  Route.PATCH JSON_parse env remote (Route.Parsed (Some text) field) srv
  = (Route.json (Route.AnalysisBody Route.submitDetected), srv).
Proof.
  intros Ht Hs. unfold Route.PATCH, Route.validText. rewrite Ht, Hs.
  reflexivity.
Qed.

(** C2, as the code has it. For an utterance that contains submit, send
    or done as a whole word, in any mix of cases, the pipeline hands over
    exactly one understanding, with intent submit and no detected fields,
    whether AI is enabled or not, whatever becomes of the request and
    whatever the rate limit state and the backend do.  For finish and
    complete the same holds when AI is enabled and the answer of the route
    arrives. *)
Theorem submit_word_gives_submit
        (w text : jsstring)
        (JSON_parse : jsstring -> option Route.Analysis)
        (useAI : bool) (delivery : Delivery)
        (env : Route.Env) (remote : Route.RemoteOutcome)
        (st : State) (srv : Route.RateLimitState) :
  In w submitWordList -> containsWord w text ->
  In w localSubmitWords \/ (useAI = true /\ delivery = Delivered) ->
  understandings (run JSON_parse useAI delivery env remote text st srv)
  = [submitOf text].
Proof.
  intros Hin Hc Hcase.
  pose proof (WordProofs.submitWord_proper w Hin) as Hw.
  pose proof (WordProofs.containsWord_truthy w text Hw Hc) as Htrim.
  pose proof (WordProofs.truthy_of_trim text Htrim) as Htext.
  pose proof (WordProofs.route_finds_submit w text Hin Hc) as Hroute.
  unfold understandings, run. rewrite Htrim.
  destruct Hcase as [Hlocal | [-> ->]].
  - pose proof (analyzeVoiceInput_submit text
                  (WordProofs.component_finds_submit w text Hlocal Hc)) as Ha.
    destruct useAI; cbn [andb].
    + rewrite (PATCH_submit JSON_parse env remote text None srv Htext Hroute).
      destruct delivery; cbn [fst].
      * rewrite processVoiceInput_basic by assumption. rewrite Ha. reflexivity.
      * rewrite processVoiceInput_basic by assumption. rewrite Ha. reflexivity.
      * apply processVoiceInput_submit; [assumption | reflexivity].
    + cbn [fst]. rewrite processVoiceInput_basic by assumption.
      rewrite Ha. reflexivity.
  - cbn [andb].
    rewrite (PATCH_submit JSON_parse env remote text None srv Htext Hroute).
    cbn [fst]. apply processVoiceInput_submit; [assumption | reflexivity].
Qed.

Lemma submit_word_gives_submit_witness :
  understandings
    (run neverParses false Lost sampleEnv Route.FetchRejected
         (lit "ok, I'm DONE.") sampleState Route.rateLimitState)
  = [submitOf (lit "ok, I'm DONE.")].
Proof.
  apply (submit_word_gives_submit (lit "done")).
  - simpl. tauto.
  - exists (lit "ok, I'm "), (lit "DONE"), (lit ".").
    repeat split.
  - left. simpl. tauto.
Defined.

(** C2 as stated fails: "finish" is one of the five words, and with AI
    disabled the understanding has intent unknown. *)
Lemma finish_without_AI_is_unknown :
  containsSubmitWord (lit "finish") /\
  understandings
    (run neverParses false Delivered sampleEnv Route.FetchRejected
         (lit "finish") sampleState Route.rateLimitState)
  = [unknownOf (lit "finish")] /\
  understandings
    (run neverParses false Delivered sampleEnv Route.FetchRejected
         (lit "finish") sampleState Route.rateLimitState)
  <> [submitOf (lit "finish")].
Proof.
  split; [| split].
  - exists (lit "finish"). split; [simpl; tauto |].
    exists [], (lit "finish"), []. repeat split.
  - vm_compute. reflexivity.
  - vm_compute. discriminate.
Qed.

(** C1, as the code has it. With AI disabled the component only looks
    for the submit and clear intents: for the utterance "my name is Bob
    and my email is bob@x.com" the pipeline hands over exactly one
    understanding, with intent unknown and no detected fields. *)
Theorem bob_without_AI_is_unknown
        (JSON_parse : jsstring -> option Route.Analysis)
        (delivery : Delivery) (env : Route.Env) (remote : Route.RemoteOutcome)
        (st : State) (srv : Route.RateLimitState) :
  understandings (run JSON_parse false delivery env remote bobText st srv)
  = [unknownOf bobText].
Proof.
  unfold understandings, run. cbn [andb fst].
  rewrite processVoiceInput_basic by reflexivity.
  vm_compute. reflexivity.
Qed.

(** C1 as stated fails. *)
Lemma bob_without_AI_no_fields :
  understandings
    (run neverParses false Delivered sampleEnv Route.FetchRejected
         bobText sampleState Route.rateLimitState)
  <> [{| intent := provide_info;
         detectedFields :=
           [{| field := Name; value := lit "Bob"; confidence := 8 # 10 |};
            {| field := Email; value := lit "bob@x.com";
               confidence := 9 # 10 |}];
         originalText := bobText |}].
Proof.
  vm_compute. discriminate.
Qed.

(** The same utterance through the regex fallback of the route (AI
    enabled in the component, no API key in the route): the name runs on
    to the first of , . ? ! *)
Lemma bob_through_regex_fallback :
  understandings
    (run neverParses true Delivered
         {| Route.apiKey := None; Route.checkTime := 0; Route.doneTime := 0;
            Route.random := 0 |}
         Route.FetchRejected bobText sampleState Route.rateLimitState)
  = [{| intent := provide_info;
        detectedFields :=
          [{| field := Name; value := lit "Bob and my email is bob@x";
              confidence := 8 # 10 |};
           {| field := Email; value := lit "bob@x.com";
              confidence := 9 # 10 |}];
        originalText := bobText |}].
Proof.
  vm_compute. reflexivity.
Qed.

End PipelineProofs.

(* ================================================================== *)
(** * What a match is made of *)
(* ================================================================== *)

Module MatcherProofs.

Import JS RegExp Spec.

Lemma reaches_refl (P : ascii -> bool) (st : mstate) : reaches P st st.
Proof.
  exists []. repeat split. constructor.
Qed.

Lemma reaches_trans (P : ascii -> bool) (a b c : mstate) :
  reaches P a b -> reaches P b c -> reaches P a c.
Proof.
  intros (x & Px & Cx & Rx) (y & Py & Cy & Ry).
  exists (x ++ y). repeat split.
  - apply Forall_app. split; assumption.
  - rewrite Cy, Cx, rev_app_distr, app_assoc. reflexivity.
  - rewrite Rx, Ry, app_assoc. reflexivity.
Qed.

Lemma reaches_captures (P : ascii -> bool) (st st' : mstate)
      (caps : list (nat * jsstring)) :
  reaches P st st' -> reaches P st (MState (consumed st') (remaining st') caps).
Proof.
  intros (x & Px & Cx & Rx). exists x. repeat split; assumption.
Qed.

Lemma advance_sound (P : ascii -> bool) (p : ascii -> bool) (k : cont)
      (st fin : mstate) :
  (forall c, p c = true -> P c = true) ->
  advance p k st = Some fin ->
  exists st', reaches P st st' /\ k st' = Some fin.
Proof.
  intros HP H. unfold advance in H.
  destruct (remaining st) as [| c rest] eqn:R; [discriminate |].
  destruct (p c) eqn:E; [| discriminate].
  eexists. split; [| exact H].
  exists [c]. repeat split.
  - constructor; [apply HP, E | constructor].
  - exact R.
Qed.

(** Whatever the regex, a successful run hands to its continuation a
    state further on in the same input. *)
Lemma m_sound (ic : bool) (P : ascii -> bool) (r : regex) :
  acceptsOnly ic P r ->
  forall (k : cont) (st fin : mstate),
    m ic r k st = Some fin ->
    exists st', reaches P st st' /\ k st' = Some fin.
Proof.
  induction r as [| p | neg items | r1 IH1 r2 IH2 | r1 IH1 r2 IH2 | r1 IH1
                  | i r1 IH1 | | |]; intros A k st fin H; cbn [m] in H.
  - exists st. split; [apply reaches_refl | exact H].
  - apply (advance_sound P _ k st fin A H).
  - apply (advance_sound P _ k st fin A H).
  - destruct A as [A1 A2].
    destruct (IH1 A1 _ _ _ H) as (st1 & R1 & H1).
    destruct (IH2 A2 _ _ _ H1) as (st2 & R2 & H2).
    exists st2. split; [exact (reaches_trans P _ _ _ R1 R2) | exact H2].
  - destruct A as [A1 A2]. unfold orelse in H.
    destruct (m ic r1 k st) eqn:E.
    + injection H as <-. apply (IH1 A1 _ _ _ E).
    + apply (IH2 A2 _ _ _ H).
  - cbn [acceptsOnly] in A.
    revert H. generalize (length (remaining st)). intros fuel. revert st.
    induction fuel as [| fuel IHf]; intros st H.
    + exists st. split; [apply reaches_refl | exact H].
    + unfold orelse in H.
      match type of H with
      | match ?x with _ => _ end = _ => destruct x eqn:E
      end.
      * injection H as <-.
        destruct (IH1 A _ _ _ E) as (st1 & R1 & H1).
        destruct (Nat.eqb (length (remaining st1)) (length (remaining st)));
          [discriminate |].
        destruct (IHf st1 H1) as (st2 & R2 & H2).
        exists st2. split; [exact (reaches_trans P _ _ _ R1 R2) | exact H2].
      * exists st. split; [apply reaches_refl | exact H].
  - cbn [acceptsOnly] in A.
    destruct (IH1 A _ _ _ H) as (st1 & R1 & H1).
    eexists. split; [| exact H1].
    apply reaches_captures. exact R1.
  - destruct (consumed st); [| discriminate].
    exists st. split; [apply reaches_refl | exact H].
  - destruct (remaining st); [| discriminate].
    exists st. split; [apply reaches_refl | exact H].
  - destruct (at_word_boundary st); [| discriminate].
    exists st. split; [apply reaches_refl | exact H].
Qed.

Lemma span_of_reaches (P : ascii -> bool) (st fin : mstate) (added : list ascii) :
  consumed fin = rev added ++ consumed st -> span st fin = added.
Proof.
  intros C. unfold span. rewrite C, length_app, length_rev.
  replace (length added + length (consumed st) - length (consumed st))%nat
    with (length (rev added) + 0)%nat by (rewrite length_rev; lia).
  rewrite firstn_app_2. cbn [firstn]. rewrite app_nil_r. apply rev_involutive.
Qed.

(** One attempt: the match is the text passed over, the rest follows. *)
Lemma match_at_sound (ic : bool) (P : ascii -> bool) (r : regex)
      (before rest : list ascii) (fin : mstate) :
  acceptsOnly ic P r -> match_at ic r before rest = Some fin ->
  Forall (fun c => P c = true) (span (MState before rest []) fin) /\
  rest = span (MState before rest []) fin ++ remaining fin.
Proof.
  intros A H. unfold match_at in H.
  destruct (m_sound ic P r A _ _ _ H) as (st' & (added & Pa & C & R) & E).
  injection E as ->. cbn [consumed remaining] in C, R.
  rewrite (span_of_reaches P (MState before rest []) fin added C).
  split; assumption.
Qed.

(** A search that finds a match found it by an attempt at some
    position. *)
Lemma search_found (ic : bool) (r : regex) (rest : list ascii) :
  forall (before : list ascii) (res : match_result),
    search ic r before rest = Some res ->
    exists pre rest' fin,
      rest = pre ++ rest' /\
      match_at ic r (rev pre ++ before) rest' = Some fin /\
      before_match res = rev before ++ pre /\
      matched res = span (MState (rev pre ++ before) rest' []) fin /\
      after_match res = remaining fin.
Proof.
  induction rest as [| c rest IH]; intros before res H; cbn [search] in H.
  - destruct (match_at ic r before []) as [fin |] eqn:E; [| discriminate].
    injection H as <-. exists [], [], fin. cbn [rev app].
    rewrite app_nil_r. repeat split; assumption.
  - destruct (match_at ic r before (c :: rest)) as [fin |] eqn:E.
    + injection H as <-. exists [], (c :: rest), fin. cbn [rev app].
      rewrite app_nil_r. repeat split; assumption.
    + destruct (IH (c :: before) res H) as (pre & rest' & fin & R & M & B & Mt & Af).
      exists (c :: pre), rest', fin. cbn [rev app].
      rewrite <- app_assoc. cbn [app].
      repeat split; try assumption.
      * rewrite R. reflexivity.
      * rewrite B. cbn [rev]. rewrite <- app_assoc. reflexivity.
Qed.

(** [exec]: the text is what lies before the match, the match and what
    lies after it; the match is made of characters that the regex
    accepts. *)
Lemma exec_sound (ic : bool) (P : ascii -> bool) (r : regex)
      (s : jsstring) (res : match_result) :
  acceptsOnly ic P r -> exec ic r s = Some res ->
  s = before_match res ++ matched res ++ after_match res /\
  Forall (fun c => P c = true) (matched res).
Proof.
  intros A H. unfold exec in H.
  destruct (search_found ic r s [] res H)
    as (pre & rest' & fin & R & M & B & Mt & Af).
  destruct (match_at_sound ic P r _ _ fin A M) as [F D].
  rewrite B, Mt, Af. cbn [rev app]. split; [| exact F].
  rewrite R. f_equal. exact D.
Qed.

Lemma acceptsOnly_any (ic : bool) (r : regex) : acceptsOnly ic anyChar r.
Proof.
  induction r; cbn [acceptsOnly]; try exact I; try tauto;
    intros; reflexivity.
Qed.

Lemma exec_parts (ic : bool) (r : regex) (s : jsstring) (res : match_result) :
  exec ic r s = Some res ->
  s = before_match res ++ matched res ++ after_match res.
Proof.
  intros H. apply (exec_sound ic anyChar r s res (acceptsOnly_any ic r) H).
Qed.

(** A regex that starts with ^ only matches at the start of the text. *)
Lemma exec_anchored (ic : bool) (r : regex) (s : jsstring) (res : match_result) :
  exec ic (Seq Bol r) s = Some res -> before_match res = [].
Proof.
  intros H. unfold exec in H.
  destruct (search_found ic (Seq Bol r) s [] res H)
    as (pre & rest' & fin & R & M & B & _).
  rewrite B. cbn [rev app].
  destruct pre as [| c pre]; [reflexivity |].
  exfalso. unfold match_at in M. cbn [m consumed] in M.
  rewrite app_nil_r in M. cbn [rev] in M.
  destruct (rev pre); discriminate.
Qed.

(** Deleting the match of an anchored regex leaves the end of the text. *)
Lemma replace_anchored (ic : bool) (r : regex) (s : jsstring) :
  exists dropped, s = dropped ++ replace ic (Seq Bol r) [] s.
Proof.
  unfold replace. destruct (exec ic (Seq Bol r) s) as [res |] eqn:E.
  - pose proof (exec_parts ic _ s res E) as D.
    rewrite (exec_anchored ic r s res E) in *. cbn [app] in *.
    exists (matched res). exact D.
  - exists []. reflexivity.
Qed.

End MatcherProofs.

(* ================================================================== *)
(** * The word patterns find whole words only *)
(* ================================================================== *)

Module WordConverse.

Import JS RegExp Spec.
Import WordProofs MatcherProofs.

Lemma toLowerChar_canonicalize (c : ascii) :
  toLowerChar (canonicalize c) = toLowerChar c.
Proof. all_chars c. Qed.

Lemma space_is_not_word (c : ascii) :
  isWhiteSpace c = true -> isWordChar c = false.
Proof. all_chars c. Qed.

Lemma char_matches_lower_inv (p c : ascii) :
  char_matches true p c = true -> toLowerChar p = p -> toLowerChar c = p.
Proof.
  unfold char_matches. intros E L. apply Ascii.eqb_eq in E.
  rewrite <- (toLowerChar_canonicalize c), <- E, toLowerChar_canonicalize.
  exact L.
Qed.

Lemma m_Lit_inv (w : jsstring) :
  forall (k : cont) (st fin : mstate),
    toLowerCase w = w ->
    m true (Lit w) k st = Some fin ->
    exists mid post,
      remaining st = mid ++ post /\ toLowerCase mid = w /\
      k (MState (rev mid ++ consumed st) post (captures st)) = Some fin.
Proof.
  induction w as [| p w IH]; intros k st fin L H.
  - exists [], (remaining st). destruct st. repeat split. exact H.
  - injection L as Lp Lw. cbn [Lit m] in H. unfold advance in H.
    destruct (remaining st) as [| c rest] eqn:R; [discriminate |].
    destruct (char_matches true p c) eqn:E; [| discriminate].
    destruct (IH _ _ _ Lw H) as (mid & post & Rm & Em & Hk).
    cbn [remaining consumed captures] in Rm, Hk.
    exists (c :: mid), post. repeat split.
    + rewrite Rm. reflexivity.
    + cbn [toLowerCase map]. f_equal; [| exact Em].
      apply char_matches_lower_inv; assumption.
    + cbn [rev]. rewrite <- app_assoc. exact Hk.
Qed.

Lemma m_alts_Lit_inv (ws : list jsstring) :
  forall (k : cont) (st fin : mstate),
    ws <> [] -> Forall (fun w => toLowerCase w = w) ws ->
    m true (alts (map Lit ws)) k st = Some fin ->
    exists w mid post,
      In w ws /\ remaining st = mid ++ post /\ toLowerCase mid = w /\
      k (MState (rev mid ++ consumed st) post (captures st)) = Some fin.
Proof.
  induction ws as [| x ws IH]; intros k st fin Hne L H; [congruence |].
  inversion L as [| ? ? Lx Lws]; subst.
  destruct ws as [| y ws].
  - cbn [map alts] in H.
    destruct (m_Lit_inv x k st fin Lx H) as (mid & post & R & E & Hk).
    exists x, mid, post. repeat split; try assumption. left. reflexivity.
  - change (alts (map Lit (x :: y :: ws)))
      with (Alt (Lit x) (alts (map Lit (y :: ws)))) in H.
    cbn [m] in H. unfold orelse in H.
    destruct (m true (Lit x) k st) as [fin' |] eqn:E.
    + injection H as <-.
      destruct (m_Lit_inv x k st fin' Lx E) as (mid & post & R & Em & Hk).
      exists x, mid, post. repeat split; try assumption. left. reflexivity.
    + destruct (IH k st fin ltac:(discriminate) Lws H)
        as (w & mid & post & Hin & R & Em & Hk).
      exists w, mid, post. repeat split; try assumption. right. exact Hin.
Qed.

Lemma goodWords_lower (ws : list jsstring) :
  goodWords ws -> Forall (fun w => toLowerCase w = w) ws.
Proof.
  apply Forall_impl. tauto.
Qed.

Lemma goodWords_proper (ws : list jsstring) (w : jsstring) :
  goodWords ws -> In w ws -> properWord w.
Proof.
  intros G Hin. unfold goodWords in G. rewrite Forall_forall in G.
  apply (G w Hin).
Qed.

Lemma negb_eqb_true_r (a : bool) : negb (Bool.eqb a true) = true -> a = false.
Proof. destruct a; [discriminate | reflexivity]. Qed.

Lemma negb_eqb_true_l (b : bool) : negb (Bool.eqb true b) = true -> b = false.
Proof. destruct b; [discriminate | reflexivity]. Qed.

(** A match of \b(w1|...|wn)\b at some position is a whole word. *)
Lemma wordPattern_match (ws : list jsstring) (pre rest : list ascii)
      (fin : mstate) :
  ws <> [] -> goodWords ws ->
  match_at true (wordPattern ws) (rev pre) rest = Some fin ->
  containsOneOf ws (pre ++ rest).
Proof.
  intros Hne G H. unfold match_at, wordPattern in H. cbn [seqs m] in H.
  destruct (at_word_boundary (MState (rev pre) rest [])) eqn:B1;
    [| discriminate].
  destruct (m_alts_Lit_inv ws _ _ fin Hne (goodWords_lower ws G) H)
    as (w & mid & post & Hin & R & E & Hk).
  cbn [consumed remaining captures] in R, Hk.
  destruct (at_word_boundary
              (MState (rev mid ++ rev pre) post
                 [(1%nat, span (MState (rev pre) rest [])
                            (MState (rev mid ++ rev pre) post []))]))
    eqn:B2; [| discriminate].
  destruct (properWord_mid w mid (goodWords_proper ws w G Hin) E) as [Hs He].
  unfold at_word_boundary in B1, B2. cbn [consumed remaining] in B1, B2.
  subst rest.
  rewrite (isWordAt_app mid post Hs) in B1.
  rewrite (isWordAt_app (rev mid) (rev pre) He) in B2.
  exists w. split; [exact Hin |].
  exists pre, mid, post. repeat split.
  - exact E.
  - apply negb_eqb_true_r. exact B1.
  - apply negb_eqb_true_l. exact B2.
Qed.

Lemma test_found (ic : bool) (r : regex) (s : jsstring) :
  test ic r s = true ->
  exists pre rest fin,
    s = pre ++ rest /\ match_at ic r (rev pre) rest = Some fin.
Proof.
  unfold test, exec. intros H.
  destruct (search ic r [] s) as [res |] eqn:E; [| discriminate].
  destruct (search_found ic r s [] res E) as (pre & rest & fin & R & M & _).
  rewrite app_nil_r in M. exists pre, rest, fin. split; assumption.
Qed.

(** The pattern finds a text exactly when the text contains one of the
    words as a whole word. *)
Lemma wordPattern_iff (ws : list jsstring) (text : jsstring) :
  ws <> [] -> goodWords ws ->
  test true (wordPattern ws) text = true <-> containsOneOf ws text.
Proof.
  intros Hne G. split.
  - intros H. destruct (test_found true _ text H) as (pre & rest & fin & -> & M).
    apply (wordPattern_match ws pre rest fin Hne G M).
  - intros (w & Hin & Hc).
    apply (containsWord_test ws w text Hin (goodWords_proper ws w G Hin) Hc).
Qed.

Lemma submitWordList_good : goodWords submitWordList.
Proof. repeat constructor. Qed.

Lemma localSubmitWords_good : goodWords localSubmitWords.
Proof. repeat constructor. Qed.

Lemma clearWords_good : goodWords clearWords.
Proof. repeat constructor. Qed.

(** ** Whole words of the text and of its trimmed lower case *)

Lemma dropWhile_split (p : ascii -> bool) (s : jsstring) :
  exists d, s = d ++ dropWhile p s /\ Forall (fun c => p c = true) d.
Proof.
  induction s as [| c s (d & E & F)]; cbn [dropWhile].
  - exists []. split; [reflexivity | constructor].
  - destruct (p c) eqn:Pc.
    + exists (c :: d). split; [cbn [app]; f_equal; exact E |].
      constructor; assumption.
    + exists []. split; [reflexivity | constructor].
Qed.

Lemma trim_split (s : jsstring) :
  exists d1 d2, s = d1 ++ trim s ++ d2 /\ blank d1 /\ blank d2.
Proof.
  unfold trim, trimEnd, trimStart.
  destruct (dropWhile_split isWhiteSpace s) as (d1 & E1 & F1).
  destruct (dropWhile_split isWhiteSpace (rev (dropWhile isWhiteSpace s)))
    as (d2 & E2 & F2).
  exists d1, (rev d2). repeat split.
  - rewrite <- rev_app_distr, <- E2, rev_involutive. exact E1.
  - exact F1.
  - apply Forall_rev. exact F2.
Qed.

Lemma blank_not_word (d : jsstring) : blank d -> isWordAt d = false.
Proof.
  intros F. destruct d as [| c d]; [reflexivity |].
  inversion F; subst. apply space_is_not_word. assumption.
Qed.

Lemma endsInWord_behind_blank (d pre : jsstring) :
  blank d -> endsInWord pre = false -> endsInWord (d ++ pre) = false.
Proof.
  intros F H. unfold endsInWord in *. rewrite rev_app_distr.
  change (isWordAt (rev pre ++ rev d) = false).
  destruct (rev pre) as [| c r] eqn:R.
  - apply blank_not_word, Forall_rev, F.
  - exact H.
Qed.

Lemma startsInWord_before_blank (d post : jsstring) :
  blank d -> startsInWord post = false -> startsInWord (post ++ d) = false.
Proof.
  intros F H. destruct post as [| c r].
  - apply (blank_not_word d F).
  - exact H.
Qed.

Lemma containsWord_of_trim (w text : jsstring) :
  containsWord w (trim text) -> containsWord w text.
Proof.
  intros (pre & mid & post & T & E & Hpre & Hpost).
  destruct (trim_split text) as (d1 & d2 & D & F1 & F2).
  exists (d1 ++ pre), mid, (post ++ d2). repeat split.
  - rewrite D, T, <- !app_assoc. reflexivity.
  - exact E.
  - apply endsInWord_behind_blank; assumption.
  - apply startsInWord_before_blank; assumption.
Qed.

Lemma containsWord_of_toLowerCase (w text : jsstring) :
  containsWord w (toLowerCase text) -> containsWord w text.
Proof.
  intros (pre & mid & post & T & E & Hpre & Hpost).
  unfold toLowerCase in T.
  apply map_eq_app in T. destruct T as (s1 & s23 & -> & M1 & M23).
  apply map_eq_app in M23. destruct M23 as (s2 & s3 & -> & M2 & M3).
  exists s1, s2, s3. repeat split.
  - rewrite <- E, <- M2. unfold toLowerCase. rewrite map_map.
    apply map_ext. intros c. symmetry. apply toLowerChar_idempotent.
  - rewrite <- Hpre, <- M1. unfold endsInWord.
    change (isWordAt (rev s1) = isWordAt (rev (toLowerCase s1))).
    rewrite rev_toLowerCase, isWordAt_lower. reflexivity.
  - rewrite <- Hpost, <- M3.
    change (isWordAt s3 = isWordAt (toLowerCase s3)).
    rewrite isWordAt_lower. reflexivity.
Qed.

Lemma containsOneOf_normalized (ws : list jsstring) (text : jsstring) :
  goodWords ws ->
  containsOneOf ws (trim (toLowerCase text)) <-> containsOneOf ws text.
Proof.
  intros G. split; intros (w & Hin & Hc); exists w; (split; [exact Hin |]).
  - apply containsWord_of_toLowerCase, containsWord_of_trim, Hc.
  - apply containsWord_trim; [apply (goodWords_proper ws w G Hin) |].
    apply containsWord_toLowerCase, Hc.
Qed.

(** The test of the component on the normalized text. *)
Lemma component_test_iff (ws : list jsstring) (text : jsstring) :
  ws <> [] -> goodWords ws ->
  test true (wordPattern ws) (trim (toLowerCase text)) = true
  <-> containsOneOf ws text.
Proof.
  intros Hne G.
  rewrite (wordPattern_iff ws _ Hne G). apply containsOneOf_normalized, G.
Qed.

End WordConverse.

(* ================================================================== *)
(** * More on the route: when the backend is called and what it costs *)
(* ================================================================== *)

Module RouteMore.

Import JS RegExp Route Spec.
Import RateLimitProofs.

Lemma isRateLimited_true_state (now : Z) (s : RateLimitState) :
  fst (isRateLimited now s) = true -> isRateLimited now s = (true, s).
Proof.
  unfold isRateLimited.
  destruct (inCooldown s); [destruct (Qgtb _ _) |]; simpl;
    congruence.
Qed.

Lemma isRateLimited_pair (now : Z) (s : RateLimitState) :
  isRateLimited now s
  = (fst (isRateLimited now s), snd (isRateLimited now s)).
Proof. destruct (isRateLimited now s); reflexivity. Qed.

(** The answer of a request that is held back. *)
Lemma blocked_request
        (JSON_parse : jsstring -> option Analysis) (env : Env)
        (text field : jsstring) (pfield : option jsstring)
        (s : RateLimitState) (remote : RemoteOutcome) :
  truthy text = true ->
  validField (Some field) = Some field ->
  configured env = false \/ fst (isRateLimited (checkTime env) s) = true ->
  POST env remote (Parsed (Some text) (Some field)) s
  = (json (SanitizeBody (basicTextCleaning text field) false), s) /\
  PATCH JSON_parse env remote (Parsed (Some text) pfield) s
  = (localAnalysis text, s).
Proof.
  intros Ht Hf Hb. unfold PATCH, POST, validText, localAnalysis.
  rewrite Ht, Hf.
  destruct (configured env) eqn:K.
  - destruct Hb as [Hb | Hb]; [discriminate |].
    rewrite (isRateLimited_true_state _ _ Hb).
    destruct (test true submitPattern text); split; reflexivity.
  - destruct (test true submitPattern text); split; reflexivity.
Qed.

Lemma localAnalysis_not_fromAI (text : jsstring) :
  ~ saysFromAI (localAnalysis text).
Proof.
  unfold localAnalysis, saysFromAI.
  destruct (test true submitPattern text); cbn; discriminate.
Qed.

(** X1. Without an API key, or while the cool-down lasts, [POST] and
    [PATCH] do not look at the backend at all: whatever the remote call
    would come to, the rate limit state is the one from before the
    request and the answer is the local one, for every text.  For
    [POST] that is the result of [basicTextCleaning]; for [PATCH] it is
    the short cut [submitDetected] when the text has a submit word and
    the result of [processWithRegex] when it has none.  Neither answer
    says that it comes from the AI. *)
Theorem no_remote_call_when_blocked
        (JSON_parse : jsstring -> option Analysis) (env : Env)
        (text field : jsstring) (pfield : option jsstring)
        (s : RateLimitState) (remote : RemoteOutcome) :
  truthy text = true ->
  validField (Some field) = Some field ->
  configured env = false \/ fst (isRateLimited (checkTime env) s) = true ->
  (POST env remote (Parsed (Some text) (Some field)) s
   = (json (SanitizeBody (basicTextCleaning text field) false), s) /\
   PATCH JSON_parse env remote (Parsed (Some text) pfield) s
   = (if test true submitPattern text
      then json (AnalysisBody submitDetected)
      else processWithRegex text, s))
  /\
  ~ saysFromAI (fst (POST env remote (Parsed (Some text) (Some field)) s)) /\
  ~ saysFromAI (fst (PATCH JSON_parse env remote
                           (Parsed (Some text) pfield) s)).
Proof.
  intros Ht Hf Hb.
  destruct (blocked_request JSON_parse env text field pfield s remote
              Ht Hf Hb) as [HP HQ].
  split; [split; [exact HP | exact HQ] |].
  rewrite HP, HQ. split.
  - cbn. discriminate.
  - apply localAnalysis_not_fromAI.
Qed.

Lemma no_remote_call_when_blocked_witness :
  (POST sampleEnv (Replied 200 (Text (lit "Robert")))
        (Parsed (Some (lit "send it to bob@x.com")) (Some (lit "email")))
        coolingState
   = (json (SanitizeBody (lit "bob@x.com") false), coolingState) /\
   PATCH neverParses sampleEnv (Replied 200 (Text (lit "Robert")))
         (Parsed (Some (lit "send it to bob@x.com")) None) coolingState
   = (json (AnalysisBody submitDetected), coolingState))
  /\
  PATCH neverParses sampleEnv (Replied 200 (Text (lit "Robert")))
        (Parsed (Some (lit "my name is Bob")) None) coolingState
  = (processWithRegex "my name is Bob", coolingState).
Proof.
  split.
  - apply (no_remote_call_when_blocked neverParses sampleEnv
             "send it to bob@x.com" "email" None coolingState
             (Replied 200 (Text (lit "Robert"))) eq_refl eq_refl
             (or_intror eq_refl)).
  - apply (no_remote_call_when_blocked neverParses sampleEnv
             "my name is Bob" "name" None coolingState
             (Replied 200 (Text (lit "Robert"))) eq_refl eq_refl
             (or_intror eq_refl)).
Defined.

(** The status of the answer to a request with a text and a field. *)
Lemma valid_request_200
        (JSON_parse : jsstring -> option Analysis) (env : Env)
        (text field : jsstring) (s : RateLimitState) (remote : RemoteOutcome) :
  truthy text = true ->
  validField (Some field) = Some field ->
  status (fst (PATCH JSON_parse env remote (Parsed (Some text) (Some field)) s))
  = 200%Z /\
  status (fst (POST env remote (Parsed (Some text) (Some field)) s)) = 200%Z.
Proof.
  intros Ht Hf. unfold PATCH, POST, validText. rewrite Ht, Hf. split.
  - destruct (test true submitPattern text); [reflexivity |].
    destruct (configured env); [| reflexivity].
    rewrite isRateLimited_pair.
    destruct (fst (isRateLimited (checkTime env) s)); [reflexivity |].
    destruct remote as [| st b]; [reflexivity |].
    destruct (ok st); cbn [negb].
    + destruct b as [| | t]; try reflexivity.
      destruct (truthy t); [| reflexivity].
      destruct (JSON_parse _); reflexivity.
    + destruct (st =? 429)%Z; reflexivity.
  - destruct (configured env); [| reflexivity].
    rewrite isRateLimited_pair.
    destruct (fst (isRateLimited (checkTime env) s)); [reflexivity |].
    destruct remote as [| st b]; [reflexivity |].
    destruct (ok st); cbn [negb].
    + destruct b as [| | t]; try reflexivity.
      destruct (truthy (if truthy t then trim t else [])); reflexivity.
    + destruct (st =? 429)%Z; reflexivity.
Qed.

(** X2. A request with a text (and, for [POST], one of the four
    fields) is always answered with status 200: no failure of the
    backend and no rate limit turns into an error of the route. *)
Theorem valid_request_is_answered_200
        (JSON_parse : jsstring -> option Analysis) (env : Env)
        (text field : jsstring) (s : RateLimitState) (remote : RemoteOutcome) :
  truthy text = true ->
  validField (Some field) = Some field ->
  status (fst (PATCH JSON_parse env remote (Parsed (Some text) (Some field)) s))
  = 200%Z /\
  status (fst (POST env remote (Parsed (Some text) (Some field)) s)) = 200%Z.
Proof.
  apply valid_request_200.
Qed.

Lemma valid_request_is_answered_200_witness :
  status (fst (PATCH neverParses sampleEnv FetchRejected
                 (Parsed (Some (lit "hello")) (Some (lit "email")))
                 rateLimitState)) = 200%Z /\
  status (fst (POST sampleEnv FetchRejected
                 (Parsed (Some (lit "hello")) (Some (lit "email")))
                 rateLimitState)) = 200%Z.
Proof.
  apply (valid_request_is_answered_200 neverParses sampleEnv "hello" "email");
    reflexivity.
Defined.

(** X3. Whatever the request, a handler answers 200 or refuses with
    400 or 500 and an error body; a refused request leaves the rate
    limit state untouched, whatever the backend would have done. *)
Theorem refused_request_keeps_state
        (JSON_parse : jsstring -> option Analysis) (env : Env)
        (request : Request) (s : RateLimitState) (remote : RemoteOutcome) :
  (status (fst (PATCH JSON_parse env remote request s)) = 200%Z \/
   (refused (fst (PATCH JSON_parse env remote request s)) /\
    snd (PATCH JSON_parse env remote request s) = s))
  /\
  (status (fst (POST env remote request s)) = 200%Z \/
   (refused (fst (POST env remote request s)) /\
    snd (POST env remote request s) = s)).
Proof.
  destruct request as [| text field].
  - split; right; (split; [split; [right; reflexivity | eexists; reflexivity]
                          | reflexivity]).
  - destruct (validText text) as [t |] eqn:Vt.
    + assert (Ht : truthy t = true /\ text = Some t).
      { unfold validText in Vt. destruct text as [t' |]; [| discriminate].
        destruct (truthy t') eqn:E; [| discriminate].
        injection Vt as <-. split; [exact E | reflexivity]. }
      destruct Ht as [Ht ->]. split.
      * left. unfold PATCH. rewrite Vt.
        destruct (test true submitPattern t); [reflexivity |].
        destruct (configured env); [| reflexivity].
        rewrite isRateLimited_pair.
        destruct (fst (isRateLimited (checkTime env) s)); [reflexivity |].
        destruct remote as [| st b]; [reflexivity |].
        destruct (ok st); cbn [negb].
        -- destruct b as [| | t0]; try reflexivity.
           destruct (truthy t0); [| reflexivity].
           destruct (JSON_parse _); reflexivity.
        -- destruct (st =? 429)%Z; reflexivity.
      * destruct (validField field) as [f |] eqn:Vf.
        -- left.
           assert (Hf : field = Some f).
           { unfold validField in Vf. destruct field as [f' |]; [| discriminate].
             destruct (existsb (JS.eqb f') fieldNames); [| discriminate].
             injection Vf as <-. reflexivity. }
           subst field.
           apply (valid_request_200 JSON_parse env t f s remote Ht Vf).
        -- right. unfold POST. rewrite Vt, Vf.
           split; [split; [left; reflexivity | eexists; reflexivity]
                  | reflexivity].
    + split; right; unfold PATCH, POST; rewrite Vt;
        (split; [split; [left; reflexivity | eexists; reflexivity]
                | reflexivity]).
Qed.



End RouteMore.

Module RateLimitMore.

Import JS RegExp Route Spec.
Import RateLimitProofs RouteMore.

Lemma call_floor (c : Call) (s : RateLimitState) :
  floorWhenNoErrors s -> floorWhenNoErrors (call c s).
Proof.
  unfold floorWhenNoErrors. destruct c as [now | rnd now | now]; cbn [call].
  - rewrite isRateLimited_errors, isRateLimited_backoff. tauto.
  - cbn [handleRateLimit consecutiveErrors]. intros _ H.
    exfalso. destruct (consecutiveErrors s); discriminate.
  - unfold handleSuccessfulRequest.
    destruct (N.ltb 0 (consecutiveErrors s)); cbn; tauto.
Qed.

Lemma calls_floor (cs : list Call) :
  forall s, floorWhenNoErrors s -> floorWhenNoErrors (calls cs s).
Proof.
  induction cs as [| c cs IH]; intros s H; cbn; [exact H |].
  apply IH, call_floor, H.
Qed.

(** X5. After any sequence of calls of the controller from the initial
    state, a state that counts no consecutive error has its backoff at
    the floor of 1000 ms: the backoff only differs from the floor while
    errors are counted. *)
Theorem no_errors_means_floor_backoff (cs : list Call) :
  consecutiveErrors (calls cs rateLimitState) = 0%N ->
  backoffMs (calls cs rateLimitState) = 1000%Q.
Proof.
  apply (calls_floor cs rateLimitState). intros _. reflexivity.
Qed.

Lemma no_errors_means_floor_backoff_witness :
  backoffMs (calls [RecordFailure (9 # 10) 5; IsRateLimited 7; RecordSuccess 9;
                    IsRateLimited 10] rateLimitState) = 1000%Q.
Proof.
  apply (no_errors_means_floor_backoff
           [RecordFailure (9 # 10) 5; IsRateLimited 7; RecordSuccess 9;
            IsRateLimited 10]).
  reflexivity.
Defined.

(** X6. A recorded failure never lowers the backoff: for a backoff in
    [1000, 30000] and a value of [Math.random()] that is not negative,
    the new backoff is at least the old one.  (With the jitter at 0.5,
    its least value, the product [backoffMs * 2 * jitter] is the old
    backoff itself, and the cap of 30000 is not below it.) *)
Theorem failure_never_lowers_backoff (rnd : Q) (now : Z) (s : RateLimitState) :
  backoffInRange s -> (0 <= rnd)%Q ->
  (backoffMs s <= backoffMs (handleRateLimit rnd now s))%Q.
Proof.
  intros [Hlo Hhi] H0. cbn [handleRateLimit backoffMs].
  apply Q.min_glb; [exact Hhi | nra].
Qed.

Lemma failure_never_lowers_backoff_witness :
  (backoffMs rateLimitState
   <= backoffMs (handleRateLimit 0 10 rateLimitState))%Q /\
  (backoffMs coolingState
   <= backoffMs (handleRateLimit (3 # 4) 5100 coolingState))%Q.
Proof.
  split.
  - apply (failure_never_lowers_backoff 0 10 rateLimitState).
    + exact initial_in_range.
    + lra.
  - apply (failure_never_lowers_backoff (3 # 4) 5100 coolingState).
    + apply handleRateLimit_in_range; [lra | exact initial_in_range].
    + lra.
Defined.

Lemma PATCH_429 (JSON_parse : jsstring -> option Analysis) (env : Env)
      (text : jsstring) (field : option jsstring) (s : RateLimitState)
      (b : RemoteBody) :
  issued env text s ->
  snd (PATCH JSON_parse env (Replied 429 b) (Parsed (Some text) field) s)
  = handleRateLimit (random env) (doneTime env)
      (snd (isRateLimited (checkTime env) s)).
Proof.
  intros (K & T & Sb & G). unfold PATCH, validText.
  rewrite T, Sb, K, isRateLimited_pair, G. reflexivity.
Qed.

Lemma cooling_after_failure (rnd : Q) (t now : Z) (s : RateLimitState) :
  backoffInRange s -> (0 <= rnd)%Q ->
  (now - t <= 1000)%Z ->
  fst (isRateLimited now (handleRateLimit rnd t s)) = true.
Proof.
  intros R H0 Hnow.
  pose proof (handleRateLimit_in_range rnd t s H0 R) as [Hlo _].
  unfold isRateLimited.
  change (inCooldown (handleRateLimit rnd t s)) with true.
  change (lastRequestTime (handleRateLimit rnd t s)) with t. cbv iota.
  assert (E : Qgtb (inject_Z (now - t)) (backoffMs (handleRateLimit rnd t s))
              = false).
  { apply Qgtb_false. eapply Qle_trans; [| exact Hlo].
    change (inject_Z (now - t) <= inject_Z 1000)%Q.
    rewrite <- Zle_Qle. exact Hnow. }
  rewrite E. reflexivity.
Qed.

(** X7. After the backend has replied 429 to a request of [PATCH], any
    next request of [POST] or [PATCH], whatever its text, whose check
    comes at most 1000 ms after that reply is answered locally without a
    look at the backend, and leaves the rate limit state as the 429 left
    it: [POST] answers with the result of [basicTextCleaning], [PATCH]
    with the short cut [submitDetected] for a text with a submit word
    and with the result of [processWithRegex] otherwise. *)
Theorem served_locally_after_429
        (JSON_parse : jsstring -> option Analysis) (env env' : Env)
        (text text' field' : jsstring) (pfield' : option jsstring)
        (s : RateLimitState) (b : RemoteBody) (remote' : RemoteOutcome) :
  backoffInRange s -> (0 <= random env)%Q ->
  issued env text s ->
  (checkTime env' - doneTime env <= 1000)%Z ->
  truthy text' = true -> validField (Some field') = Some field' ->
  let s' := snd (PATCH JSON_parse env (Replied 429 b)
                       (Parsed (Some text) None) s) in
  POST env' remote' (Parsed (Some text') (Some field')) s'
  = (json (SanitizeBody (basicTextCleaning text' field') false), s') /\
  PATCH JSON_parse env' remote' (Parsed (Some text') pfield') s'
  = (if test true submitPattern text'
     then json (AnalysisBody submitDetected)
     else processWithRegex text', s').
Proof.
  intros R H0 Hi Hnow Ht Hf. cbv zeta.
  rewrite (PATCH_429 JSON_parse env text None s b Hi).
  apply blocked_request; try assumption.
  right. apply cooling_after_failure; try assumption.
  unfold backoffInRange. rewrite isRateLimited_backoff. exact R.
Qed.

Lemma served_locally_after_429_witness :
  let s' := snd (PATCH neverParses sampleEnv (Replied 429 NoText)
                       (Parsed (Some (lit "my name is Bob")) None)
                       rateLimitState) in
  (POST laterEnv (Replied 200 (Text (lit "Robert")))
        (Parsed (Some (lit "send it to bob@x.com")) (Some (lit "email"))) s'
   = (json (SanitizeBody (lit "bob@x.com") false), s') /\
   PATCH neverParses laterEnv (Replied 200 (Text (lit "Robert")))
         (Parsed (Some (lit "send it to bob@x.com")) None) s'
   = (json (AnalysisBody submitDetected), s'))
  /\
  PATCH neverParses laterEnv (Replied 200 (Text (lit "Robert")))
        (Parsed (Some (lit "call me Al")) None) s'
  = (processWithRegex "call me Al", s').
Proof.
  assert (R : (0 <= random sampleEnv)%Q) by (simpl; lra).
  assert (Hi : issued sampleEnv "my name is Bob" rateLimitState)
    by (repeat split).
  assert (Hnow : (checkTime laterEnv - doneTime sampleEnv <= 1000)%Z)
    by (simpl; lia).
  split.
  - apply (served_locally_after_429 neverParses sampleEnv laterEnv
             "my name is Bob" "send it to bob@x.com" "email" None
             rateLimitState NoText (Replied 200 (Text (lit "Robert")))
             initial_in_range R Hi Hnow eq_refl eq_refl).
  - apply (served_locally_after_429 neverParses sampleEnv laterEnv
             "my name is Bob" "call me Al" "name" None
             rateLimitState NoText (Replied 200 (Text (lit "Robert")))
             initial_in_range R Hi Hnow eq_refl eq_refl).
Defined.

(** X8. The submit test of the route, /\b(submit|send|done|finish|complete)\b/i,
    holds of a text exactly when the text contains one of the five words
    as a whole word, in any mix of cases. *)
Theorem route_submit_test_iff (text : jsstring) :
  test true submitPattern text = true <-> containsSubmitWord text.
Proof.
  change submitPattern with (wordPattern submitWordList).
  apply WordConverse.wordPattern_iff;
    [discriminate | exact WordConverse.submitWordList_good].
Qed.

Lemma route_submit_test_iff_witness :
  test true submitPattern (lit "all Done, thanks") = true.
Proof.
  apply (proj2 (route_submit_test_iff (lit "all Done, thanks"))).
  exists (lit "done"). split; [simpl; tauto |].
  exists (lit "all "), (lit "Done"), (lit ", thanks"). repeat split.
Defined.

Lemma route_submit_test (text : jsstring) :
  test true submitPattern text = true <-> containsOneOf submitWordList text.
Proof.
  change submitPattern with (wordPattern submitWordList).
  apply WordConverse.wordPattern_iff;
    [discriminate | exact WordConverse.submitWordList_good].
Qed.

(** X9. A request of [PATCH] whose text contains one of the five
    submit words is answered at once: submit with confidence 0.95, marked
    [fromAI: false], the same for every key, clock, backend outcome and
    rate limit state, which is left untouched.  A text without such a
    word gets no submit entry from the regex fallback. *)
Theorem PATCH_submit_shortcut
        (JSON_parse : jsstring -> option Analysis) (env : Env)
        (text : jsstring) (field : option jsstring)
        (s : RateLimitState) (remote : RemoteOutcome) :
  (containsSubmitWord text ->
   PATCH JSON_parse env remote (Parsed (Some text) field) s
   = (json (AnalysisBody submitDetected), s))
  /\
  (~ containsSubmitWord text -> submit (extractedFields text) = None).
Proof.
  split.
  - intros Hc.
    assert (Hw : truthy text = true).
    { destruct Hc as (w & Hin & Hc).
      apply WordProofs.truthy_of_trim.
      apply (WordProofs.containsWord_truthy w text); [| exact Hc].
      apply WordProofs.submitWord_proper, Hin. }
    apply (proj2 (route_submit_test text)) in Hc.
    unfold PATCH, validText. rewrite Hw, Hc. reflexivity.
  - intros Hn. cbn [extractedFields submit].
    destruct (test true submitPattern text) eqn:E; [| reflexivity].
    exfalso. apply Hn, (proj1 (route_submit_test text)), E.
Qed.

Lemma PATCH_submit_shortcut_witness :
  PATCH neverParses sampleEnv (Replied 429 NoText)
        (Parsed (Some (lit "I am finished, please Send!")) None) coolingState
  = (json (AnalysisBody submitDetected), coolingState).
Proof.
  destruct (PATCH_submit_shortcut neverParses sampleEnv
              "I am finished, please Send!" None coolingState
              (Replied 429 NoText)) as [H _].
  apply H. exists (lit "send"). split; [simpl; tauto |].
  exists (lit "I am finished, please "), (lit "Send"), (lit "!").
  repeat split.
Defined.

End RateLimitMore.

(* ================================================================== *)
(** * More on the extractors: what a result is made of *)
(* ================================================================== *)

Module ExtractorMore.

Import JS RegExp Route Spec.
Import ExtractorProofs MatcherProofs.

Ltac class_chars c :=
  let H := fresh "H" in
  destruct c as [b0 b1 b2 b3 b4 b5 b6 b7];
  destruct b0, b1, b2, b3, b4, b5, b6, b7; intros H;
  first [reflexivity | discriminate H].

Lemma digit_is_phoneChar (c : ascii) :
  class_matches false false [CDigit] c = true -> phoneChar c = true.
Proof. class_chars c. Qed.

Lemma phoneSep_is_phoneChar (c : ascii) :
  class_matches false false (chars "-." ++ [CSpace]) c = true ->
  phoneChar c = true.
Proof. class_chars c. Qed.

Lemma space_is_phoneChar (c : ascii) :
  class_matches false false [CSpace] c = true -> phoneChar c = true.
Proof. class_chars c. Qed.

Lemma paren_is_phoneChar (p c : ascii) :
  p = "("%char \/ p = ")"%char ->
  char_matches false p c = true -> phoneChar c = true.
Proof.
  intros [-> | ->]; revert c; intros c; class_chars c.
Qed.

Lemma phoneShapes_accepts : acceptsOnly false phoneChar phoneShapes.
Proof.
  unfold phoneShapes, phoneSep, digit, ws, cls, Opt.
  cbn [alts seqs Times acceptsOnly].
  repeat match goal with
         | |- _ /\ _ => split
         | |- True => exact I
         | |- forall c, class_matches false false [CDigit] c = true -> _ =>
             exact digit_is_phoneChar
         | |- forall c, class_matches false false [CSpace] c = true -> _ =>
             exact space_is_phoneChar
         | |- forall c, class_matches false false (chars _ ++ _) c = true -> _ =>
             exact phoneSep_is_phoneChar
         | |- forall c, char_matches false _ c = true -> _ =>
             intros c; apply paren_is_phoneChar; tauto
         end.
Qed.

Lemma filter_all (p : ascii -> bool) (s : jsstring) :
  Forall (fun c => p c = true) (filter p s).
Proof.
  apply Forall_forall. intros c Hin. apply filter_In in Hin. tauto.
Qed.

(** X10. Whatever the text, the phone extractor returns digits, white
    space and the characters - + ( ) . only: no letter and no other sign
    gets into a phone number. *)
Theorem phone_result_has_phone_chars_only (text : jsstring) :
  Forall (fun c => phoneChar c = true) (basicTextCleaning text "phone").
Proof.
  unfold basicTextCleaning.
  change (JS.eqb (lit "phone") (lit "name")) with false.
  change (JS.eqb (lit "phone") (lit "email")) with false.
  change (JS.eqb (lit "phone") (lit "phone")) with true. cbv iota.
  destruct (exec false phonePatternDirect (trim text)) as [res |] eqn:E.
  - apply (exec_sound false phoneChar phonePatternDirect (trim text) res);
      [| exact E].
    exact phoneShapes_accepts.
  - rewrite replaceAll_notPhoneChar. apply filter_all.
Qed.

(** ** Pieces of the text *)

Lemma partOf_refl (s : jsstring) : partOf s s.
Proof. exists [], []. rewrite app_nil_r. reflexivity. Qed.

Lemma partOf_trans (a b c : jsstring) : partOf a b -> partOf b c -> partOf a c.
Proof.
  intros (p1 & q1 & ->) (p2 & q2 & ->).
  exists (p2 ++ p1), (q1 ++ q2). rewrite <- !app_assoc. reflexivity.
Qed.

Lemma partOf_trim (s : jsstring) : partOf (trim s) s.
Proof.
  destruct (WordConverse.trim_split s) as (d1 & d2 & E & _).
  exists d1, d2. exact E.
Qed.

Lemma partOf_replace_anchored (ic : bool) (r : regex) (s : jsstring) :
  partOf (replace ic (Seq Bol r) [] s) s.
Proof.
  destruct (replace_anchored ic r s) as (d & E).
  exists d, []. rewrite app_nil_r. exact E.
Qed.

Lemma partOf_matched (ic : bool) (r : regex) (s : jsstring) (res : match_result) :
  exec ic r s = Some res -> partOf (matched res) s.
Proof.
  intros E. exists (before_match res), (after_match res).
  apply (exec_parts ic r s res E).
Qed.

(** The two strippings of prefixes and the last [trim]. *)
Lemma stripped_partOf (r1 r2 : regex) (text : jsstring) :
  partOf (trim (replace true (Seq Bol r2) []
                  (replace true (Seq Bol r1) [] (trim text)))) text.
Proof.
  eapply partOf_trans; [apply partOf_trim |].
  eapply partOf_trans; [apply partOf_replace_anchored |].
  eapply partOf_trans; [apply partOf_replace_anchored |].
  apply partOf_trim.
Qed.

Lemma name_partOf (text : jsstring) : partOf (basicTextCleaning text "name") text.
Proof.
  unfold basicTextCleaning.
  change (JS.eqb (lit "name") (lit "name")) with true. cbv iota.
  apply stripped_partOf.
Qed.

Lemma address_partOf (text : jsstring) :
  partOf (basicTextCleaning text "address") text.
Proof.
  unfold basicTextCleaning.
  change (JS.eqb (lit "address") (lit "name")) with false.
  change (JS.eqb (lit "address") (lit "email")) with false.
  change (JS.eqb (lit "address") (lit "phone")) with false.
  change (JS.eqb (lit "address") (lit "address")) with true. cbv iota.
  apply stripped_partOf.
Qed.

Lemma email_partOf (text : jsstring) :
  partOf (basicTextCleaning text "email") text.
Proof.
  unfold basicTextCleaning.
  change (JS.eqb (lit "email") (lit "name")) with false.
  change (JS.eqb (lit "email") (lit "email")) with true. cbv iota.
  destruct (exec false emailToken (trim text)) as [res |] eqn:E.
  - eapply partOf_trans; [apply (partOf_matched _ _ _ _ E) | apply partOf_trim].
  - apply stripped_partOf.
Qed.

(** X11. The name, email and address extractors cut their result out
    of the text: the result is one contiguous piece of the input, so no
    character is added, changed or moved. *)
Theorem extractor_result_is_part_of_text (text field : jsstring) :
  cutField field -> partOf (basicTextCleaning text field) text.
Proof.
  intros [-> | [-> | ->]];
    [apply name_partOf | apply email_partOf | apply address_partOf].
Qed.

Lemma extractor_result_is_part_of_text_witness :
  partOf (basicTextCleaning " my email is j.doe@example.com, thanks " "email")
         (lit " my email is j.doe@example.com, thanks ").
Proof.
  apply (extractor_result_is_part_of_text
           " my email is j.doe@example.com, thanks " "email").
  right. left. reflexivity.
Defined.

(** ** Trimmed results *)

Lemma trimmed_trim (s : jsstring) : trimmed (trim s).
Proof. apply trim_idempotent. Qed.

Lemma emailClass_is_emailChar (c : ascii) :
  class_matches false false (CWord :: chars ".-") c = true -> emailChar c = true.
Proof. class_chars c. Qed.

Lemma word_is_emailChar (c : ascii) :
  class_matches false false [CWord] c = true -> emailChar c = true.
Proof. class_chars c. Qed.

Lemma at_dot_is_emailChar (p c : ascii) :
  p = "@"%char \/ p = "."%char ->
  char_matches false p c = true -> emailChar c = true.
Proof.
  intros [-> | ->]; revert c; intros c; class_chars c.
Qed.

Lemma emailToken_accepts : acceptsOnly false emailChar emailToken.
Proof.
  unfold emailToken, word, cls, Plus.
  cbn [seqs acceptsOnly].
  repeat match goal with
         | |- _ /\ _ => split
         | |- forall c, class_matches false false [CWord] c = true -> _ =>
             exact word_is_emailChar
         | |- forall c, class_matches false false (CWord :: _) c = true -> _ =>
             exact emailClass_is_emailChar
         | |- forall c, char_matches false _ c = true -> _ =>
             intros c; apply at_dot_is_emailChar; tauto
         end.
Qed.

Lemma emailChar_not_space (c : ascii) :
  emailChar c = true -> isWhiteSpace c = false.
Proof. class_chars c. Qed.

Lemma dropWhile_none (p : ascii -> bool) (s : jsstring) :
  Forall (fun c => p c = false) s -> dropWhile p s = s.
Proof.
  intros F. destruct F as [| c s Hc _]; [reflexivity |].
  cbn [dropWhile]. rewrite Hc. reflexivity.
Qed.

Lemma trimmed_without_space (s : jsstring) :
  Forall (fun c => isWhiteSpace c = false) s -> trimmed s.
Proof.
  intros F. unfold trimmed, trim, trimEnd, trimStart.
  rewrite (dropWhile_none _ s F).
  rewrite (dropWhile_none _ (rev s) (Forall_rev F)).
  apply rev_involutive.
Qed.

(** X12. The results of the name, email and address extractors carry
    no white space at their start or end, and an email token that is
    found holds word characters, dots, hyphens and at signs only. *)
Theorem extractor_result_is_trimmed (text : jsstring) :
  trimmed (basicTextCleaning text "name") /\
  trimmed (basicTextCleaning text "email") /\
  trimmed (basicTextCleaning text "address") /\
  (test false emailToken (trim text) = true ->
   Forall (fun c => emailChar c = true) (basicTextCleaning text "email")).
Proof.
  unfold basicTextCleaning.
  change (JS.eqb (lit "name") (lit "name")) with true.
  change (JS.eqb (lit "email") (lit "name")) with false.
  change (JS.eqb (lit "email") (lit "email")) with true.
  change (JS.eqb (lit "address") (lit "name")) with false.
  change (JS.eqb (lit "address") (lit "email")) with false.
  change (JS.eqb (lit "address") (lit "phone")) with false.
  change (JS.eqb (lit "address") (lit "address")) with true. cbv iota.
  split; [apply trimmed_trim |].
  split; [| split; [apply trimmed_trim |]].
  - destruct (exec false emailToken (trim text)) as [res |] eqn:E;
      [| apply trimmed_trim].
    destruct (exec_sound false emailChar emailToken (trim text) res
                emailToken_accepts E) as [_ F].
    apply trimmed_without_space.
    apply (Forall_impl _ emailChar_not_space F).
  - unfold test.
    destruct (exec false emailToken (trim text)) as [res |] eqn:E;
      [| discriminate].
    intros _.
    apply (exec_sound false emailChar emailToken (trim text) res
             emailToken_accepts E).
Qed.

Lemma extractor_result_is_trimmed_witness :
  Forall (fun c => emailChar c = true)
         (basicTextCleaning "reach me at j.doe@example.com today" "email").
Proof.
  destruct (extractor_result_is_trimmed "reach me at j.doe@example.com today")
    as (_ & _ & _ & H).
  apply H. reflexivity.
Defined.

End ExtractorMore.

(* ================================================================== *)
(** * More on the component: one understanding for each utterance *)
(* ================================================================== *)

Module VoiceInputMore.

Import JS RegExp Spec.
Import VoiceInput.

(** X13. The local analysis decides by whole words, in any mix of
    cases: submit when the text contains submit, send or done; otherwise
    clear when it contains clear or reset; otherwise unknown.  It never
    detects a field and always carries the text as it came. *)
Theorem analyzeVoiceInput_by_whole_words (text : jsstring) :
  (containsOneOf localSubmitWords text ->
   analyzeVoiceInput text = submitOf text)
  /\
  (~ containsOneOf localSubmitWords text ->
   containsOneOf clearWords text ->
   analyzeVoiceInput text = clearOf text)
  /\
  (~ containsOneOf localSubmitWords text ->
   ~ containsOneOf clearWords text ->
   analyzeVoiceInput text = unknownOf text).
Proof.
  pose proof (WordConverse.component_test_iff localSubmitWords text
                ltac:(discriminate) WordConverse.localSubmitWords_good) as S.
  pose proof (WordConverse.component_test_iff clearWords text
                ltac:(discriminate) WordConverse.clearWords_good) as C.
  change (wordPattern localSubmitWords) with submitPattern in S.
  change (wordPattern clearWords) with clearPattern in C.
  unfold analyzeVoiceInput.
  destruct (test true submitPattern (trim (toLowerCase text))).
  - repeat split; try reflexivity; intros N; exfalso; apply N, S; reflexivity.
  - destruct (test true clearPattern (trim (toLowerCase text))).
    + repeat split; try reflexivity.
      * intros H. apply S in H. discriminate H.
      * intros _ N. exfalso. apply N, C. reflexivity.
    + repeat split; try reflexivity.
      * intros H. apply S in H. discriminate H.
      * intros _ H. apply C in H. discriminate H.
Qed.

Lemma analyzeVoiceInput_by_whole_words_witness :
  analyzeVoiceInput "Please RESET the form" = clearOf "Please RESET the form".
Proof.
  destruct (analyzeVoiceInput_by_whole_words "Please RESET the form")
    as (_ & H & _).
  apply H.
  - intros H'. apply (WordConverse.component_test_iff localSubmitWords _
                        ltac:(discriminate) WordConverse.localSubmitWords_good)
      in H'.
    discriminate H'.
  - exists (lit "reset"). split; [simpl; tauto |].
    exists (lit "Please "), (lit "RESET"), (lit " the form"). repeat split.
Defined.

(** ** Blank and non-blank texts *)

Lemma blank_app (a b : jsstring) : blank a -> blank b -> blank (a ++ b).
Proof. intros A B. apply Forall_app. split; assumption. Qed.

Lemma truthy_trim_iff (text : jsstring) :
  truthy (trim text) = true <-> ~ blank text.
Proof.
  split.
  - intros T B. rewrite (PageProofs.trim_blank text B) in T. discriminate T.
  - intros N. destruct (trim text) as [| c r] eqn:E; [| reflexivity].
    exfalso. apply N.
    destruct (WordConverse.trim_split text) as (d1 & d2 & D & B1 & B2).
    rewrite D, E. apply blank_app; assumption.
Qed.

(** X14. An utterance that is empty or holds white space only is
    dropped: [onVoiceInput] is not called and the state of the component
    stays as it is, [processing] included. *)
Theorem blank_utterance_is_ignored
        (useAI : bool) (fetched : Fetched) (text : jsstring) (st : State) :
  blank text -> processVoiceInput useAI fetched text st = ([], st).
Proof.
  intros B. unfold processVoiceInput.
  rewrite (PageProofs.trim_blank text B). reflexivity.
Qed.

Lemma blank_utterance_is_ignored_witness :
  processVoiceInput true NoResponse (lit "   ") sampleState = ([], sampleState).
Proof.
  apply (blank_utterance_is_ignored true NoResponse (lit "   ") sampleState).
  repeat constructor.
Defined.

Lemma analyzeVoiceInput_text (text : jsstring) :
  originalText (analyzeVoiceInput text) = text /\
  detectedFields (analyzeVoiceInput text) = [] /\
  intent (analyzeVoiceInput text) <> provide_info.
Proof.
  unfold analyzeVoiceInput.
  destruct (test true submitPattern _); [repeat split; discriminate |].
  destruct (test true clearPattern _); repeat split; discriminate.
Qed.

Lemma analyzeVoiceInput_unknown (text : jsstring) :
  isUnknown (intent (analyzeVoiceInput text)) = true ->
  analyzeVoiceInput text = unknownOf text.
Proof.
  unfold analyzeVoiceInput.
  destruct (test true submitPattern _); [discriminate |].
  destruct (test true clearPattern _); [discriminate | reflexivity].
Qed.

(** The outcome of [processVoiceInput] on a text that is not blank. *)
Lemma processVoiceInput_one
      (useAI : bool) (fetched : Fetched) (text : jsstring) (st : State) :
  truthy (trim text) = true ->
  exists u st1,
    processVoiceInput useAI fetched text st = ([u], setProcessing false st1) /\
    originalText u = text /\
    listening st1 = listening st /\ error st1 = error st.
Proof.
  intros T. unfold processVoiceInput. rewrite T. cbn [negb].
  destruct (analyzeVoiceInput_text text) as (Ho & _).
  destruct useAI;
    [| eexists; eexists; split; [reflexivity | repeat split; exact Ho]].
  destruct fetched as [| [|] [data |]];
    try (eexists; eexists; split; [reflexivity | repeat split; exact Ho]).
  assert (L : listening
                (match Route.fromAI data with
                 | Some false => setRateLimitHit true
                                   (setRateLimitHit false (setProcessing true st))
                 | _ => setRateLimitHit false (setProcessing true st)
                 end) = listening st /\
              error
                (match Route.fromAI data with
                 | Some false => setRateLimitHit true
                                   (setRateLimitHit false (setProcessing true st))
                 | _ => setRateLimitHit false (setProcessing true st)
                 end) = error st).
  { destruct (Route.fromAI data) as [[|] |]; split; reflexivity. }
  destruct L as (Ll & Le).
  destruct (submitDetected data);
    [eexists; eexists; split; [reflexivity | repeat split; assumption] |].
  destruct (present (Route.name data) || present (Route.email data)
            || present (Route.phone data) || present (Route.address data))%bool.
  - destruct (Nat.ltb 0 (length (collectFields data))).
    + eexists; eexists; split; [reflexivity | repeat split; assumption].
    + destruct (negb (isUnknown (intent (analyzeVoiceInput text))));
        eexists; eexists; (split; [reflexivity | repeat split; assumption]).
  - destruct (negb (isUnknown (intent (analyzeVoiceInput text))));
      eexists; eexists; (split; [reflexivity | repeat split; assumption]).
Qed.

(** X15. For an utterance that is not blank, whatever the AI switch
    and whatever the request came to, [onVoiceInput] is called exactly
    once, with the text as it came; afterwards [processing] is off and
    [listening] and the error of the component are as before. *)
Theorem one_understanding_per_utterance
        (useAI : bool) (fetched : Fetched) (text : jsstring) (st : State) :
  ~ blank text ->
  exists u,
    fst (processVoiceInput useAI fetched text st) = [u] /\
    originalText u = text /\
    processing (snd (processVoiceInput useAI fetched text st)) = false /\
    listening (snd (processVoiceInput useAI fetched text st)) = listening st /\
    error (snd (processVoiceInput useAI fetched text st)) = error st.
Proof.
  intros N. apply truthy_trim_iff in N.
  destruct (processVoiceInput_one useAI fetched text st N)
    as (u & st1 & E & Ho & Hl & He).
  exists u. rewrite E. repeat split; assumption.
Qed.

Lemma not_blank_bob : ~ blank bobText.
Proof.
  intros B. inversion B as [| c r Hc _]. discriminate Hc.
Defined.

Lemma one_understanding_per_utterance_witness :
  exists u,
    fst (processVoiceInput true (Answered false None) bobText sampleState) = [u]
    /\ originalText u = bobText.
Proof.
  destruct (one_understanding_per_utterance true (Answered false None)
              bobText sampleState not_blank_bob) as (u & H1 & H2 & _).
  exists u. split; assumption.
Defined.

(** ** The shape of an understanding *)

Lemma confidenceOr_nonzero (c : option Q) :
  ~ (confidenceOr c (8 # 10) == 0)%Q.
Proof.
  unfold confidenceOr. destruct c as [q |]; [| discriminate].
  destruct (Qeq_bool q 0) eqn:E; [discriminate |].
  intros H. apply Qeq_bool_iff in H. congruence.
Qed.

Lemma collectFields_shape (data : Route.Analysis) :
  NoDup (map field (collectFields data)) /\
  Forall (fun d => ~ (confidence d == 0)%Q) (collectFields data).
Proof.
  unfold collectFields. cbn [flat_map entry].
  destruct (Route.name data), (Route.email data), (Route.phone data),
    (Route.address data); cbn [app map field confidence]; split;
    repeat (constructor;
            [first [apply confidenceOr_nonzero
                   | cbn [In]; intuition discriminate] |]);
    constructor.
Qed.

Lemma analyzeVoiceInput_wellShaped (text : jsstring) :
  wellShaped (analyzeVoiceInput text).
Proof.
  destruct (analyzeVoiceInput_text text) as (_ & Hd & Hi).
  unfold wellShaped. rewrite Hd. repeat split; try constructor.
  - intros N. congruence.
  - intros E. congruence.
Qed.

Lemma plain_wellShaped (i : IntentType) (text : jsstring) :
  i <> provide_info ->
  wellShaped {| intent := i; detectedFields := []; originalText := text |}.
Proof.
  intros N. unfold wellShaped. cbn. repeat split; try constructor; congruence.
Qed.

(** X16. Every understanding that [processVoiceInput] hands over is
    well shaped: it holds at most one detected field of each kind, no
    confidence is 0 (a missing or zero confidence becomes 0.8), and it has
    detected fields exactly when its intent is [provide_info]. *)
Theorem understandings_are_well_shaped
        (useAI : bool) (fetched : Fetched) (text : jsstring) (st : State)
        (u : VoiceUnderstanding) :
  In u (fst (processVoiceInput useAI fetched text st)) -> wellShaped u.
Proof.
  unfold processVoiceInput.
  destruct (negb (truthy (trim text))); [intros [] |].
  assert (B : forall st' : State, In u (fst ([analyzeVoiceInput text], st')) ->
                          wellShaped u).
  { intros st' [<- | []]. apply analyzeVoiceInput_wellShaped. }
  destruct useAI; [| apply B].
  destruct fetched as [| [|] [data |]]; try apply B.
  destruct (submitDetected data).
  { intros [<- | []]. apply plain_wellShaped. discriminate. }
  assert (F : forall st' : State,
             In u (fst (if negb (isUnknown (intent (analyzeVoiceInput text)))
                        then ([analyzeVoiceInput text], st')
                        else ([{| intent := unknown; detectedFields := [];
                                  originalText := text |}], st'))) ->
             wellShaped u).
  { intros st'. destruct (negb (isUnknown (intent (analyzeVoiceInput text)))).
    - intros [<- | []]. apply analyzeVoiceInput_wellShaped.
    - intros [<- | []]. apply plain_wellShaped. discriminate. }
  destruct (present (Route.name data) || present (Route.email data)
            || present (Route.phone data) || present (Route.address data))%bool;
    [| apply F].
  destruct (Nat.ltb 0 (length (collectFields data))) eqn:L; [| apply F].
  intros [<- | []]. destruct (collectFields_shape data) as [N C].
  unfold wellShaped. cbn [detectedFields intent].
  split; [exact N | split; [exact C | split]].
  - intros _. reflexivity.
  - intros _ E. rewrite E in L. discriminate L.
Qed.

Lemma understandings_are_well_shaped_witness :
  wellShaped
    {| intent := provide_info;
       detectedFields :=
         [{| field := Email; value := lit "a@b.co"; confidence := 8 # 10 |}];
       originalText := lit "a@b.co" |}.
Proof.
  apply (understandings_are_well_shaped true
           (Answered true
              (Some {| Route.submit := None; Route.name := None;
                       Route.email := Some {| Route.value := lit "a@b.co";
                                              Route.confidence := Some 0%Q |};
                       Route.phone := None; Route.address := None;
                       Route.fromAI := Some true |}))
           (lit "a@b.co") sampleState).
  left. reflexivity.
Defined.

(** ** The notice of a rate limit *)

Lemma rateLimitHit_after
      (useAI : bool) (fetched : Fetched) (text : jsstring) (st : State) :
  truthy (trim text) = true ->
  rateLimitHit (snd (processVoiceInput useAI fetched text st)) = true
  <-> useAI = true /\ answeredWithoutAI fetched.
Proof.
  intros T. unfold processVoiceInput, answeredWithoutAI. rewrite T. cbn [negb].
  assert (N : forall f, (exists data, f = Answered true (Some data) /\
                                      Route.fromAI data = Some false) ->
                        match f with
                        | Answered true (Some _) => True
                        | _ => False
                        end).
  { intros f (d & -> & _). exact I. }
  destruct useAI.
  2:{ cbn. split; [discriminate | intros [H _]; discriminate H]. }
  destruct fetched as [| [|] [data |]];
    try (cbn; split; [discriminate | intros [_ H]; destruct (N _ H)]).
  assert (R : forall b : bool,
             rateLimitHit
               (setProcessing b
                  (match Route.fromAI data with
                   | Some false =>
                       setRateLimitHit true
                         (setRateLimitHit false (setProcessing true st))
                   | _ => setRateLimitHit false (setProcessing true st)
                   end)) = true
             <-> true = true /\
                 (exists d, Answered true (Some data) = Answered true (Some d) /\
                            Route.fromAI d = Some false)).
  { intros b. destruct (Route.fromAI data) as [[|] |] eqn:E; cbn.
    - split; [discriminate |]. intros [_ (d & Ed & Fd)].
      injection Ed as <-. congruence.
    - split; [| reflexivity]. intros _. split; [reflexivity |].
      exists data. split; [reflexivity | exact E].
    - split; [discriminate |]. intros [_ (d & Ed & Fd)].
      injection Ed as <-. congruence. }
  destruct (submitDetected data); [apply R |].
  destruct (present (Route.name data) || present (Route.email data)
            || present (Route.phone data) || present (Route.address data))%bool.
  - destruct (Nat.ltb 0 (length (collectFields data))); [apply R |].
    destruct (negb (isUnknown (intent (analyzeVoiceInput text)))); apply R.
  - destruct (negb (isUnknown (intent (analyzeVoiceInput text)))); apply R.
Qed.

(** X17. After an utterance that is not blank, the notice of a rate
    limit ([rateLimitHit]) is on exactly when AI is enabled and the route
    answered ok with [fromAI: false]; any earlier notice is taken back. *)
Theorem rate_limit_notice_iff
        (useAI : bool) (fetched : Fetched) (text : jsstring) (st : State) :
  ~ blank text ->
  rateLimitHit (snd (processVoiceInput useAI fetched text st)) = true
  <-> useAI = true /\ answeredWithoutAI fetched.
Proof.
  intros N. apply rateLimitHit_after, truthy_trim_iff, N.
Qed.

Lemma rate_limit_notice_iff_witness :
  rateLimitHit
    (snd (processVoiceInput true
            (Answered true (Some (Route.extractedFields bobText)))
            bobText sampleState)) = true.
Proof.
  apply (rate_limit_notice_iff true
           (Answered true (Some (Route.extractedFields bobText)))
           bobText sampleState not_blank_bob).
  split; [reflexivity |].
  exists (Route.extractedFields bobText). split; reflexivity.
Defined.

(** X18. When AI is disabled, or the request brings nothing (no
    response, a response that is not ok, an unreadable body, or a body
    without submit and without fields), the understanding is the one of
    the local analysis. *)
Theorem falls_back_to_local_intent
        (useAI : bool) (fetched : Fetched) (text : jsstring) (st : State) :
  ~ blank text ->
  useAI = false \/ tellsNothing fetched ->
  fst (processVoiceInput useAI fetched text st) = [analyzeVoiceInput text].
Proof.
  intros N H. apply truthy_trim_iff in N.
  unfold processVoiceInput. rewrite N. cbn [negb].
  destruct useAI; [| reflexivity].
  destruct H as [H | H]; [discriminate |].
  destruct fetched as [| [|] [data |]]; try reflexivity.
  cbn [tellsNothing] in H. destruct H as (Hs & Hn & He & Hp & Ha).
  rewrite Hs, Hn, He, Hp, Ha. cbn [present orb].
  destruct (isUnknown (intent (analyzeVoiceInput text))) eqn:U; cbn [negb fst].
  - rewrite (analyzeVoiceInput_unknown text U). reflexivity.
  - reflexivity.
Qed.

Lemma falls_back_to_local_intent_witness :
  fst (processVoiceInput true (Answered true (Some (Pipeline.noEntries (Some true))))
         (lit "clear everything") sampleState)
  = [analyzeVoiceInput (lit "clear everything")].
Proof.
  apply (falls_back_to_local_intent true
           (Answered true (Some (Pipeline.noEntries (Some true))))
           (lit "clear everything") sampleState).
  - intros B. inversion B as [| c r Hc _]. discriminate Hc.
  - right. repeat split.
Defined.

End VoiceInputMore.

Module SessionMore.

Import JS RegExp Spec.
Import VoiceInput Pipeline.
Import VoiceInputMore.

(** X19. With AI enabled and the answer of the route delivered, an
    utterance with one of the five submit words always switches the
    notice of a rate limit on, although the route has not asked the
    backend and its rate limit state is unchanged: the short cut of the
    route answers with [fromAI: false]. *)
Theorem submit_with_AI_raises_notice
        (JSON_parse : jsstring -> option Route.Analysis)
        (env : Route.Env) (remote : Route.RemoteOutcome)
        (text : jsstring) (st : State) (srv : Route.RateLimitState) :
  containsSubmitWord text ->
  rateLimitHit
    (snd (fst (run JSON_parse true Delivered env remote text st srv))) = true
  /\ snd (run JSON_parse true Delivered env remote text st srv) = srv.
Proof.
  intros (w & Hin & Hc).
  pose proof (WordProofs.containsWord_truthy w text
                (WordProofs.submitWord_proper w Hin) Hc) as T.
  pose proof (PipelineProofs.PATCH_submit JSON_parse env remote text None srv
                (WordProofs.truthy_of_trim text T)
                (WordProofs.route_finds_submit w text Hin Hc)) as Hp.
  unfold run. rewrite T, Hp. cbn [andb fst snd]. split; [| reflexivity].
  apply rateLimitHit_after; [exact T |].
  split; [reflexivity |].
  exists Route.submitDetected. split; reflexivity.
Qed.

Lemma submit_with_AI_raises_notice_witness :
  rateLimitHit
    (snd (fst (run neverParses true Delivered sampleEnv
                   (Route.Replied 200 (Route.Text (lit "{}")))
                   (lit "submit") sampleState Route.rateLimitState))) = true
  /\ snd (run neverParses true Delivered sampleEnv
              (Route.Replied 200 (Route.Text (lit "{}")))
              (lit "submit") sampleState Route.rateLimitState)
     = Route.rateLimitState.
Proof.
  apply (submit_with_AI_raises_notice neverParses sampleEnv
           (Route.Replied 200 (Route.Text (lit "{}")))
           (lit "submit") sampleState Route.rateLimitState).
  exists (lit "submit"). split; [simpl; tauto |].
  exists [], (lit "submit"), []. repeat split.
Defined.

(** ** The transcripts of the device *)

Lemma cleanTranscript_trimmed (t : jsstring) : trimmed (cleanTranscript t).
Proof. apply ExtractorProofs.trim_idempotent. Qed.

Lemma onresult_some (results : list SpeechRecognitionResult) (st : State)
      (t : jsstring) (st' : State) :
  onresult results st = (Some t, st') ->
  exists pre r a others,
    results = pre ++ [r] /\ isFinal r = true /\
    alternatives r = a :: others /\ t = cleanTranscript a /\
    truthy t = true /\ st' = setInterimResult [] st.
Proof.
  unfold onresult. destruct (rev results) as [| r x] eqn:R; [discriminate |].
  destruct (alternatives r) as [| a others] eqn:A; [discriminate |].
  destruct (negb (truthy a)); [discriminate |].
  destruct (isFinal r) eqn:F; [| discriminate].
  destruct (truthy (cleanTranscript a)) eqn:T; [| discriminate].
  intros E. injection E as <- <-.
  exists (rev x), r, a, others. repeat split; try assumption.
  rewrite <- (rev_involutive results), R. reflexivity.
Qed.

Lemma onresult_final (pre : list SpeechRecognitionResult)
      (r : SpeechRecognitionResult) (a : jsstring) (others : list jsstring)
      (st : State) :
  isFinal r = true -> alternatives r = a :: others ->
  cleanTranscript a <> [] ->
  onresult (pre ++ [r]) st
  = (Some (cleanTranscript a), setInterimResult [] st).
Proof.
  intros F A N. unfold onresult.
  rewrite rev_app_distr. cbn [rev app]. rewrite A, F.
  destruct a as [| c a']; [exfalso; apply N; reflexivity |].
  cbn [truthy negb].
  destruct (cleanTranscript (c :: a')) as [| d t] eqn:E;
    [exfalso; apply N; reflexivity | reflexivity].
Qed.

(** X20. When the latest result of the device is final and its first
    transcript, cleaned (white space collapsed, a leading wake word
    removed, ends trimmed), is not empty, [onresult] hands that cleaned
    text to [processVoiceInput] and empties the interim display.
    Whatever [onresult] hands over arises in this way; it is not blank
    and has no white space at its ends, so [processVoiceInput] gives
    exactly one understanding, which carries that text.  An interim
    result hands nothing over. *)
Theorem final_transcript_gives_one_understanding
        (results : list SpeechRecognitionResult) (st : State) :
  (forall pre r a others,
      results = pre ++ [r] -> isFinal r = true ->
      alternatives r = a :: others -> cleanTranscript a <> [] ->
      onresult results st
      = (Some (cleanTranscript a), setInterimResult [] st))
  /\
  (forall t st',
      onresult results st = (Some t, st') ->
      (exists pre r a others,
          results = pre ++ [r] /\ isFinal r = true /\
          alternatives r = a :: others /\ t = cleanTranscript a) /\
      st' = setInterimResult [] st /\
      trimmed t /\ ~ blank t /\
      forall useAI fetched,
      exists u, fst (processVoiceInput useAI fetched t st') = [u] /\
                originalText u = t)
  /\
  (forall pre r, results = pre ++ [r] -> isFinal r = false ->
                 fst (onresult results st) = None).
Proof.
  split; [| split].
  - intros pre r a others -> F A N. apply (onresult_final pre r a others st F A N).
  - intros t st' H.
    destruct (onresult_some results st t st' H)
      as (pre & r & a & others & R & F & A & E & T & S).
    assert (Tr : trimmed t) by (rewrite E; apply cleanTranscript_trimmed).
    assert (T' : truthy (trim t) = true) by (rewrite Tr; exact T).
    split; [exists pre, r, a, others; repeat split; assumption |].
    split; [exact S |].
    split; [exact Tr |]. split; [apply truthy_trim_iff, T' |].
    intros useAI fetched.
    destruct (processVoiceInput_one useAI fetched t st' T')
      as (u & st1 & Ep & Ho & _).
    exists u. rewrite Ep. split; [reflexivity | exact Ho].
  - intros pre r -> F. unfold onresult.
    rewrite rev_app_distr. cbn [rev app].
    destruct (alternatives r) as [| a others]; [reflexivity |].
    destruct (negb (truthy a)); [reflexivity |].
    rewrite F. reflexivity.
Qed.

Lemma final_transcript_gives_one_understanding_witness :
  let heard :=
    [{| alternatives := [lit "hey siri my"]; isFinal := false |};
     {| alternatives := [lit "  hey siri   my name   is Bob ";
                         lit "hey series my name is bob"];
        isFinal := true |}] in
  onresult heard sampleState
  = (Some (lit "my name is Bob"), setInterimResult [] sampleState) /\
  forall useAI fetched,
  exists u,
    fst (processVoiceInput useAI fetched (lit "my name is Bob")
           (setInterimResult [] sampleState)) = [u] /\
    originalText u = lit "my name is Bob".
Proof.
  cbv zeta.
  destruct (final_transcript_gives_one_understanding
              [{| alternatives := [lit "hey siri my"]; isFinal := false |};
               {| alternatives := [lit "  hey siri   my name   is Bob ";
                                   lit "hey series my name is bob"];
                  isFinal := true |}]
              sampleState) as [Hfinal [Hsome _]].
  assert (E : onresult
                [{| alternatives := [lit "hey siri my"]; isFinal := false |};
                 {| alternatives := [lit "  hey siri   my name   is Bob ";
                                     lit "hey series my name is bob"];
                    isFinal := true |}] sampleState
              = (Some (lit "my name is Bob"),
                 setInterimResult [] sampleState)).
  { apply (Hfinal
             [{| alternatives := [lit "hey siri my"]; isFinal := false |}]
             {| alternatives := [lit "  hey siri   my name   is Bob ";
                                 lit "hey series my name is bob"];
                isFinal := true |}
             (lit "  hey siri   my name   is Bob ")
             [lit "hey series my name is bob"]);
      [reflexivity | reflexivity | reflexivity | vm_compute; discriminate]. }
  split; [exact E |].
  destruct (Hsome _ _ E) as (_ & _ & _ & _ & H). exact H.
Defined.

(** X21. The microphone button does nothing while an utterance is
    processed or when the browser has no speech recognition; otherwise it
    flips [listening] and clears the error, and a second click brings
    [listening] back. *)
Theorem toggleListening_flips_unless_blocked (st : State) :
  (browserSupport st = false \/ processing st = true ->
   toggleListening st = st)
  /\
  (browserSupport st = true -> processing st = false ->
   listening (toggleListening st) = negb (listening st) /\
   error (toggleListening st) = "" /\
   listening (toggleListening (toggleListening st)) = listening st).
Proof.
  unfold toggleListening. split.
  - intros [H | H]; rewrite H; [reflexivity |].
    destruct (negb (browserSupport st)); reflexivity.
  - intros Hb Hp. rewrite Hb, Hp. cbn. rewrite Hb, Hp. cbn.
    repeat split. apply negb_involutive.
Qed.

Lemma toggleListening_flips_unless_blocked_witness :
  listening (toggleListening sampleState) = false /\
  listening (toggleListening (toggleListening sampleState)) = true.
Proof.
  destruct (toggleListening_flips_unless_blocked sampleState) as [_ H].
  destruct H as (H1 & _ & H3); [reflexivity | reflexivity |].
  split; [exact H1 | exact H3].
Defined.

End SessionMore.

(* ================================================================== *)
(** * More on the form controller: submitting and confirming *)
(* ================================================================== *)

Module PageMore.

Import JS RegExp Spec.
Import VoiceInput Page.

Lemma truthy_trim_trim (s : jsstring) : truthy (trim (trim s)) = truthy (trim s).
Proof. rewrite ExtractorProofs.trim_idempotent. reflexivity. Qed.

Lemma some_not_blank (l : list jsstring) :
  ~ Forall blank l -> existsb (fun v => truthy (trim v)) l = true.
Proof.
  induction l as [| v l IH]; intros N.
  - exfalso. apply N. constructor.
  - cbn [existsb]. destruct (truthy (trim v)) eqn:T; [reflexivity |].
    cbn [orb]. apply IH. intros F. apply N. constructor; [| exact F].
    destruct (trim v) as [| c r] eqn:E; [| discriminate].
    destruct (WordConverse.trim_split v) as (d1 & d2 & D & B1 & B2).
    rewrite D, E. apply VoiceInputMore.blank_app; assumption.
Qed.

Lemma all_blank (l : list jsstring) :
  Forall blank l -> existsb (fun v => truthy (trim v)) l = false.
Proof.
  induction 1 as [| v l B _ IH]; [reflexivity |].
  cbn [existsb]. rewrite (PageProofs.trim_blank v B). exact IH.
Qed.

Lemma hasAnyData_inputs (i : Inputs) :
  ~ Forall blank (inputValues i) ->
  existsb truthy (valuesOf (submissionOf i)) = true.
Proof.
  intros N. apply some_not_blank in N.
  unfold inputValues in N. cbn [existsb] in N.
  unfold valuesOf, submissionOf. cbn [existsb name email phone address].
  exact N.
Qed.

Lemma voice_submit_world (understanding : VoiceUnderstanding) (w : World) :
  intent understanding = submit ->
  ~ Forall blank (inputValues (inputs w)) ->
  storageWritable w = true ->
  handleVoiceInput understanding w
  = setTimeout (Navigate 500 "/confirmation")
      (setItem "formData" (submissionOf (inputs w))
         (setError "" (setLastSpeech (originalText understanding) w))).
Proof.
  intros Hi N Hw. unfold handleVoiceInput. rewrite Hi.
  cbn [inputs setError setLastSpeech storageWritable name email phone address].
  pose proof (hasAnyData_inputs (inputs w) N) as H.
  unfold valuesOf, submissionOf in H. cbn [name email phone address] in H.
  rewrite H, Hw. reflexivity.
Qed.

(** X22. A voice submit with some input that is not blank, on a
    storage that can be written: the item [formData] then holds the
    values of the four inputs of the document, trimmed (whatever the
    tracked form data are); one navigation to /confirmation is scheduled
    after 500 ms; the error is cleared and the tracked form data are not
    changed. *)
Theorem voice_submit_stores_inputs (understanding : VoiceUnderstanding) (w : World) :
  intent understanding = submit ->
  ~ Forall blank (inputValues (inputs w)) ->
  storageWritable w = true ->
  let w' := handleVoiceInput understanding w in
  getItem "formData" w' = Some (submissionOf (inputs w)) /\
  timers w' = timers w ++ [Navigate 500 "/confirmation"] /\
  error w' = "" /\
  formData w' = formData w /\
  lastSpeech w' = originalText understanding.
Proof.
  intros Hi N Hw. cbv zeta.
  rewrite (voice_submit_world understanding w Hi N Hw).
  repeat split.
Qed.

Lemma filledWorld_not_blank : ~ Forall blank (inputValues (inputs filledWorld)).
Proof.
  intros F. inversion F as [| v l B _]. inversion B as [| c r Hc _].
  discriminate Hc.
Defined.

Lemma voice_submit_stores_inputs_witness :
  getItem "formData" (handleVoiceInput (submitOf (lit "submit")) filledWorld)
  = Some (withField Name (lit "Bob") emptyForm).
Proof.
  destruct (voice_submit_stores_inputs (submitOf (lit "submit")) filledWorld)
    as (H & _); [reflexivity | exact filledWorld_not_blank | reflexivity |].
  exact H.
Defined.

(** ** The confirmation page *)

Lemma open_stored (d : FormData) (w : World) :
  getItem "formData" w = Some d ->
  existsb (fun v => truthy (trim v)) (valuesOf d) = true ->
  existsb truthy (valuesOf d) = true ->
  Confirmation.open w = Confirmation.Received (rowsOf d).
Proof.
  intros G H T. unfold Confirmation.open. rewrite G.
  unfold Confirmation.retrieveFormData, Confirmation.hasData.
  unfold valuesOf in H, T. rewrite H.
  unfold Confirmation.render.
  cbn [Confirmation.loading Confirmation.error Confirmation.formData
       Confirmation.initial].
  assert (E : forallb (fun v => negb (truthy v))
                [name d; email d; phone d; address d] = false).
  { cbn [existsb] in T. cbn [forallb].
    destruct (truthy (name d)), (truthy (email d)), (truthy (phone d)),
      (truthy (address d)); try reflexivity; discriminate T. }
  rewrite E. reflexivity.
Qed.

Lemma existsb_trimmed_inputs (i : Inputs) :
  existsb (fun v => truthy (trim v)) (valuesOf (submissionOf i))
  = existsb truthy (valuesOf (submissionOf i)).
Proof.
  unfold valuesOf, submissionOf. cbn [existsb name email phone address].
  rewrite !truthy_trim_trim. reflexivity.
Qed.

(** X23. After a voice submit that went through, the confirmation page
    shows the submission: one row for each input of the document that was
    not blank, with its trimmed value, in the order name, email, phone,
    address; it shows no error. *)
Theorem voice_submit_is_confirmed (understanding : VoiceUnderstanding) (w : World) :
  intent understanding = submit ->
  ~ Forall blank (inputValues (inputs w)) ->
  storageWritable w = true ->
  Confirmation.open (handleVoiceInput understanding w)
  = Confirmation.Received (rowsOf (submissionOf (inputs w))).
Proof.
  intros Hi N Hw.
  rewrite (voice_submit_world understanding w Hi N Hw).
  apply open_stored.
  - reflexivity.
  - rewrite existsb_trimmed_inputs. apply hasAnyData_inputs, N.
  - apply hasAnyData_inputs, N.
Qed.

Lemma voice_submit_is_confirmed_witness :
  Confirmation.open (handleVoiceInput (submitOf (lit "submit")) filledWorld)
  = Confirmation.Received [("Name", lit "Bob")].
Proof.
  apply (voice_submit_is_confirmed (submitOf (lit "submit")) filledWorld).
  - reflexivity.
  - exact filledWorld_not_blank.
  - reflexivity.
Defined.

Lemma handleSubmit_world (w : World) :
  storageWritable w = true ->
  handleSubmit w
  = setTimeout (Navigate 500 "/confirmation")
      (setItem "formData" (trimmedForm (formData w)) w).
Proof.
  intros Hw. unfold handleSubmit. rewrite Hw. reflexivity.
Qed.

(** X24. The submit button has no guard for an empty form: on a
    storage that can be written it always stores the tracked form data,
    trimmed, and schedules the navigation.  The confirmation page then
    shows the error "No information was provided in the submission" when
    the four fields are blank, and the rows of the submission
    otherwise. *)
Theorem button_submit_always_stores (w : World) :
  storageWritable w = true ->
  getItem "formData" (handleSubmit w) = Some (trimmedForm (formData w)) /\
  timers (handleSubmit w) = timers w ++ [Navigate 500 "/confirmation"] /\
  (Forall blank (valuesOf (formData w)) ->
   Confirmation.open (handleSubmit w)
   = Confirmation.ErrorBox "No information was provided in the submission")
  /\
  (~ Forall blank (valuesOf (formData w)) ->
   Confirmation.open (handleSubmit w)
   = Confirmation.Received (rowsOf (trimmedForm (formData w)))).
Proof.
  intros Hw. rewrite (handleSubmit_world w Hw).
  split; [reflexivity |]. split; [reflexivity |]. split.
  - intros B. unfold Confirmation.open.
    change (getItem "formData"
              (setTimeout (Navigate 500 "/confirmation")
                 (setItem "formData" (trimmedForm (formData w)) w)))
      with (Some (trimmedForm (formData w))).
    unfold Confirmation.retrieveFormData, Confirmation.hasData.
    assert (E : existsb (fun v => truthy (trim v))
                  [name (trimmedForm (formData w));
                   email (trimmedForm (formData w));
                   phone (trimmedForm (formData w));
                   address (trimmedForm (formData w))] = false).
    { pose proof (all_blank _ B) as A. unfold valuesOf in A.
      cbn [existsb] in *. unfold trimmedForm. cbn [name email phone address].
      rewrite !truthy_trim_trim. exact A. }
    rewrite E. reflexivity.
  - intros N. apply open_stored; [reflexivity | |].
    + pose proof (some_not_blank _ N) as A. unfold valuesOf in *.
      cbn [existsb] in *. unfold trimmedForm. cbn [name email phone address].
      rewrite !truthy_trim_trim. exact A.
    + pose proof (some_not_blank _ N) as A. unfold valuesOf in *.
      cbn [existsb] in *. unfold trimmedForm. cbn [name email phone address].
      exact A.
Qed.

Lemma button_submit_always_stores_witness :
  getItem "formData" (handleSubmit blankWorld) = Some emptyForm /\
  Confirmation.open (handleSubmit blankWorld)
  = Confirmation.ErrorBox "No information was provided in the submission".
Proof.
  destruct (button_submit_always_stores blankWorld) as (H1 & _ & H3 & _);
    [reflexivity |].
  split; [exact H1 |]. apply H3. repeat constructor.
Defined.

(** ** Filling the form from detected fields *)

Lemma handleFieldUpdate_keeps (rendered : World) (f : FieldType) (v : jsstring)
      (w : World) :
  formData (handleFieldUpdate rendered f v w) = withField f v (formData w) /\
  localStorage (handleFieldUpdate rendered f v w) = localStorage w /\
  inputs (handleFieldUpdate rendered f v w) = inputs w.
Proof.
  unfold handleFieldUpdate, checkFormProgress.
  destruct f;
    repeat match goal with
           | |- context [if ?c then _ else _] => destruct c
           end;
    repeat split.
Qed.

Lemma fill_keeps (rendered : World) (fields : list DetectedField) :
  forall acc,
    formData (fold_left (fillStep rendered) fields acc)
    = fold_left fillField fields (formData acc) /\
    localStorage (fold_left (fillStep rendered) fields acc) = localStorage acc /\
    inputs (fold_left (fillStep rendered) fields acc) = inputs acc.
Proof.
  induction fields as [| x fields IH]; intros acc; cbn [fold_left].
  - repeat split.
  - destruct (IH (fillStep rendered acc x)) as (Hd & Hl & Hi).
    rewrite Hd, Hl, Hi. unfold fillStep, fillField.
    destruct (truthy (value x)); [| repeat split].
    destruct (handleFieldUpdate_keeps rendered (field x) (value x) acc)
      as (Kd & Kl & Ki).
    rewrite Kd, Kl, Ki. repeat split.
Qed.

Lemma fieldValue_withField_same (f : FieldType) (v : jsstring) (d : FormData) :
  fieldValue f (withField f v d) = v.
Proof. destruct f; reflexivity. Qed.

Lemma fieldValue_withField_other (f g : FieldType) (v : jsstring) (d : FormData) :
  f <> g -> fieldValue f (withField g v d) = fieldValue f d.
Proof. destruct f, g; intros N; try reflexivity; congruence. Qed.

Lemma fill_untouched (f : FieldType) (fields : list DetectedField) :
  forall d,
    (forall x, In x fields -> field x = f -> truthy (value x) = false) ->
    fieldValue f (fold_left fillField fields d) = fieldValue f d.
Proof.
  induction fields as [| y fields IH]; intros d H; cbn [fold_left];
    [reflexivity |].
  rewrite IH by (intros x Hx; apply H; right; exact Hx).
  unfold fillField. destruct (truthy (value y)) eqn:T; [| reflexivity].
  apply fieldValue_withField_other. intros E.
  rewrite (H y (or_introl eq_refl) (eq_sym E)) in T. discriminate T.
Qed.

Lemma fill_detected (fields : list DetectedField) :
  forall d x,
    NoDup (map field fields) -> In x fields -> truthy (value x) = true ->
    fieldValue (field x) (fold_left fillField fields d) = value x.
Proof.
  induction fields as [| y fields IH]; intros d x N Hin T; [contradiction |].
  cbn [map] in N. inversion N as [| ? ? Hnot N']; subst.
  cbn [fold_left]. destruct Hin as [-> | Hin].
  - rewrite fill_untouched.
    + unfold fillField. rewrite T. apply fieldValue_withField_same.
    + intros z Hz E. exfalso. apply Hnot. rewrite <- E.
      apply in_map, Hz.
  - apply IH; assumption.
Qed.

Lemma provide_info_world (understanding : VoiceUnderstanding) (w : World) :
  intent understanding = provide_info ->
  detectedFields understanding <> [] ->
  exists active,
    handleVoiceInput understanding w
    = setActiveField active
        (fold_left (fillStep w) (detectedFields understanding)
           (setError "" (setLastSpeech (originalText understanding) w))) /\
    active = match sortByConfidence (detectedFields understanding) with
             | h :: _ => Some (field h)
             | [] => None
             end.
Proof.
  intros Hi Hne. unfold handleVoiceInput. rewrite Hi.
  destruct (detectedFields understanding) as [| x fields] eqn:D;
    [congruence |].
  cbn [length Nat.ltb Nat.leb].
  change (fun acc fld =>
            if truthy (value fld)
            then handleFieldUpdate w (field fld) (value fld) acc
            else acc) with (fillStep w).
  destruct (sortByConfidence (x :: fields)) as [| h t] eqn:S.
  - exists (activeField
              (fold_left (fillStep w) (x :: fields)
                 (setError "" (setLastSpeech (originalText understanding) w)))).
    split; [| exfalso].
    + destruct (fold_left _ _ _); reflexivity.
    + cbn [sortByConfidence fold_right] in S.
      destruct (fold_right insertByConfidence [] fields) as [| y l];
        cbn [insertByConfidence] in S; [discriminate |].
      destruct (Route.Qgtb (confidence y) (confidence x)); discriminate.
  - exists (Some (field h)). split; reflexivity.
Qed.

(** X25. Handling [provide_info] with detected fields of distinct
    kinds: each field that was detected with a value that is not empty
    holds that value in the form data afterwards; a field with no such
    detection keeps its value; nothing is written to [localStorage] and
    the inputs of the document are not written by the handler itself. *)
Theorem provide_info_fills_fields (understanding : VoiceUnderstanding) (w : World) :
  intent understanding = provide_info ->
  detectedFields understanding <> [] ->
  NoDup (map field (detectedFields understanding)) ->
  let w' := handleVoiceInput understanding w in
  (forall x, In x (detectedFields understanding) ->
             truthy (value x) = true ->
             fieldValue (field x) (formData w') = value x) /\
  (forall f,
      (forall x, In x (detectedFields understanding) -> field x = f ->
                 truthy (value x) = false) ->
      fieldValue f (formData w') = fieldValue f (formData w)) /\
  localStorage w' = localStorage w /\
  inputs w' = inputs w.
Proof.
  intros Hi Hne N. cbv zeta.
  destruct (provide_info_world understanding w Hi Hne) as (active & E & _).
  rewrite E. cbn [setActiveField formData localStorage inputs].
  destruct (fill_keeps w (detectedFields understanding)
              (setError "" (setLastSpeech (originalText understanding) w)))
    as (Hd & Hl & Hin).
  rewrite Hd, Hl, Hin. cbn [setError setLastSpeech formData localStorage inputs].
  repeat split.
  - intros x Hx T. apply fill_detected; assumption.
  - intros f H. apply fill_untouched, H.
Qed.

(** ** The field that gets the focus *)

Lemma sort_head (l : list DetectedField) :
  forall h t,
    sortByConfidence l = h :: t ->
    exists pre post,
      l = pre ++ h :: post /\
      Forall (fun x => (confidence x < confidence h)%Q) pre /\
      Forall (fun x => (confidence x <= confidence h)%Q) post.
Proof.
  induction l as [| x l IH]; intros h t S; [discriminate |].
  cbn [sortByConfidence fold_right] in S.
  change (fold_right insertByConfidence [] l) with (sortByConfidence l) in S.
  destruct (sortByConfidence l) as [| y s] eqn:Sl.
  - cbn [insertByConfidence] in S. injection S as <- <-.
    assert (l = []) as ->.
    { destruct l as [| z l]; [reflexivity |].
      cbn [sortByConfidence fold_right] in Sl.
      destruct (fold_right insertByConfidence [] l) as [| y' l'];
        cbn [insertByConfidence] in Sl; [discriminate |].
      destruct (Route.Qgtb (confidence y') (confidence z)); discriminate. }
    exists [], []. repeat split; constructor.
  - destruct (IH y s eq_refl) as (pre & post & -> & Hpre & Hpost).
    cbn [insertByConfidence] in S.
    destruct (Route.Qgtb (confidence y) (confidence x)) eqn:G.
    + injection S as <- <-. apply RateLimitProofs.Qgtb_true in G.
      exists (x :: pre), post. repeat split; [constructor; assumption | assumption].
    + injection S as <- <-. apply RateLimitProofs.Qgtb_false in G.
      exists [], (pre ++ y :: post). repeat split; [constructor |].
      apply Forall_app. split.
      * apply (Forall_impl _ (fun a (H : (confidence a < confidence y)%Q) =>
                                Qle_trans _ _ _ (Qlt_le_weak _ _ H) G) Hpre).
      * constructor; [exact G |].
        apply (Forall_impl _ (fun a (H : (confidence a <= confidence y)%Q) =>
                                Qle_trans _ _ _ H G) Hpost).
Qed.

(** X26. After [provide_info] the active field is the kind of the
    detected field with the highest confidence; among equal confidences
    the one detected first wins. *)
Theorem focus_goes_to_highest_confidence
        (understanding : VoiceUnderstanding) (w : World) :
  intent understanding = provide_info ->
  detectedFields understanding <> [] ->
  exists pre h post,
    detectedFields understanding = pre ++ h :: post /\
    Forall (fun x => (confidence x < confidence h)%Q) pre /\
    Forall (fun x => (confidence x <= confidence h)%Q) post /\
    activeField (handleVoiceInput understanding w) = Some (field h).
Proof.
  intros Hi Hne.
  destruct (provide_info_world understanding w Hi Hne) as (active & E & A).
  rewrite E. cbn [setActiveField activeField]. subst active.
  destruct (sortByConfidence (detectedFields understanding)) as [| h t] eqn:S.
  - exfalso. destruct (detectedFields understanding) as [| x l]; [congruence |].
    cbn [sortByConfidence fold_right] in S.
    destruct (fold_right insertByConfidence [] l) as [| y' l'];
      cbn [insertByConfidence] in S; [discriminate |].
    destruct (Route.Qgtb (confidence y') (confidence x)); discriminate.
  - destruct (sort_head _ h t S) as (pre & post & D & Hpre & Hpost).
    exists pre, h, post. repeat split; assumption.
Qed.

Lemma provide_info_fills_fields_witness :
  fieldValue Email (formData (handleVoiceInput bobAndEmail blankWorld))
  = lit "bob@x.com" /\
  fieldValue Phone (formData (handleVoiceInput bobAndEmail blankWorld)) = [].
Proof.
  destruct (provide_info_fills_fields bobAndEmail blankWorld)
    as (H1 & H2 & _).
  - reflexivity.
  - discriminate.
  - repeat constructor; cbn [In]; intuition discriminate.
  - split.
    + apply (H1 {| field := Email; value := lit "bob@x.com";
                   confidence := 9 # 10 |}); [| reflexivity].
      right. left. reflexivity.
    + rewrite (H2 Phone); [reflexivity |].
      intros x [<- | [<- | []]]; discriminate.
Defined.

Lemma focus_goes_to_highest_confidence_witness :
  exists pre h post,
    detectedFields bobAndEmail = pre ++ h :: post /\
    Forall (fun x => (confidence x < confidence h)%Q) pre /\
    Forall (fun x => (confidence x <= confidence h)%Q) post /\
    activeField (handleVoiceInput bobAndEmail blankWorld) = Some (field h).
Proof.
  apply (focus_goes_to_highest_confidence bobAndEmail blankWorld).
  - reflexivity.
  - discriminate.
Defined.

End PageMore.

(* ================================================================== *)
(** * The validation of a phone number *)
(* ================================================================== *)

Module ValidationProofs.

Import JS RegExp Spec.
Import Page.

Lemma phoneInputClass_matches (c : ascii) :
  class_matches false false
    [CDigit; CSpace; CChar "("; CChar ")"; CRange "+" "."] c
  = phoneInputChar c.
Proof. WordProofs.all_chars c. Qed.

(** A class taken exactly [n] times. *)
Lemma m_Times_class (neg : bool) (items : list class_item) (n : nat) :
  forall (k : cont) (st : mstate),
    m false (Times n (Class neg items)) k st
    = if (Nat.leb n (length (remaining st))
          && forallb (class_matches false neg items)
                     (firstn n (remaining st)))%bool
      then k (MState (rev (firstn n (remaining st)) ++ consumed st)
                     (skipn n (remaining st)) (captures st))
      else None.
Proof.
  induction n as [| n IH]; intros k st.
  - destruct st. reflexivity.
  - cbn [Times m]. unfold advance.
    destruct (remaining st) as [| c rest] eqn:R; [reflexivity |].
    cbn [length Nat.leb firstn forallb skipn rev].
    destruct (class_matches false neg items c); cbn [andb].
    + rewrite IH. cbn [remaining consumed captures].
      rewrite <- app_assoc. cbn [app].
      destruct (Nat.leb n (length rest)); reflexivity.
    + rewrite andb_false_r. reflexivity.
Qed.

(** A class taken at most [n] times, up to the end of the text. *)
Lemma m_UpTo_class_end (neg : bool) (items : list class_item) (n : nat) :
  forall (st : mstate),
    m false (UpTo n (Class neg items)) atEnd st <> None
    <-> (length (remaining st) <= n)%nat /\
        forallb (class_matches false neg items) (remaining st) = true.
Proof.
  induction n as [| n IH]; intros st.
  - cbn [UpTo m]. unfold atEnd. cbn [m].
    destruct (remaining st) as [| c rest]; cbn [length forallb].
    + split; [intros _; split; [lia | reflexivity] | discriminate].
    + split; [congruence | intros [H _]; lia].
  - cbn [UpTo]. unfold Opt. cbn [m]. unfold orelse, advance.
    destruct (remaining st) as [| c rest] eqn:R.
    + unfold atEnd. cbn [m]. rewrite R. cbn [length forallb].
      split; [intros _; split; [lia | reflexivity] | discriminate].
    + cbn [length forallb].
      destruct (class_matches false neg items c); cbn [andb].
      * specialize (IH (MState (c :: consumed st) rest (captures st))).
        cbn [remaining] in IH.
        destruct (m false (UpTo n (Class neg items)) atEnd
                    (MState (c :: consumed st) rest (captures st))).
        -- split; [| discriminate]. intros _.
           destruct IH as [IH _]. destruct (IH ltac:(discriminate)) as [L F].
           split; [lia | exact F].
        -- unfold atEnd. cbn [m]. rewrite R.
           split; [congruence |]. intros [L F]. apply IH. split; [lia | exact F].
      * unfold atEnd. cbn [m]. rewrite R.
        split; [congruence | intros [_ F]; discriminate F].
Qed.

Lemma test_anchored_iff (ic : bool) (r : regex) (s : jsstring) :
  test ic (Seq Bol r) s = true <-> match_at ic (Seq Bol r) [] s <> None.
Proof.
  split.
  - intros H.
    destruct (WordConverse.test_found ic _ s H) as (pre & rest & fin & -> & M).
    destruct pre as [| c pre].
    + cbn [app rev] in *. congruence.
    + exfalso. unfold match_at in M. cbn [m consumed] in M. cbn [rev] in M.
      destruct (rev pre); discriminate.
  - intros H. unfold test, exec.
    destruct s as [| c s]; cbn [search];
      destruct (match_at ic (Seq Bol r) [] _); try reflexivity; congruence.
Qed.

Lemma forallb_same (p q : ascii -> bool) (s : jsstring) :
  (forall c, p c = q c) -> forallb p s = forallb q s.
Proof.
  intros E. induction s as [| c s IH]; [reflexivity |].
  cbn [forallb]. rewrite E, IH. reflexivity.
Qed.

Lemma forallb_firstn_skipn (p : ascii -> bool) (n : nat) (s : jsstring) :
  forallb p s = (forallb p (firstn n s) && forallb p (skipn n s))%bool.
Proof.
  rewrite <- forallb_app, firstn_skipn. reflexivity.
Qed.

(** X27. [isValidPhone] accepts exactly the texts of 10 to 15
    characters that are all digits, white space, parentheses or one of
    + , - . : the class [+-.] is a range and lets the comma in, and a
    digit is not required. *)
Theorem isValidPhone_iff (phone : jsstring) :
  isValidPhone phone = true
  <-> (10 <= length phone <= 15)%nat /\
      Forall (fun c => phoneInputChar c = true) phone.
Proof.
  unfold isValidPhone, phoneRegex. cbn [seqs].
  rewrite test_anchored_iff.
  unfold match_at, FromTo. cbn [m consumed Nat.sub].
  change (fun st' : mstate =>
            m false (UpTo 5 (cls [CDigit; CSpace; CChar "("; CChar ")";
                                  CRange "+" "."]))
              (fun st'0 : mstate =>
                 match remaining st'0 with
                 | [] => Some st'0
                 | _ :: _ => None
                 end) st')
    with (fun st' : mstate =>
            m false (UpTo 5 (Class false [CDigit; CSpace; CChar "("; CChar ")";
                                          CRange "+" "."])) atEnd st').
  unfold cls. rewrite m_Times_class. cbn [remaining consumed captures].
  rewrite (forallb_same _ _ (firstn 10 phone) phoneInputClass_matches).
  rewrite Forall_forall, <- forallb_forall.
  rewrite (forallb_firstn_skipn phoneInputChar 10 phone).
  destruct (Nat.leb 10 (length phone)) eqn:L; cbn [andb].
  - apply Nat.leb_le in L.
    destruct (forallb phoneInputChar (firstn 10 phone)); cbn [andb].
    + rewrite m_UpTo_class_end. cbn [remaining].
      rewrite length_skipn.
      rewrite (forallb_same _ _ (skipn 10 phone) phoneInputClass_matches).
      split; intros [A B]; (split; [lia | exact B]).
    + split; [congruence | intros [_ F]; discriminate F].
  - apply Nat.leb_gt in L. split; [congruence | intros [[A _] _]; lia].
Qed.

Lemma isValidPhone_iff_witness :
  isValidPhone (lit "555,123,4567") = true.
Proof.
  apply (proj2 (isValidPhone_iff (lit "555,123,4567"))).
  split; [cbn; lia |]. repeat constructor.
Defined.

End ValidationProofs.

(* ================================================================== *)
(** * The availability probe and the AI switch *)
(* ================================================================== *)

Module ApiStatusProofs.

Import JS RegExp Spec.
Import Page.

Lemma POST_probe (env : Route.Env) (remote : Route.RemoteOutcome)
      (s : Route.RateLimitState) :
  checkApiStatus (probeOf (fst (Route.POST env remote probeRequest s)))
  = available
  <-> gaveText env s remote.
Proof.
  unfold Route.POST, probeRequest, gaveText.
  change (Route.validText (Some (lit "test"))) with (Some (lit "test")).
  change (Route.validField (Some (lit "name"))) with (Some (lit "name")).
  cbv iota.
  destruct (Route.configured env).
  2:{ cbn. split; [discriminate | intros [H _]; discriminate H]. }
  rewrite RouteMore.isRateLimited_pair.
  destruct (fst (Route.isRateLimited (Route.checkTime env) s)).
  { cbn. split; [discriminate | intros [_ [H _]]; discriminate H]. }
  destruct remote as [| st b].
  { cbn. split; [discriminate |]. intros (_ & _ & st & t & E & _).
    discriminate E. }
  destruct (Route.ok st) eqn:Hok; cbn [negb].
  - destruct b as [| | t].
    + cbn. split; [discriminate |]. intros (_ & _ & st' & t & E & _).
      discriminate E.
    + cbn. split; [discriminate |]. intros (_ & _ & st' & t & E & _).
      discriminate E.
    + assert (T : truthy (if truthy t then trim t else []) = truthy (trim t)).
      { destruct t; reflexivity. }
      rewrite T. destruct (truthy (trim t)) eqn:Tt.
      * cbn. split; [| reflexivity]. intros _.
        repeat split. exists st, t. repeat split; assumption.
      * cbn. split; [discriminate |]. intros (_ & _ & st' & t' & E & _ & T').
        injection E as <- <-. congruence.
  - destruct (st =? 429)%Z; cbn;
      (split; [discriminate |]; intros (_ & _ & st' & t & E & O & _);
       injection E as <- _; congruence).
Qed.

Lemma probe_answered (env : Route.Env) (remote : Route.RemoteOutcome)
      (s : Route.RateLimitState) :
  checkApiStatus (probeOf (fst (Route.POST env remote probeRequest s)))
  = available \/
  checkApiStatus (probeOf (fst (Route.POST env remote probeRequest s)))
  = rate_limited.
Proof.
  destruct (RouteMore.valid_request_200 neverParses env (lit "test")
              (lit "name") s remote eq_refl eq_refl) as [_ H].
  unfold probeOf. change (Route.Parsed (Some (lit "test")) (Some (lit "name")))
    with probeRequest in H.
  rewrite H. change (Route.ok 200) with true. cbn [checkApiStatus].
  destruct (match Route.body (fst (Route.POST env remote probeRequest s)) with
            | Route.SanitizeBody _ ai => Some ai
            | Route.AnalysisBody a => Route.fromAI a
            | Route.ErrorBody _ => None
            end) as [[|] |]; tauto.
Qed.

(** X28. As long as the route answers the probe, the page never
    reports the backend as unavailable: the status is [available] exactly
    when a key is configured, no cool-down holds the call back and the
    backend replies with a success status and a text that is not blank;
    in every other case, a missing API key included, it is
    [rate_limited]. *)
Theorem probe_reports_available_or_limited
        (env : Route.Env) (remote : Route.RemoteOutcome)
        (s : Route.RateLimitState) :
  let apiStatus :=
    checkApiStatus (probeOf (fst (Route.POST env remote probeRequest s))) in
  (apiStatus = available <-> gaveText env s remote) /\
  (~ gaveText env s remote -> apiStatus = rate_limited) /\
  (Route.configured env = false -> apiStatus = rate_limited).
Proof.
  cbv zeta. pose proof (POST_probe env remote s) as A.
  pose proof (probe_answered env remote s) as [E | E].
  - split; [exact A |]. split.
    + intros N. exfalso. apply N, A, E.
    + intros K. apply A in E. destruct E as [E _]. congruence.
  - split; [exact A |]. split; intros _; exact E.
Qed.

Lemma probe_reports_available_or_limited_witness :
  checkApiStatus
    (probeOf (fst (Route.POST
                     {| Route.apiKey := None; Route.checkTime := 0;
                        Route.doneTime := 0; Route.random := 0 |}
                     (Route.Replied 200 (Route.Text (lit "Test")))
                     probeRequest Route.rateLimitState)))
  = rate_limited.
Proof.
  destruct (probe_reports_available_or_limited
              {| Route.apiKey := None; Route.checkTime := 0;
                 Route.doneTime := 0; Route.random := 0 |}
              (Route.Replied 200 (Route.Text (lit "Test")))
              Route.rateLimitState) as (_ & _ & H).
  apply H. reflexivity.
Defined.

(** X29. The AI switch through an outage: the status [unavailable]
    switches AI off and a click cannot switch it on again; the next
    [available] switches AI on, whatever the switch was before the
    outage, and takes the mark back; [checking] and [rate_limited] leave
    the switch alone.  So a probe that the route answers never switches
    AI off. *)
Theorem ai_switch_through_outage (a : AiSwitch) :
  let down := onApiStatus unavailable a in
  useAI down = false /\
  useAI (toggleUseAI unavailable down) = false /\
  onApiStatus available down = {| useAI := true; wasApiUnavailable := None |} /\
  onApiStatus available (onApiStatus available down)
  = {| useAI := true; wasApiUnavailable := None |} /\
  onApiStatus checking a = a /\ onApiStatus rate_limited a = a /\
  forall env remote s,
    useAI a = true ->
    useAI (onApiStatus
             (checkApiStatus
                (probeOf (fst (Route.POST env remote probeRequest s)))) a)
    = true.
Proof.
  cbv zeta. repeat split.
  intros env remote s U.
  destruct (probe_answered env remote s) as [-> | ->]; [| exact U].
  cbn [onApiStatus]. destruct (wasApiUnavailable a) as [flag |]; [| exact U].
  destruct (String.eqb flag "true"); [reflexivity | exact U].
Qed.

Lemma ai_switch_through_outage_witness :
  useAI (onApiStatus
           (checkApiStatus
              (probeOf (fst (Route.POST sampleEnv Route.FetchRejected
                               probeRequest Route.rateLimitState))))
           {| useAI := true; wasApiUnavailable := None |}) = true.
Proof.
  destruct (ai_switch_through_outage
              {| useAI := true; wasApiUnavailable := None |})
    as (_ & _ & _ & _ & _ & _ & H).
  apply (H sampleEnv Route.FetchRejected Route.rateLimitState). reflexivity.
Defined.

End ApiStatusProofs.

(* ================================================================== *)
(** * The validation of an email address *)
(* ================================================================== *)

Module EmailValidation.

Import JS RegExp Spec.
Import Page.

Lemma notSpaceAt_matches (c : ascii) :
  class_matches false true [CSpace; CChar "@"] c = emailPartChar c.
Proof. WordProofs.all_chars c. Qed.

Lemma char_matches_exact (p c : ascii) :
  char_matches false p c = true <-> c = p.
Proof.
  unfold char_matches. rewrite Ascii.eqb_eq. split; congruence.
Qed.

(** [*] of a class takes any run of characters of the class after
    which the rest of the pattern goes through. *)
Lemma m_Star_class_complete (neg : bool) (items : list class_item)
      (xs : list ascii) :
  forall (k : cont) (before rest : list ascii) (caps : list (nat * jsstring)),
    Forall (fun c => class_matches false neg items c = true) xs ->
    k (MState (rev xs ++ before) rest caps) <> None ->
    m false (Star (Class neg items)) k (MState before (xs ++ rest) caps)
    <> None.
Proof.
  induction xs as [| c xs IH]; intros k before rest caps F Hk.
  - cbn [rev app] in *. cbn [m remaining].
    destruct rest as [| d rest]; cbn [length]; [exact Hk |].
    unfold orelse.
    match goal with
    | |- match ?x with _ => _ end <> None => destruct x; [discriminate | exact Hk]
    end.
  - inversion F as [| ? ? Pc F']; subst.
    cbn [m remaining app length]. unfold orelse.
    cbn [m]. unfold advance. cbn [remaining consumed captures].
    rewrite Pc.
    assert (L : Nat.eqb (length (xs ++ rest)) (S (length (xs ++ rest))) = false)
      by (apply Nat.eqb_neq; lia).
    rewrite L.
    specialize (IH k (c :: before) rest caps F').
    cbn [rev] in Hk. rewrite <- app_assoc in Hk. specialize (IH Hk).
    cbn [m remaining] in IH.
    match goal with
    | |- match ?x with _ => _ end <> None => destruct x eqn:E
    end; [discriminate |].
    exfalso. apply IH. exact E.
Qed.

(** [+] of a class. *)
Lemma m_Plus_class_complete (neg : bool) (items : list class_item)
      (xs : list ascii) (k : cont) (before rest : list ascii)
      (caps : list (nat * jsstring)) :
  xs <> [] ->
  Forall (fun c => class_matches false neg items c = true) xs ->
  k (MState (rev xs ++ before) rest caps) <> None ->
  m false (Plus (Class neg items)) k (MState before (xs ++ rest) caps) <> None.
Proof.
  intros Hne F Hk. destruct xs as [| c xs]; [congruence |].
  inversion F as [| ? ? Pc F']; subst.
  unfold Plus. cbn [m]. unfold advance. cbn [remaining consumed captures app].
  rewrite Pc. apply m_Star_class_complete; [exact F' |].
  cbn [rev] in Hk. rewrite <- app_assoc in Hk. exact Hk.
Qed.

Lemma m_Plus_class_sound (neg : bool) (items : list class_item)
      (k : cont) (st fin : mstate) :
  m false (Plus (Class neg items)) k st = Some fin ->
  exists xs rest caps,
    xs <> [] /\
    Forall (fun c => class_matches false neg items c = true) xs /\
    remaining st = xs ++ rest /\
    k (MState (rev xs ++ consumed st) rest caps) = Some fin.
Proof.
  unfold Plus. cbn [m]. unfold advance.
  destruct (remaining st) as [| c r] eqn:R; [discriminate |].
  destruct (class_matches false neg items c) eqn:Pc; [| discriminate].
  intros H.
  destruct (MatcherProofs.m_sound false (class_matches false neg items)
              (Star (Class neg items)) (fun c H => H) _ _ _ H)
    as (st' & (added & Pa & C & Rm) & Hk).
  cbn [consumed remaining] in C, Rm.
  exists (c :: added), (remaining st'), (captures st'). repeat split.
  - discriminate.
  - constructor; assumption.
  - rewrite Rm. reflexivity.
  - cbn [rev]. rewrite <- app_assoc. cbn [app]. rewrite <- C.
    destruct st'. exact Hk.
Qed.

Lemma m_Char_inv (p : ascii) (k : cont) (st fin : mstate) :
  m false (Char p) k st = Some fin ->
  exists rest, remaining st = p :: rest /\
               k (MState (p :: consumed st) rest (captures st)) = Some fin.
Proof.
  cbn [m]. unfold advance.
  destruct (remaining st) as [| c r]; [discriminate |].
  destruct (char_matches false p c) eqn:E; [| discriminate].
  apply char_matches_exact in E. subst c. intros H. exists r. split;
    [reflexivity | exact H].
Qed.

Lemma emailPart_class (s : jsstring) :
  Forall (fun c => class_matches false true [CSpace; CChar "@"] c = true) s
  <-> Forall (fun c => emailPartChar c = true) s.
Proof.
  split; apply Forall_impl; intros c; rewrite notSpaceAt_matches; tauto.
Qed.

(** X30. [isValidEmail] accepts exactly the texts of the shape
    a@b.c where a, b and c are not empty and hold neither white space nor
    an at sign: one at sign, a dot somewhere after it, and text on both
    sides of each. *)
Theorem isValidEmail_iff (email : jsstring) :
  isValidEmail email = true <-> emailShape email.
Proof.
  unfold isValidEmail, emailRegex. cbn [seqs].
  rewrite ValidationProofs.test_anchored_iff. unfold match_at, ncls.
  split.
  - intros H.
    destruct (m false _ _ (MState [] email [])) as [fin |] eqn:E;
      [clear H | congruence].
    cbn [m consumed] in E.
    apply m_Plus_class_sound in E.
    destruct E as (a & r1 & caps1 & Ha & Fa & R1 & E).
    cbn [remaining consumed] in R1, E.
    apply m_Char_inv in E. destruct E as (r2 & R2 & E).
    cbn [remaining consumed captures] in R2, E.
    apply m_Plus_class_sound in E.
    destruct E as (b & r3 & caps3 & Hb & Fb & R3 & E).
    cbn [remaining consumed] in R3, E.
    apply m_Char_inv in E. destruct E as (r4 & R4 & E).
    cbn [remaining consumed captures] in R4, E.
    apply m_Plus_class_sound in E.
    destruct E as (c & r5 & caps5 & Hc & Fc & R5 & E).
    cbn [remaining consumed m] in R5, E.
    destruct r5 as [| x r5]; [| discriminate].
    exists a, b, c. subst. rewrite app_nil_r.
    repeat split; try assumption; apply emailPart_class; assumption.
  - intros (a & b & c & -> & [Ha Fa] & [Hb Fb] & [Hc Fc]).
    apply emailPart_class in Fa, Fb, Fc.
    cbn [m consumed].
    apply m_Plus_class_complete; [assumption | assumption |].
    cbn [lit list_ascii_of_string app m]. unfold advance.
    cbn [remaining consumed captures].
    change (char_matches false "@" "@") with true. cbv iota.
    apply m_Plus_class_complete; [assumption | assumption |].
    cbn [m]. unfold advance. cbn [remaining consumed captures].
    change (char_matches false "." ".") with true. cbv iota.
    rewrite <- (app_nil_r c).
    apply m_Plus_class_complete; [assumption | assumption |].
    cbn [m remaining]. discriminate.
Qed.

Lemma isValidEmail_iff_witness :
  isValidEmail (lit "j.doe@mail.example.com") = true.
Proof.
  apply (proj2 (isValidEmail_iff (lit "j.doe@mail.example.com"))).
  exists (lit "j.doe"), (lit "mail.example"), (lit "com").
  repeat split; try discriminate; repeat constructor.
Defined.

End EmailValidation.
